(** * CasingCalculator: section assembly and mechanical calculation engine

    A shallow embedding of [CasingCalcMain.py] and the properties of
    its specification.

    Numbers.  Python floats are modelled as rationals ([Q]): a float
    literal denotes its decimal value and [math.pi] the binary64 number the
    constant holds.  The arithmetic operators are the exact ones, with one
    exception: [calculate_cement_height] divides by a difference that can
    cancel, and whether it raises depends on how the operands were rounded,
    so its operations round to binary64 ([b64], round to nearest, ties to
    even).  Overflow, underflow and NaN are outside the model.  The solo
    burst analysis has such a difference too: with a mud weight equal to
    the backup mud weight its load is 0 in the rationals and a rounding
    residue in binary64, and what is stated of that load is stated for
    unequal mud weights.
    [float('inf')], which the source only ever writes as the design-factor
    sentinel, is the separate value [PosInf]; no function of the source
    reads a design factor back, and arithmetic on the sentinel is reported
    as [Unmodelled], as is the conversion of text by [float()] and the
    order of text sort keys.

    Exceptions.  A function that can raise returns a [pyresult].  The state of
    a mutated object after an exception is not modelled. *)

From Stdlib Require Import QArith Qabs Qminmax Sorting.Sorted Sorting.Permutation.
From Stdlib Require Import Floats.
From stdpp Require Import base option list gmap strings sorting.

(* ===================================================================== *)
(** * Python values, exceptions and dictionaries *)
(* ===================================================================== *)

Inductive exn :=
| KeyError
| TypeError
| ZeroDivisionError
| ValueError (missing : list string)
| Unmodelled.

Inductive pyresult (A : Type) :=
| Ok (a : A)
| Raise (e : exn).
Arguments Ok {A} a.
Arguments Raise {A} e.

#[global] Instance pyresult_ret : MRet pyresult := @Ok.
#[global] Instance pyresult_bind : MBind pyresult :=
  fun A B f m => match m with Ok a => f a | Raise e => Raise e end.

Definition raises {A} (m : pyresult A) : Prop := ∃ e, m = Raise e.
Definition returns {A} (m : pyresult A) : Prop := ∃ a, m = Ok a.

(** A float: a finite number or the [float('inf')] sentinel. *)
Inductive pyfloat :=
| Fin (q : Q)
| PosInf.

Definition is_finite (x : pyfloat) : Prop :=
  match x with Fin _ => True | PosInf => False end.

(** The values a section dictionary holds: numbers and text labels. *)
Inductive pyval :=
| VFloat (x : pyfloat)
| VStr (s : string).

Definition VNum (q : Q) : pyval := VFloat (Fin q).

(** A section (and the keyword arguments it is built from) is a Python dict
    with string keys.  The order of the keys inside one section is never
    observed by the source, so it is a finite map. *)
Notation "'section'" := (gmap string pyval).

(** [d[k]] *)
Definition getitem (d : section) (k : string) : pyresult pyval :=
  match d !! k with
  | Some v => Ok v
  | None => Raise KeyError
  end.

(** A value used as an operand of float arithmetic. *)
Definition as_num (v : pyval) : pyresult Q :=
  match v with
  | VFloat (Fin q) => Ok q
  | VFloat PosInf => Raise Unmodelled
  | VStr _ => Raise TypeError
  end.

(** [d[k]] read as a number.  The source reads an operand ([KeyError] when
    the key is missing) and then computes with it ([TypeError] when it is
    text); the two steps are taken together here. *)
Definition num (d : section) (k : string) : pyresult Q :=
  v ← getitem d k; as_num v.

(** [k in d] *)
Definition contains (d : section) (k : string) : bool :=
  bool_decide (is_Some (d !! k)).

(** [d.update(other)]: the keys of [other] win. *)
Definition update (d other : section) : section := other ∪ d.

Local Open Scope Q_scope.

(** [a > b], [a < b], [a == b], [a != b] on numbers *)
Definition gt (a b : Q) : bool := negb (Qle_bool a b).
Definition lt (a b : Q) : bool := negb (Qle_bool b a).
Definition eqf (a b : Q) : bool := Qeq_bool a b.
Definition nef (a b : Q) : bool := negb (Qeq_bool a b).

(** [v == q] for a stored value [v] and a number [q]: text and the sentinel
    are never equal to a finite number. *)
Definition py_eq_num (v : pyval) (q : Q) : bool :=
  match v with
  | VFloat (Fin x) => Qeq_bool x q
  | _ => false
  end.

(** Python's [max(a, b)] keeps [a] unless [b > a]; [min(a, b)] keeps [a]
    unless [b < a]. *)
Definition py_max (a b : Q) : Q := if gt b a then b else a.
Definition py_min (a b : Q) : Q := if lt b a then b else a.
Definition py_max3 (a b c : Q) : Q := py_max (py_max a b) c.

(** [a / b] with a divisor that is not a constant. *)
Definition py_div (a b : Q) : pyresult Q :=
  if Qeq_bool b 0 then Raise ZeroDivisionError else Ok (a / b).

(** ** Binary64 rounding

    [b64 q] is the binary64 number nearest to [q]: [m * 2^e] with
    [2^52 <= |m| <= 2^53], ties to the even [m].  The exponent is not
    bounded. *)

(** The integer nearest to [n / d], ties to even, for [0 <= n] and
    [0 < d]. *)
Definition round_half_even (n d : Z) : Z :=
  let q := (n / d)%Z in
  match (2 * (n mod d) ?= d)%Z with
  | Lt => q
  | Gt => (q + 1)%Z
  | Eq => if Z.even q then q else (q + 1)%Z
  end.

(** [n / (d * 2^e)] as a fraction of integers. *)
Definition scaled (n d e : Z) : Z * Z :=
  if (0 <=? e)%Z then (n, (d * 2 ^ e)%Z) else ((n * 2 ^ (- e))%Z, d).

Definition two_power (e : Z) : Q :=
  if (0 <=? e)%Z then inject_Z (2 ^ e) else 1 / inject_Z (2 ^ (- e)).

(** [n / d] rounded, for positive [n] and [d].  With
    [e0 = log2 n - log2 d - 53] the quotient [n / (d * 2^e0)] lies between
    [2^52] and [2^54]; the exponent is [e0] or [e0 + 1]. *)
Definition b64_pos (n d : Z) : Q :=
  let e0 := (Z.log2 n - Z.log2 d - 53)%Z in
  let t := (fst (scaled n d e0) / snd (scaled n d e0))%Z in
  let e := if (t <? 2 ^ 53)%Z then e0 else (e0 + 1)%Z in
  inject_Z (round_half_even (fst (scaled n d e)) (snd (scaled n d e)))
  * two_power e.

Definition b64 (q : Q) : Q :=
  let r := Qred q in
  match Qnum r with
  | Z0 => 0
  | Zpos n => b64_pos (Zpos n) (Zpos (Qden r))
  | Zneg n => - b64_pos (Zpos n) (Zpos (Qden r))
  end.

(** [a + b], [a - b], [a * b], [a ** 2] and [a / c] for a constant [c]
    other than 0, in binary64: the exact result, rounded.  [a ** 2] is
    taken as the correctly rounded square.  The operands are binary64
    numbers in the program; on other rationals the operations have no
    counterpart in it. *)
Definition b64_add (a b : Q) : Q := b64 (a + b).
Definition b64_sub (a b : Q) : Q := b64 (a - b).
Definition b64_mul (a b : Q) : Q := b64 (a * b).
Definition b64_sq (a : Q) : Q := b64 (a * a).
Definition b64_div (a c : Q) : Q := b64 (a / c).

(** [a / b] in binary64 with a divisor that is not a constant. *)
Definition py_div64 (a b : Q) : pyresult Q :=
  if Qeq_bool b 0 then Raise ZeroDivisionError else Ok (b64 (a / b)).

(** The rational a finite binary64 number of the kernel denotes. *)
Definition binary64_value (x : float) : option Q :=
  match Prim2SF x with
  | SpecFloat.S754_zero _ => Some 0
  | SpecFloat.S754_finite s m e =>
      Some ((if s then - inject_Z (Zpos m) else inject_Z (Zpos m))
            * two_power e)
  | _ => None
  end.

(** [math.pi]: the binary64 number 0x1.921fb54442d18p+1. *)
Definition math_pi : Q := 884279719003555 # 281474976710656.

(* ===================================================================== *)
(** * Inter-section burst analysis (module-level functions) *)
(* ===================================================================== *)

(** [float(v)]: a float is itself.  Python also converts text that spells
    a number; that conversion is not modelled. *)
Definition py_float (v : pyval) : pyresult Q :=
  match v with
  | VFloat (Fin q) => Ok q
  | _ => Raise Unmodelled
  end.

(** [float(section['burst_strength']) / float(burst_load)
     if float(burst_load) > 0 else float('inf')]; the strength is read only
    when the load is positive. *)
Definition burst_design_factor (sec : section) (burst_load : Q)
  : pyresult pyfloat :=
  if gt burst_load 0
  then v ← getitem sec "burst_strength"; bs ← py_float v;
       q ← py_div bs burst_load; Ok (Fin q)
  else Ok PosInf.

Record solo_values := {
  solo_maps : Q;
  solo_burst_load : Q;
  solo_burst_df : pyfloat }.

(** The three values [calculateSoloMapsBurstLoadDF] computes before it
    stores them. *)
Definition solo_compute (sec : section) : pyresult solo_values :=
  mw ← num sec "mud_weight";
  tvd ← num sec "tvd";
  let maps := mw * tvd * 0.05194806 in
  bm ← num sec "backup_mud";
  fip ← num sec "frac_init_pressure";
  ig ← num sec "int_gradient";
  let burst_load :=
    py_max
      (0.05194806 * (mw - bm) * tvd)
      (py_min
         (fip - (0.05194806 * bm * tvd))
         (maps - ig * (tvd - tvd) - (0.05194806 * bm * tvd))) in
  burst_df ← burst_design_factor sec burst_load;
  Ok {| solo_maps := maps;
        solo_burst_load := burst_load;
        solo_burst_df := burst_df |}.

Definition store_burst (sec : section) (maps burst_load : Q)
    (burst_df : pyfloat) : section :=
  update sec
    (<["maps" := VNum maps]>
       (<["burst_load" := VNum burst_load]>
          (<["burst_df" := VFloat burst_df]> ∅))).

Definition calculateSoloMapsBurstLoadDF (sec : section) : pyresult section :=
  r ← solo_compute sec;
  Ok (store_burst sec (solo_maps r) (solo_burst_load r) (solo_burst_df r)).

Definition calculate_maps (sec1 sec2 : section) : pyresult Q :=
  mw2 ← num sec2 "mud_weight";
  tvd2 ← num sec2 "tvd";
  let next_bhp := mw2 * tvd2 * 0.05194806 in
  tvd1 ← num sec1 "tvd";
  ig2 ← num sec2 "int_gradient";
  let maps := next_bhp - (tvd2 - tvd1) * ig2 in
  Ok maps.

Definition calculate_burst_load (sec1 sec2 : section) (maps : Q)
  : pyresult Q :=
  mw ← num sec1 "mud_weight";
  bm ← num sec1 "backup_mud";
  tvd ← num sec1 "tvd";
  let part1 := 0.05194806 * (mw - bm) * tvd in
  fip ← num sec1 "frac_init_pressure";
  ig2 ← num sec2 "int_gradient";
  let minPart1 := fip - (tvd - tvd) * ig2 - (0.05194806 * bm * tvd) in
  ig1 ← num sec1 "int_gradient";
  let minPart2 := maps - ig1 * (tvd - tvd) - (0.05194806 * bm * tvd) in
  let max_all := py_max part1 (py_min minPart1 minPart2) in
  Ok max_all.

(* ===================================================================== *)
(** * Per-section mechanical calculator (class [CasingDataCalc]) *)
(* ===================================================================== *)

Module CasingDataCalc.

(** The attributes [__init__] copies from the section and from the
    well-wide parameters.  Those that [calculateData] computes with are
    numbers; the others are only carried. *)
Record attrs := {
  tvd : Q;
  washout : Q;
  int_gradient : Q;
  mud_weight : Q;
  backup_mud : pyval;
  cement_cu_ft : Q;
  hole_size : Q;
  set_depth : Q;
  casing_top : pyval;
  csg_weight : Q;
  csg_size : Q;
  csg_grade : pyval;
  csg_collar : pyval;
  body_yield : pyval;
  burst_strength : pyval;
  wall_thickness : pyval;
  csg_internal_diameter : Q;
  collapse_strength : Q;
  tension_strength : Q;
  tol : Q;
  frac_gradient : Q;
  max_md_depth : Q;
  max_tvd_depth : Q }.

(** The attributes [__init__] sets to [None] and [calculateData] fills in,
    in the order of the source. *)
Record derived := {
  tension_df : option pyfloat;
  tension_buoyed : option Q;
  tension_air : option Q;
  neutral_point : option Q;
  collapse_df : option pyfloat;
  masp : option Q;
  collapse_load : option Q;
  toc : option Q;
  cmt_height : option Q;
  annular_volume : option Q;
  frac_init_pressure : option Q;
  results : section }.

Record t := { inp : attrs; drv : derived }.

Definition fresh : derived :=
  {| tension_df := None; tension_buoyed := None; tension_air := None;
     neutral_point := None; collapse_df := None; masp := None;
     collapse_load := None; toc := None; cmt_height := None;
     annular_volume := None; frac_init_pressure := None; results := ∅ |}.

Definition with_drv (self : t) (d : derived) : t :=
  {| inp := inp self; drv := d |}.

Definition set_frac_init_pressure (v : Q) (self : t) : t :=
  let d := drv self in
  with_drv self
    {| tension_df := tension_df d; tension_buoyed := tension_buoyed d;
       tension_air := tension_air d; neutral_point := neutral_point d;
       collapse_df := collapse_df d; masp := masp d;
       collapse_load := collapse_load d; toc := toc d;
       cmt_height := cmt_height d; annular_volume := annular_volume d;
       frac_init_pressure := Some v; results := results d |}.

Definition set_annular_volume (v : Q) (self : t) : t :=
  let d := drv self in
  with_drv self
    {| tension_df := tension_df d; tension_buoyed := tension_buoyed d;
       tension_air := tension_air d; neutral_point := neutral_point d;
       collapse_df := collapse_df d; masp := masp d;
       collapse_load := collapse_load d; toc := toc d;
       cmt_height := cmt_height d; annular_volume := Some v;
       frac_init_pressure := frac_init_pressure d; results := results d |}.

Definition set_cmt_height (v : Q) (self : t) : t :=
  let d := drv self in
  with_drv self
    {| tension_df := tension_df d; tension_buoyed := tension_buoyed d;
       tension_air := tension_air d; neutral_point := neutral_point d;
       collapse_df := collapse_df d; masp := masp d;
       collapse_load := collapse_load d; toc := toc d;
       cmt_height := Some v; annular_volume := annular_volume d;
       frac_init_pressure := frac_init_pressure d; results := results d |}.

Definition set_toc (v : Q) (self : t) : t :=
  let d := drv self in
  with_drv self
    {| tension_df := tension_df d; tension_buoyed := tension_buoyed d;
       tension_air := tension_air d; neutral_point := neutral_point d;
       collapse_df := collapse_df d; masp := masp d;
       collapse_load := collapse_load d; toc := Some v;
       cmt_height := cmt_height d; annular_volume := annular_volume d;
       frac_init_pressure := frac_init_pressure d; results := results d |}.

Definition set_masp (v : Q) (self : t) : t :=
  let d := drv self in
  with_drv self
    {| tension_df := tension_df d; tension_buoyed := tension_buoyed d;
       tension_air := tension_air d; neutral_point := neutral_point d;
       collapse_df := collapse_df d; masp := Some v;
       collapse_load := collapse_load d; toc := toc d;
       cmt_height := cmt_height d; annular_volume := annular_volume d;
       frac_init_pressure := frac_init_pressure d; results := results d |}.

Definition set_collapse_load (v : Q) (self : t) : t :=
  let d := drv self in
  with_drv self
    {| tension_df := tension_df d; tension_buoyed := tension_buoyed d;
       tension_air := tension_air d; neutral_point := neutral_point d;
       collapse_df := collapse_df d; masp := masp d;
       collapse_load := Some v; toc := toc d;
       cmt_height := cmt_height d; annular_volume := annular_volume d;
       frac_init_pressure := frac_init_pressure d; results := results d |}.

Definition set_collapse_df (v : pyfloat) (self : t) : t :=
  let d := drv self in
  with_drv self
    {| tension_df := tension_df d; tension_buoyed := tension_buoyed d;
       tension_air := tension_air d; neutral_point := neutral_point d;
       collapse_df := Some v; masp := masp d;
       collapse_load := collapse_load d; toc := toc d;
       cmt_height := cmt_height d; annular_volume := annular_volume d;
       frac_init_pressure := frac_init_pressure d; results := results d |}.

Definition set_neutral_point (v : Q) (self : t) : t :=
  let d := drv self in
  with_drv self
    {| tension_df := tension_df d; tension_buoyed := tension_buoyed d;
       tension_air := tension_air d; neutral_point := Some v;
       collapse_df := collapse_df d; masp := masp d;
       collapse_load := collapse_load d; toc := toc d;
       cmt_height := cmt_height d; annular_volume := annular_volume d;
       frac_init_pressure := frac_init_pressure d; results := results d |}.

Definition set_tension_air (v : Q) (self : t) : t :=
  let d := drv self in
  with_drv self
    {| tension_df := tension_df d; tension_buoyed := tension_buoyed d;
       tension_air := Some v; neutral_point := neutral_point d;
       collapse_df := collapse_df d; masp := masp d;
       collapse_load := collapse_load d; toc := toc d;
       cmt_height := cmt_height d; annular_volume := annular_volume d;
       frac_init_pressure := frac_init_pressure d; results := results d |}.

Definition set_tension_buoyed (v : Q) (self : t) : t :=
  let d := drv self in
  with_drv self
    {| tension_df := tension_df d; tension_buoyed := Some v;
       tension_air := tension_air d; neutral_point := neutral_point d;
       collapse_df := collapse_df d; masp := masp d;
       collapse_load := collapse_load d; toc := toc d;
       cmt_height := cmt_height d; annular_volume := annular_volume d;
       frac_init_pressure := frac_init_pressure d; results := results d |}.

Definition set_tension_df (v : pyfloat) (self : t) : t :=
  let d := drv self in
  with_drv self
    {| tension_df := Some v; tension_buoyed := tension_buoyed d;
       tension_air := tension_air d; neutral_point := neutral_point d;
       collapse_df := collapse_df d; masp := masp d;
       collapse_load := collapse_load d; toc := toc d;
       cmt_height := cmt_height d; annular_volume := annular_volume d;
       frac_init_pressure := frac_init_pressure d; results := results d |}.

Definition set_results (v : section) (self : t) : t :=
  let d := drv self in
  with_drv self
    {| tension_df := tension_df d; tension_buoyed := tension_buoyed d;
       tension_air := tension_air d; neutral_point := neutral_point d;
       collapse_df := collapse_df d; masp := masp d;
       collapse_load := collapse_load d; toc := toc d;
       cmt_height := cmt_height d; annular_volume := annular_volume d;
       frac_init_pressure := frac_init_pressure d; results := v |}.

(** An attribute that is a number once computed and [None] before: using
    [None] as an operand is a [TypeError]. *)
Definition operand (o : option Q) : pyresult Q :=
  match o with
  | Some q => Ok q
  | None => Raise TypeError
  end.

Definition calculate_cement_volume (self : t) : Q :=
  let hole_area := math_pi * (hole_size (inp self) / 12) ^ 2 / 4 in
  let casing_area := math_pi * (csg_size (inp self) / 12) ^ 2 / 4 in
  hole_area - casing_area.

(** Which arm of the [if self.csg_size > 0] of [calculate_cement_height]
    runs. *)
Inductive cement_branch := divide_branch | zero_branch.

Definition cement_height_branch (self : t) : cement_branch :=
  if gt (csg_size (inp self)) 0 then divide_branch else zero_branch.

(** [effective_hole_size = self.hole_size * (1 + self.washout / 100)],
    [annular_volume_per_foot = (effective_hole_size ** 2
     - self.csg_size ** 2) / 183.35] and
    [(1 / annular_volume_per_foot) * self.cement_cu_ft], each operation
    rounded as Python rounds it. *)
Definition calculate_cement_height (self : t) : pyresult Q :=
  match cement_height_branch self with
  | divide_branch =>
      let effective_hole_size :=
        b64_mul (hole_size (inp self))
          (b64_add 1 (b64_div (washout (inp self)) 100)) in
      let annular_volume_per_foot :=
        b64_div (b64_sub (b64_sq effective_hole_size)
                   (b64_sq (csg_size (inp self)))) (b64 183.35) in
      r ← py_div64 1 annular_volume_per_foot;
      Ok (b64_mul r (cement_cu_ft (inp self)))
  | zero_branch => Ok 0
  end.

(** The annular volume per foot [calculate_cement_height] divides by, as a
    function of the three attributes it is computed from. *)
Definition annular_volume_per_foot (hole_size washout csg_size : Q) : Q :=
  let effective_hole_size :=
    b64_mul hole_size (b64_add 1 (b64_div washout 100)) in
  b64_div (b64_sub (b64_sq effective_hole_size) (b64_sq csg_size))
    (b64 183.35).

Definition calculate_toc (self : t) : pyresult Q :=
  cement_height ← calculate_cement_height self;
  let output := set_depth (inp self) - cement_height in
  if lt output 0 then Ok 0 else Ok output.

Definition calculate_masp (self : t) : Q :=
  let pore_pressure_gradient := 0.465 in
  let mud_hydrostatic_pressure :=
    0.05194806 * tvd (inp self) * mud_weight (inp self) in
  let internal_pressure := int_gradient (inp self) * tvd (inp self) in
  let pore_pressure := pore_pressure_gradient * tvd (inp self) in
  let masp_from_pore := pore_pressure - internal_pressure in
  let masp_from_mud := mud_hydrostatic_pressure - internal_pressure in
  py_max3 masp_from_pore masp_from_mud 0.

Definition calculate_collapse_load (self : t) : Q :=
  let external_pressure :=
    set_depth (inp self) * mud_weight (inp self) * 0.052 in
  let internal_pressure := 0 in
  external_pressure - internal_pressure.

(** [self.collapse_strength / self.collapse_load
     if self.collapse_load != 0 else float('inf')] *)
Definition calculate_collapse_df (self : t) : pyresult pyfloat :=
  match collapse_load (drv self) with
  | Some load =>
      if nef load 0
      then q ← py_div (collapse_strength (inp self)) load; Ok (Fin q)
      else Ok PosInf
  | None => Raise TypeError
  end.

Definition calculate_neutral_point (self : t) : Q :=
  tvd (inp self) * (1 - mud_weight (inp self) / 65.4).

Definition calculate_tension_air (self : t) : Q :=
  let total_weight :=
    if eqf (set_depth (inp self)) (max_md_depth (inp self))
    then csg_weight (inp self) * Qabs (set_depth (inp self) - tol (inp self))
    else csg_weight (inp self) * set_depth (inp self) in
  total_weight / 1000.

Definition calculate_tension_buoyed (self : t) : Q :=
  let result1 :=
    math_pi / 4 *
    (csg_size (inp self) ^ 2 - csg_internal_diameter (inp self) ^ 2) in
  let '(result2, result3) :=
    if eqf (set_depth (inp self)) (max_md_depth (inp self))
    then (0.05194806 * mud_weight (inp self)
            * Qabs (tvd (inp self) - max_tvd_depth (inp self)),
          csg_weight (inp self) * Qabs (set_depth (inp self) - tol (inp self)))
    else (0.05194806 * mud_weight (inp self) * tvd (inp self),
          csg_weight (inp self) * set_depth (inp self)) in
  let output := (result3 - result2 * result1) / 1000 in
  output.

Definition calculate_tension_df (self : t) : pyresult pyfloat :=
  match tension_buoyed (drv self) with
  | Some load =>
      if eqf load 0
      then Ok PosInf
      else q ← py_div (tension_strength (inp self)) load; Ok (Fin q)
  | None => Raise TypeError
  end.

(** The well-wide parameters [calcParametersContained] hands to every
    calculator; it builds them from the floats of the well. *)
Record univ_params := {
  up_max_md_depth : Q;
  up_max_tvd_depth : Q;
  up_tol : Q;
  up_frac_gradient : Q }.

(** [__init__] up to its call of [calculateData]. *)
Definition init_attrs (casing : section) (up : univ_params) : pyresult t :=
  tvd ← num casing "tvd";
  washout ← num casing "washout";
  int_gradient ← num casing "int_gradient";
  mud_weight ← num casing "mud_weight";
  backup_mud ← getitem casing "backup_mud";
  cement_cu_ft ← num casing "cement_cu_ft";
  hole_size ← num casing "hole_size";
  set_depth ← num casing "bottom";
  casing_top ← getitem casing "top";
  csg_weight ← num casing "weight";
  csg_size ← num casing "od";
  csg_grade ← getitem casing "grade";
  csg_collar ← getitem casing "connection";
  body_yield ← getitem casing "body_yield";
  burst_strength ← getitem casing "burst_strength";
  wall_thickness ← getitem casing "wall_thickness";
  csg_internal_diameter ← num casing "csg_internal_diameter";
  collapse_strength ← num casing "collapse_pressure";
  tension_strength ← num casing "tension_strength";
  Ok {| inp :=
          {| tvd := tvd; washout := washout; int_gradient := int_gradient;
             mud_weight := mud_weight; backup_mud := backup_mud;
             cement_cu_ft := cement_cu_ft; hole_size := hole_size;
             set_depth := set_depth; casing_top := casing_top;
             csg_weight := csg_weight; csg_size := csg_size;
             csg_grade := csg_grade; csg_collar := csg_collar;
             body_yield := body_yield; burst_strength := burst_strength;
             wall_thickness := wall_thickness;
             csg_internal_diameter := csg_internal_diameter;
             collapse_strength := collapse_strength;
             tension_strength := tension_strength;
             tol := up_tol up; frac_gradient := up_frac_gradient up;
             max_md_depth := up_max_md_depth up;
             max_tvd_depth := up_max_tvd_depth up |};
        drv := fresh |}.

(** The dictionary [calculateData] consolidates; each attribute holds the
    value assigned to it just before. *)
Definition results_dict (self : t) (cmt_height toc masp collapse_load : Q)
    (collapse_df : pyfloat) (neutral_point : Q) (tension_df : pyfloat)
    (tension_air tension_buoyed frac_init_pressure : Q) : section :=
  <["cement_cu_ft" := VNum (cement_cu_ft (inp self))]>
  (<["cement_height" := VNum cmt_height]>
  (<["toc" := VNum toc]>
  (<["masp" := VNum masp]>
  (<["collapse_strength" := VNum (collapse_strength (inp self))]>
  (<["collapse_load" := VNum collapse_load]>
  (<["collapse_df" := VFloat collapse_df]>
  (<["burst_strength" := burst_strength (inp self)]>
  (<["neutral_point" := VNum neutral_point]>
  (<["tension_strength" := VNum (tension_strength (inp self))]>
  (<["tension_df" := VFloat tension_df]>
  (<["tension_air" := VNum tension_air]>
  (<["tension_buoyed" := VNum tension_buoyed]>
  (<["frac_init_pressure" := VNum frac_init_pressure]> ∅))))))))))))).

Definition calculateData (self : t) : pyresult t :=
  let fip := frac_gradient (inp self) * tvd (inp self) in
  let self := set_frac_init_pressure fip self in
  let self := set_annular_volume (calculate_cement_volume self) self in
  h ← calculate_cement_height self;
  let self := set_cmt_height h self in
  tc ← calculate_toc self;
  let self := set_toc tc self in
  let m := calculate_masp self in
  let self := set_masp m self in
  let cl := calculate_collapse_load self in
  let self := set_collapse_load cl self in
  cdf ← calculate_collapse_df self;
  let self := set_collapse_df cdf self in
  let np := calculate_neutral_point self in
  let self := set_neutral_point np self in
  let ta := calculate_tension_air self in
  let self := set_tension_air ta self in
  let tb := calculate_tension_buoyed self in
  let self := set_tension_buoyed tb self in
  tdf ← calculate_tension_df self;
  let self := set_tension_df tdf self in
  Ok (set_results (results_dict self h tc m cl cdf np tdf ta tb fip) self).

(** [CasingDataCalc(casing, univ_params)] *)
Definition new (casing : section) (up : univ_params) : pyresult t :=
  self ← init_attrs casing up; calculateData self.

Definition get_results (self : t) : section := results (drv self).

End CasingDataCalc.

(* ===================================================================== *)
(** * The section collection: an insertion-ordered dictionary *)
(* ===================================================================== *)

(** [self.sections] is keyed by position while the well is assembled and by
    casing-type label after [create_variables]. *)
Inductive key :=
| KInt (n : nat)
| KStr (s : string).

#[global] Instance key_eq_dec : EqDecision key.
Proof. solve_decision. Defined.

Section odict.
Context {V : Type}.

(** [d[k]] *)
Fixpoint dict_get (k : key) (d : list (key * V)) : option V :=
  match d with
  | [] => None
  | (k', v') :: d' => if decide (k = k') then Some v' else dict_get k d'
  end.

(** [d[k] = v]: an existing key keeps its place, a new one goes last. *)
Fixpoint dict_set (k : key) (v : V) (d : list (key * V)) : list (key * V) :=
  match d with
  | [] => [(k, v)]
  | (k', v') :: d' =>
      if decide (k = k') then (k, v) :: d' else (k', v') :: dict_set k v d'
  end.

(** [d.pop(k)] *)
Fixpoint dict_pop (k : key) (d : list (key * V))
  : option (V * list (key * V)) :=
  match d with
  | [] => None
  | (k', v') :: d' =>
      if decide (k = k') then Some (v', d')
      else '(v, r) ← dict_pop k d'; Some (v, (k', v') :: r)
  end.

Definition subscript (d : list (key * V)) (k : key) : pyresult V :=
  match dict_get k d with
  | Some v => Ok v
  | None => Raise KeyError
  end.

(** [{k: v for k, v in items}] *)
Definition dict_of_items (items : list (key * V)) : list (key * V) :=
  fold_left (fun d kv => dict_set kv.1 kv.2 d) items [].

(** [temp = {}; for i, (k, v) in enumerate(items): temp[i] = v] *)
Fixpoint reindex_from (i : nat) (items temp : list (key * V))
  : list (key * V) :=
  match items with
  | [] => temp
  | (_, v) :: items' => reindex_from (S i) items' (dict_set (KInt i) v temp)
  end.

Definition reindex (items : list (key * V)) : list (key * V) :=
  reindex_from 0 items [].

End odict.

(** ** [sorted(items, key=..., reverse=...)]

    Python's sort is stable, also with [reverse=True]: items with equal keys
    keep their order. *)
Section py_sorted.
Context {A : Type} (before : A → A → bool).

Fixpoint insert_by (x : A) (l : list A) : list A :=
  match l with
  | [] => [x]
  | y :: l' => if before x y then x :: y :: l' else y :: insert_by x l'
  end.

Fixpoint sort_by (l : list A) : list A :=
  match l with
  | [] => []
  | x :: l' => insert_by x (sort_by l')
  end.

End py_sorted.

(** The key of every item is computed first. *)
Fixpoint keys_of {A K} (key_fn : A → pyresult K) (l : list A)
  : pyresult (list (K * A)) :=
  match l with
  | [] => Ok []
  | x :: l' =>
      k ← key_fn x; r ← keys_of key_fn l'; Ok ((k, x) :: r)
  end.

(** The sort of items whose keys are numbers. *)
Definition sort_numbers {A} (key_fn : A → pyresult Q) (reverse : bool)
    (items : list A) : pyresult (list A) :=
  keyed ← keys_of key_fn items;
  let before (a b : Q * A) :=
    if reverse then Qle_bool b.1 a.1 else Qle_bool a.1 b.1 in
  Ok (map snd (sort_by before keyed)).

(** The keys as numbers, when every one of them is a finite number. *)
Fixpoint number_keys {A} (keyed : list (pyval * A))
  : option (list (Q * A)) :=
  match keyed with
  | [] => Some []
  | (VFloat (Fin q), x) :: r =>
      match number_keys r with
      | Some r' => Some ((q, x) :: r')
      | None => None
      end
  | _ => None
  end.

Definition is_text (v : pyval) : bool :=
  match v with VStr _ => true | VFloat _ => false end.

(** Fewer than two items are not compared at all.  From two items on the
    keys are compared with [<]: numbers are sorted, text and numbers
    together raise [TypeError].  The order of text keys, and that of the
    sentinel among numbers, is not modelled. *)
Definition py_sorted {A} (key_fn : A → pyresult pyval) (reverse : bool)
    (items : list A) : pyresult (list A) :=
  keyed ← keys_of key_fn items;
  match keyed with
  | [] | [_] => Ok items
  | _ =>
      match number_keys keyed with
      | Some nums =>
          let before (a b : Q * A) :=
            if reverse then Qle_bool b.1 a.1 else Qle_bool a.1 b.1 in
          Ok (map snd (sort_by before nums))
      | None =>
          if existsb (fun kx => is_text kx.1) keyed
             && existsb (fun kx => negb (is_text kx.1)) keyed
          then Raise TypeError
          else Raise Unmodelled
      end
  end.

(* ===================================================================== *)
(** * Section assembler and orchestrator (class [WellBoreExpanded]) *)
(* ===================================================================== *)

Module WellBoreExpanded.

Record t := {
  name : string;
  top : Q;
  bottom : Q;
  method : string;
  sections : list (key * section);
  complete : bool;
  max_md_depth : Q;
  max_tvd_depth : Q;
  tol : Q;
  frac_gradient : Q }.

Definition set_sections (secs : list (key * section)) (self : t) : t :=
  {| name := name self; top := top self; bottom := bottom self;
     method := method self; sections := secs; complete := complete self;
     max_md_depth := max_md_depth self; max_tvd_depth := max_tvd_depth self;
     tol := tol self; frac_gradient := frac_gradient self |}.

Definition set_complete (c : bool) (self : t) : t :=
  {| name := name self; top := top self; bottom := bottom self;
     method := method self; sections := sections self; complete := c;
     max_md_depth := max_md_depth self; max_tvd_depth := max_tvd_depth self;
     tol := tol self; frac_gradient := frac_gradient self |}.

(** Modelled from the spec: the parent constructor ([String.__init__] of the
    external depth-range abstraction) is not part of the sources.  Per the
    data model and lifecycle of the spec it records name, top, bottom and
    the build strategy, and leaves a well with no section staged and the
    completeness flag down. *)
Definition String_init (name : string) (top bottom : Q) (method : string)
    (max_md_depth max_tvd_depth tol frac_gradient : Q) : t :=
  {| name := name; top := top; bottom := bottom; method := method;
     sections := []; complete := false;
     max_md_depth := max_md_depth; max_tvd_depth := max_tvd_depth;
     tol := tol; frac_gradient := frac_gradient |}.

Definition _validate_initial_parameters (self : t) : pyresult unit :=
  if Qle_bool (max_md_depth self) 0
  then Raise (ValueError ["max_md_depth must be a positive number."])
  else if Qle_bool (max_tvd_depth self) 0
  then Raise (ValueError ["max_tvd_depth must be a positive number."])
  else if lt (tol self) 0
  then Raise (ValueError ["tol (top of liner) must be a non-negative number."])
  else Ok ().

(** [WellBoreExpanded(name, top, bottom, max_md_depth, max_tvd_depth, tol,
    frac_gradient, method=...)] *)
Definition new (name : string) (top bottom max_md_depth max_tvd_depth : Q)
    (tol frac_gradient : Q) (method : string) : pyresult t :=
  let self :=
    String_init name top bottom method max_md_depth max_tvd_depth tol
      frac_gradient in
  _ ← _validate_initial_parameters self;
  Ok self.

Definition required_params : list string :=
  ["id"; "tvd"; "od"; "bottom"; "casing_type"; "weight"; "grade";
   "connection"; "hole_size"; "washout";
   "int_gradient"; "mud_weight"; "backup_mud"; "cement_cu_ft";
   "body_yield"; "burst_strength";
   "wall_thickness"; "csg_internal_diameter"; "collapse_pressure";
   "tension_strength"].

(** The boundary the top-down strategy derives for the next section. *)
Definition next_top (self : t) : pyresult (nat * pyval) :=
  match sections self with
  | [] => Ok (0%nat, VNum (top self))
  | _ :: _ =>
      let temp := length (sections self) in
      prev ← subscript (sections self) (KInt (temp - 1));
      b ← getitem prev "bottom";
      Ok (temp, b)
  end.

Definition add_section_top_down_new (self : t) (kwargs : section)
  : pyresult t :=
  '(temp, top') ← next_top self;
  let new_section := update (<["top" := top']> ∅) kwargs in
  let secs := dict_set (KInt temp) new_section (sections self) in
  items ← py_sorted (fun item : key * section => getitem item.2 "top")
             false secs;
  let secs := dict_of_items items in
  let temp := reindex secs in
  last ← subscript temp (KInt (length temp - 1));
  b ← getitem last "bottom";
  let self := if py_eq_num b (bottom self) then set_complete true self
              else self in
  Ok (set_sections temp self).

(** [d.get('md_top', d['top'])] and [d.get('md_bottom', d['bottom'])]: the
    default is evaluated first, whether it is used or not. *)
Definition get_or (d : section) (k dflt : string) : pyresult pyval :=
  v ← getitem d dflt;
  Ok (default v (d !! k)).

(** The boundary the bottom-up strategy derives for the next section. *)
Definition next_bottom (self : t) : pyresult (nat * pyval) :=
  match sections self with
  | [] => Ok (0%nat, VNum (bottom self))
  | _ :: _ =>
      let temp := length (sections self) in
      first ← subscript (sections self) (KInt 0);
      b ← get_or first "md_top" "top";
      Ok (temp, b)
  end.

Definition derived_top (self : t) (bottom' : pyval) (kwargs : section)
  : pyresult pyval :=
  if contains kwargs "length" then
    b ← as_num bottom';
    len ← num kwargs "length";
    let top' := b - len in
    Ok (VNum (py_max top' (top self)))
  else if contains kwargs "top" then getitem kwargs "top"
  else Ok (VNum (top self)).

Definition add_section_bottom_up_new (self : t) (kwargs : section)
  : pyresult t :=
  '(temp, bottom') ← next_bottom self;
  top' ← derived_top self bottom' kwargs;
  let new_section :=
    update (<["top" := top']> (<["bottom" := bottom']> ∅)) kwargs in
  let secs := dict_set (KInt temp) new_section (sections self) in
  items ← py_sorted
    (fun item : key * section => get_or item.2 "md_bottom" "bottom")
    true secs;
  let secs := dict_of_items items in
  let temp := reindex secs in
  first ← subscript temp (KInt 0);
  t0 ← getitem first "top";
  let self := if py_eq_num t0 (top self) then set_complete true self
              else self in
  Ok (set_sections temp self).

Definition add_section_with_properties (self : t) (kwargs : section)
  : pyresult t :=
  let missing_params :=
    filter (fun param => negb (contains kwargs param)) required_params in
  match missing_params with
  | _ :: _ => Raise (ValueError missing_params)
  | [] =>
      if String.eqb (method self) "top_down"
      then add_section_top_down_new self kwargs
      else if String.eqb (method self) "bottom_up"
      then add_section_bottom_up_new self kwargs
      else Ok self
  end.

(** [self.sections[variables[i]] = self.sections.pop(i)] *)
Definition rekey {V} (secs : list (key * V)) (i : nat) (label : string)
  : pyresult (list (key * V)) :=
  match dict_pop (KInt i) secs with
  | Some (v, rest) => Ok (dict_set (KStr label) v rest)
  | None => Raise KeyError
  end.

(** The loop of [create_variables], from index [i] on. *)
Fixpoint rekey_from {V} (i : nat) (variables : list string)
    (secs : list (key * V)) : pyresult (list (key * V)) :=
  match variables with
  | [] => Ok secs
  | label :: rest => secs' ← rekey secs i label; rekey_from (S i) rest secs'
  end.

Definition create_variables_on {V} (variables : list string)
    (secs : list (key * V)) : pyresult (list (key * V)) :=
  rekey_from 0 variables secs.

Definition create_variables (self : t) (variables : list string)
  : pyresult t :=
  secs ← create_variables_on variables (sections self);
  Ok (set_sections secs self).

(** [self.sections[i].update(data)] *)
Definition update_section (secs : list (key * section)) (i : nat)
    (data : section) : pyresult (list (key * section)) :=
  sec ← subscript secs (KInt i);
  Ok (dict_set (KInt i) (update sec data) secs).

(** A casing-type label is text ([variables: List[str]]). *)
Definition as_label (v : pyval) : pyresult string :=
  match v with
  | VStr s => Ok s
  | VFloat _ => Raise TypeError
  end.

(** The first loop of [calcParametersContained]: the per-section pass. *)
Fixpoint calc_pass (up : CasingDataCalc.univ_params) (idx : list nat)
    (st : list (key * section) * list string)
  : pyresult (list (key * section) * list string) :=
  match idx with
  | [] => Ok st
  | i :: idx' =>
      sec ← subscript st.1 (KInt i);
      calc_output ← CasingDataCalc.new sec up;
      let calc_data := CasingDataCalc.get_results calc_output in
      secs ← update_section st.1 i calc_data;
      sec' ← subscript secs (KInt i);
      label ← (v ← getitem sec' "casing_type"; as_label v);
      calc_pass up idx' (secs, st.2 ++ [label])
  end.

(** The second loop: MAPS and burst between section [i] and section [i+1]. *)
Fixpoint pair_pass (idx : list nat) (secs : list (key * section))
  : pyresult (list (key * section)) :=
  match idx with
  | [] => Ok secs
  | i :: idx' =>
      s1 ← subscript secs (KInt i);
      s2 ← subscript secs (KInt (i + 1));
      maps ← calculate_maps s1 s2;
      burst_load ← calculate_burst_load s1 s2 maps;
      burst_df ← burst_design_factor s1 burst_load;
      let secs :=
        dict_set (KInt i) (store_burst s1 maps burst_load burst_df) secs in
      pair_pass idx' secs
  end.

Definition solo_pass (secs : list (key * section)) (counter : nat)
  : pyresult (list (key * section)) :=
  sec ← subscript secs (KInt counter);
  solo_data ← calculateSoloMapsBurstLoadDF sec;
  Ok (dict_set (KInt counter) (update solo_data solo_data) secs).

Definition calcParametersContained (self : t) : pyresult t :=
  let up :=
    {| CasingDataCalc.up_max_md_depth := max_md_depth self;
       CasingDataCalc.up_max_tvd_depth := max_tvd_depth self;
       CasingDataCalc.up_tol := tol self;
       CasingDataCalc.up_frac_gradient := frac_gradient self |} in
  let n := length (sections self) in
  '(secs, variables) ← calc_pass up (seq 0 n) (sections self, []);
  let secs_num := n in
  secs ←
    (if (1 <? secs_num)%nat
     then
       secs ← pair_pass (seq 0 (n - 1)) secs;
       let counter := (n - 2 + 1)%nat in
       solo_pass secs counter
     else solo_pass secs 0);
  create_variables (set_sections secs self) variables.

End WellBoreExpanded.

(* ===================================================================== *)
(** * The formulas of the specification

    These definitions follow the words of the specification, with the
    mathematical [max], [min] and absolute value; the theorems below compare
    them with the functions translated from the source. *)
(* ===================================================================== *)

Module Spec.

Definition computeMAPS (upper_tvd lower_mud_weight lower_tvd
    lower_int_gradient : Q) : Q :=
  lower_mud_weight * lower_tvd * 0.05194806
  - (lower_tvd - upper_tvd) * lower_int_gradient.

Definition differential_mud_pressure (mud_weight backup_mud tvd : Q) : Q :=
  0.05194806 * (mud_weight - backup_mud) * tvd.

Definition fracture_ceiling (frac_init_pressure backup_mud tvd : Q) : Q :=
  frac_init_pressure - 0.05194806 * backup_mud * tvd.

Definition maps_ceiling (maps backup_mud tvd : Q) : Q :=
  maps - 0.05194806 * backup_mud * tvd.

Definition computeBurstLoad (mud_weight backup_mud tvd frac_init_pressure
    maps : Q) : Q :=
  Qmax (differential_mud_pressure mud_weight backup_mud tvd)
       (Qmin (fracture_ceiling frac_init_pressure backup_mud tvd)
             (maps_ceiling maps backup_mud tvd)).

Definition solo_maps (mud_weight tvd : Q) : Q :=
  mud_weight * tvd * 0.05194806.

Definition steel_area (od id : Q) : Q := math_pi / 4 * (od ^ 2 - id ^ 2).

End Spec.

(** The inputs of the examples of the specification. *)
Definition example_upper : section := {["tvd" := VNum 5000]}.

Definition example_lower : section :=
  <["mud_weight" := VNum 15.0]>
    (<["tvd" := VNum 10000]> {["int_gradient" := VNum 0.1]}).

Definition example_solo : section :=
  <["mud_weight" := VNum 15.0]>
  (<["backup_mud" := VNum 8.6]>
  (<["tvd" := VNum 10000]>
  (<["frac_init_pressure" := VNum 8000]>
  (<["int_gradient" := VNum 0.1]>
  {["burst_strength" := VNum 10000]})))).

(** A section of negative burst load: the backup mud is heavier than the
    mud and the fracture pressure is low. *)
Definition example_underbalanced : section :=
  <["mud_weight" := VNum 9.0]>
  (<["backup_mud" := VNum 10.0]>
  (<["tvd" := VNum 5000]>
  (<["frac_init_pressure" := VNum 2000]>
  (<["int_gradient" := VNum 0.1]>
  {["burst_strength" := VNum 5000]})))).

(** A short liner set at the maximum measured depth of its well: the
    buoyancy term exceeds the weight term. *)
Definition example_liner : section :=
  <["id" := VStr "3"]>
  (<["casing_type" := VStr "liner"]>
  (<["top" := VNum 9000]>
  (<["bottom" := VNum 10000]>
  (<["tvd" := VNum 9000]>
  (<["od" := VNum 7.0]>
  (<["weight" := VNum 32]>
  (<["grade" := VStr "P-110"]>
  (<["connection" := VStr "LTC"]>
  (<["hole_size" := VNum 8.5]>
  (<["washout" := VNum 10]>
  (<["int_gradient" := VNum 0.1]>
  (<["mud_weight" := VNum 15.0]>
  (<["backup_mud" := VNum 8.6]>
  (<["cement_cu_ft" := VNum 100]>
  (<["body_yield" := VNum 1025]>
  (<["burst_strength" := VNum 12460]>
  (<["wall_thickness" := VNum 0.453]>
  (<["csg_internal_diameter" := VNum 6.094]>
  (<["collapse_pressure" := VNum 10780]>
  {["tension_strength" := VNum 897]}))))))))))))))))))).

Definition example_params : CasingDataCalc.univ_params :=
  {| CasingDataCalc.up_max_md_depth := 10000;
     CasingDataCalc.up_max_tvd_depth := 9800;
     CasingDataCalc.up_tol := 9950;
     CasingDataCalc.up_frac_gradient := 0.8 |}.

(** The calculator object of [example_liner] as [__init__] leaves it before
    [calculateData] runs. *)
Definition example_self : CasingDataCalc.t :=
  {| CasingDataCalc.inp :=
       {| CasingDataCalc.tvd := 9000;
          CasingDataCalc.washout := 10;
          CasingDataCalc.int_gradient := 0.1;
          CasingDataCalc.mud_weight := 15.0;
          CasingDataCalc.backup_mud := VNum 8.6;
          CasingDataCalc.cement_cu_ft := 100;
          CasingDataCalc.hole_size := 8.5;
          CasingDataCalc.set_depth := 10000;
          CasingDataCalc.casing_top := VNum 9000;
          CasingDataCalc.csg_weight := 32;
          CasingDataCalc.csg_size := 7.0;
          CasingDataCalc.csg_grade := VStr "P-110";
          CasingDataCalc.csg_collar := VStr "LTC";
          CasingDataCalc.body_yield := VNum 1025;
          CasingDataCalc.burst_strength := VNum 12460;
          CasingDataCalc.wall_thickness := VNum 0.453;
          CasingDataCalc.csg_internal_diameter := 6.094;
          CasingDataCalc.collapse_strength := 10780;
          CasingDataCalc.tension_strength := 897;
          CasingDataCalc.tol := 9950;
          CasingDataCalc.frac_gradient := 0.8;
          CasingDataCalc.max_md_depth := 10000;
          CasingDataCalc.max_tvd_depth := 9800 |};
     CasingDataCalc.drv := CasingDataCalc.fresh |}.

(** A casing whose washout-adjusted hole size (10 * 1.1) equals its outer
    diameter. *)
Definition example_tight : CasingDataCalc.t :=
  {| CasingDataCalc.inp :=
       {| CasingDataCalc.tvd := 5000;
          CasingDataCalc.washout := 10;
          CasingDataCalc.int_gradient := 0.1;
          CasingDataCalc.mud_weight := 10.0;
          CasingDataCalc.backup_mud := VNum 8.6;
          CasingDataCalc.cement_cu_ft := 100;
          CasingDataCalc.hole_size := 10;
          CasingDataCalc.set_depth := 5000;
          CasingDataCalc.casing_top := VNum 0;
          CasingDataCalc.csg_weight := 40;
          CasingDataCalc.csg_size := 11;
          CasingDataCalc.csg_grade := VStr "J-55";
          CasingDataCalc.csg_collar := VStr "STC";
          CasingDataCalc.body_yield := VNum 630;
          CasingDataCalc.burst_strength := VNum 3950;
          CasingDataCalc.wall_thickness := VNum 0.395;
          CasingDataCalc.csg_internal_diameter := 10.21;
          CasingDataCalc.collapse_strength := 2570;
          CasingDataCalc.tension_strength := 520;
          CasingDataCalc.tol := 0;
          CasingDataCalc.frac_gradient := 0.8;
          CasingDataCalc.max_md_depth := 10000;
          CasingDataCalc.max_tvd_depth := 9800 |};
     CasingDataCalc.drv := CasingDataCalc.fresh |}.

(* ===================================================================== *)
(** * Staged wells: the vocabulary of the assembly properties *)
(* ===================================================================== *)

(** The dictionary [{i: v0, i+1: v1, ...}], in insertion order. *)
Fixpoint indexed_from {V} (i : nat) (vs : list V) : list (key * V) :=
  match vs with
  | [] => []
  | v :: vs' => (KInt i, v) :: indexed_from (S i) vs'
  end.

(** A collection re-indexed 0..n-1. *)
Definition indexed {V} (vs : list V) : list (key * V) := indexed_from 0 vs.

(** [d.values()] *)
Definition values {V} (d : list (key * V)) : list V := map snd d.

(** [d.keys()] *)
Definition keys {V} (d : list (key * V)) : list key := map fst d.

Definition is_number (d : section) (k : string) : Prop :=
  ∃ q, d !! k = Some (VNum q).

Definition number_if_any (d : section) (k : string) : Prop :=
  d !! k = None ∨ is_number d k.

(** A sort key read as a number. *)
Definition number_key {A} (key_fn : A → pyresult pyval) (x : A)
  : pyresult Q :=
  v ← key_fn x; as_num v.

(** The two sort keys of the assembler. *)
Definition top_key (s : section) : pyresult Q := num s "top".

Definition depth_key (s : section) : pyresult Q :=
  v ← WellBoreExpanded.get_or s "md_bottom" "bottom"; as_num v.

(** [a] may stand before [b] in a collection sorted by [key_fn]: both hold
    a number as key, and the keys ascend, or descend under [reverse]. *)
Definition key_order {A} (key_fn : A → pyresult Q) (reverse : bool)
    (a b : A) : Prop :=
  ∃ x y, key_fn a = Ok x ∧ key_fn b = Ok y
         ∧ if reverse then (y <= x)%Q else (x <= y)%Q.

(** The test of the top-down strategy: the bottom of the last section
    equals the bottom of the well. *)
Definition bottom_reached (w : WellBoreExpanded.t) : bool :=
  match last (values (WellBoreExpanded.sections w)) with
  | Some s =>
      match s !! "bottom" with
      | Some v => py_eq_num v (WellBoreExpanded.bottom w)
      | None => false
      end
  | None => false
  end.

(** The test of the bottom-up strategy: the top of the section at position
    0 equals the top of the well. *)
Definition top_reached (w : WellBoreExpanded.t) : bool :=
  match head (values (WellBoreExpanded.sections w)) with
  | Some s =>
      match s !! "top" with
      | Some v => py_eq_num v (WellBoreExpanded.top w)
      | None => false
      end
  | None => false
  end.

(** A well the top-down strategy can extend: the sections are keyed
    0..n-1 and each holds a numeric top and bottom. *)
Definition staged_top_down (w : WellBoreExpanded.t) : Prop :=
  WellBoreExpanded.sections w = indexed (values (WellBoreExpanded.sections w))
  ∧ Forall (fun s => is_number s "top" ∧ is_number s "bottom")
      (values (WellBoreExpanded.sections w)).

(** A well the bottom-up strategy can extend. *)
Definition staged_bottom_up (w : WellBoreExpanded.t) : Prop :=
  WellBoreExpanded.sections w = indexed (values (WellBoreExpanded.sections w))
  ∧ Forall (fun s => is_number s "top" ∧ is_number s "bottom"
                     ∧ number_if_any s "md_top"
                     ∧ number_if_any s "md_bottom")
      (values (WellBoreExpanded.sections w)).

(** The depth keys the bottom-up strategy reads hold numbers when the raw
    fields carry them. *)
Definition plain_depths (kwargs : section) : Prop :=
  Forall (number_if_any kwargs)
    ["top"; "bottom"; "md_top"; "md_bottom"; "length"].

(** The top of a new section in the words of the specification:
    [bottom - length], not above the top of the well, when a length is
    supplied; else the supplied top; else the top of the well. *)
Definition expected_top (well_top boundary : Q) (kwargs : section) : Q :=
  match kwargs !! "length" with
  | Some (VFloat (Fin len)) => Qmax (boundary - len) well_top
  | _ =>
      match kwargs !! "top" with
      | Some (VFloat (Fin supplied)) => supplied
      | _ => well_top
      end
  end.

(** Raw fields with every required parameter. *)
Definition all_required (kwargs : section) : Prop :=
  Forall (fun p => is_Some (kwargs !! p)) WellBoreExpanded.required_params.

(** The raw fields a top-down insertion is stated for: every required
    parameter, a numeric bottom and, if they carry a top of their own, a
    numeric one. *)
Definition top_down_call (kwargs : section) : Prop :=
  all_required kwargs ∧ is_number kwargs "bottom"
  ∧ number_if_any kwargs "top".

(** The section the top-down strategy stores: the raw fields, with the
    derived top unless they carry one. *)
Definition stored_top_down (boundary : Q) (kwargs : section) : section :=
  update (<["top" := VNum boundary]> ∅) kwargs.

(** The raw fields a bottom-up insertion is stated for. *)
Definition bottom_up_call (kwargs : section) : Prop :=
  all_required kwargs ∧ plain_depths kwargs.

(** The raw fields of a section: every required parameter, with the given
    label, bottom depth and true vertical depth. *)
Definition raw_fields (label : string) (bottom tvd : Q) : section :=
  <["id" := VStr label]>
  (<["casing_type" := VStr label]>
  (<["bottom" := VNum bottom]>
  (<["tvd" := VNum tvd]>
  (<["od" := VNum 7.0]>
  (<["weight" := VNum 32]>
  (<["grade" := VStr "P-110"]>
  (<["connection" := VStr "LTC"]>
  (<["hole_size" := VNum 8.5]>
  (<["washout" := VNum 10]>
  (<["int_gradient" := VNum 0.1]>
  (<["mud_weight" := VNum 15.0]>
  (<["backup_mud" := VNum 8.6]>
  (<["cement_cu_ft" := VNum 100]>
  (<["body_yield" := VNum 1025]>
  (<["burst_strength" := VNum 12460]>
  (<["wall_thickness" := VNum 0.453]>
  (<["csg_internal_diameter" := VNum 6.094]>
  (<["collapse_pressure" := VNum 10780]>
  {["tension_strength" := VNum 897]})))))))))))))))))).

(** A top-down and a bottom-up well from 0 to 1000. *)
Definition example_well_top_down : WellBoreExpanded.t :=
  WellBoreExpanded.String_init "Wellbore (Planned)" 0 1000 "top_down"
    1000 950 0 0.8.

Definition example_well_bottom_up : WellBoreExpanded.t :=
  WellBoreExpanded.String_init "Wellbore (Planned)" 0 1000 "bottom_up"
    1000 950 0 0.8.

(** A run of [add_section_with_properties]. *)
Fixpoint add_sections (w : WellBoreExpanded.t) (calls : list section)
  : pyresult WellBoreExpanded.t :=
  match calls with
  | [] => Ok w
  | kwargs :: calls' =>
      w' ← WellBoreExpanded.add_section_with_properties w kwargs;
      add_sections w' calls'
  end.

(** A collection keyed by casing-type labels, as [create_variables] leaves
    it. *)
Definition labelled {V} (d : list (key * V)) : Prop :=
  d ≠ [] ∧ Forall (fun k => ∃ s, k = KStr s) (keys d).

(** A chain of sections from the depth [start]: each section begins where
    the one before it ends, and none ends above its top. *)
Fixpoint chained (start : Q) (secs : list section) : Prop :=
  match secs with
  | [] => True
  | s :: rest =>
      ∃ b, s !! "top" = Some (VNum start)
           ∧ s !! "bottom" = Some (VNum b)
           ∧ (start <= b)%Q
           ∧ chained b rest
  end.

(** The depth at which the sections staged from [start] end. *)
Fixpoint chain_end (start : Q) (secs : list section) : Q :=
  match secs with
  | [] => start
  | s :: rest =>
      match s !! "bottom" with
      | Some (VFloat (Fin b)) => chain_end b rest
      | _ => chain_end start rest
      end
  end.

(** The span of a section, bottom - top, and the sum of the spans. *)
Definition span (s : section) : Q :=
  match s !! "top", s !! "bottom" with
  | Some (VFloat (Fin t)), Some (VFloat (Fin b)) => (b - t)%Q
  | _, _ => 0%Q
  end.

Definition span_sum (secs : list section) : Q :=
  foldr (fun s acc => (span s + acc)%Q) 0%Q secs.

(** The casing of [example_self] with another outer diameter, in a hole of
    the given size and washout. *)
Definition example_casing (hole_size washout csg_size : Q)
  : CasingDataCalc.t :=
  {| CasingDataCalc.inp :=
       {| CasingDataCalc.tvd := 9000;
          CasingDataCalc.washout := washout;
          CasingDataCalc.int_gradient := 0.1;
          CasingDataCalc.mud_weight := 15.0;
          CasingDataCalc.backup_mud := VNum 8.6;
          CasingDataCalc.cement_cu_ft := 100;
          CasingDataCalc.hole_size := hole_size;
          CasingDataCalc.set_depth := 10000;
          CasingDataCalc.casing_top := VNum 9000;
          CasingDataCalc.csg_weight := 32;
          CasingDataCalc.csg_size := csg_size;
          CasingDataCalc.csg_grade := VStr "P-110";
          CasingDataCalc.csg_collar := VStr "LTC";
          CasingDataCalc.body_yield := VNum 1025;
          CasingDataCalc.burst_strength := VNum 12460;
          CasingDataCalc.wall_thickness := VNum 0.453;
          CasingDataCalc.csg_internal_diameter := 6.094;
          CasingDataCalc.collapse_strength := 10780;
          CasingDataCalc.tension_strength := 897;
          CasingDataCalc.tol := 9950;
          CasingDataCalc.frac_gradient := 0.8;
          CasingDataCalc.max_md_depth := 10000;
          CasingDataCalc.max_tvd_depth := 9800 |};
     CasingDataCalc.drv := CasingDataCalc.fresh |}.

(** [CasingDataCalc.calculate_burst_pressure], Barlow's formula
    [(2 * self.burst_strength * self.wall_thickness) / self.csg_size]; no
    other method calls it. *)
Definition calculate_burst_pressure (self : CasingDataCalc.t) : pyresult Q :=
  bs ← as_num (CasingDataCalc.burst_strength (CasingDataCalc.inp self));
  wt ← as_num (CasingDataCalc.wall_thickness (CasingDataCalc.inp self));
  py_div (2 * bs * wt)%Q (CasingDataCalc.csg_size (CasingDataCalc.inp self)).

(** The well-wide parameters [calcParametersContained] builds from the
    well. *)
Definition well_params (w : WellBoreExpanded.t) : CasingDataCalc.univ_params :=
  {| CasingDataCalc.up_max_md_depth := WellBoreExpanded.max_md_depth w;
     CasingDataCalc.up_max_tvd_depth := WellBoreExpanded.max_tvd_depth w;
     CasingDataCalc.up_tol := WellBoreExpanded.tol w;
     CasingDataCalc.up_frac_gradient := WellBoreExpanded.frac_gradient w |}.

(** The keys the calculation pass adds to a section: the derived results of
    the calculator and those of the burst analysis.  (The calculator also
    stores [cement_cu_ft], [burst_strength] and [tension_strength], which
    the staged section already holds.) *)
Definition calc_keys : list string :=
  ["cement_height"; "toc"; "masp"; "collapse_strength"; "collapse_load";
   "collapse_df"; "neutral_point"; "tension_df"; "tension_air";
   "tension_buoyed"; "frac_init_pressure"].

Definition burst_keys : list string := ["maps"; "burst_load"; "burst_df"].

Definition derived_keys : list string := calc_keys ++ burst_keys.

(** [b] is [a] but for what is stored under the keys [written]. *)
Definition extends (written : list string) (a b : section) : Prop :=
  ∀ k, k ∉ written → b !! k = a !! k.

(** A section that holds every derived result. *)
Definition has_results (s : section) : Prop :=
  Forall (fun k => is_Some (s !! k)) derived_keys.

(** The fields of a staged section the calculation pass computes with, and
    those the calculator reads and only carries. *)
Definition numeric_fields : list string :=
  ["tvd"; "washout"; "int_gradient"; "mud_weight"; "backup_mud";
   "cement_cu_ft"; "hole_size"; "bottom"; "weight"; "od";
   "csg_internal_diameter"; "collapse_pressure"; "tension_strength";
   "burst_strength"].

Definition carried_fields : list string :=
  ["top"; "grade"; "connection"; "body_yield"; "wall_thickness"].

(** A staged section the calculation pass can work on: numbers where it
    computes, the carried fields present, and, for a casing with a positive
    outer diameter, an annular volume per foot that is not computed as
    0. *)
Definition calculable (s : section) : Prop :=
  Forall (is_number s) numeric_fields
  ∧ Forall (fun k => is_Some (s !! k)) carried_fields
  ∧ (∀ od hole_size washout : Q,
       s !! "od" = Some (VNum od) →
       s !! "hole_size" = Some (VNum hole_size) →
       s !! "washout" = Some (VNum washout) →
       ¬ (0 < od
          ∧ CasingDataCalc.annular_volume_per_foot hole_size washout od
            == 0)%Q).

(** Raw fields the whole top-down run is stated for: a top-down call with a
    text label that is calculable once the strategy has stored it. *)
Definition calculable_call (kwargs : section) : Prop :=
  top_down_call kwargs
  ∧ (∃ l, kwargs !! "casing_type" = Some (VStr l))
  ∧ ∀ t : Q, calculable (stored_top_down t kwargs).

(** The fields the burst analysis reads, and a section that holds a number
    under each. *)
Definition burst_inputs : list string :=
  ["mud_weight"; "tvd"; "backup_mud"; "frac_init_pressure"; "int_gradient";
   "burst_strength"].

Definition burst_ready (s : section) : Prop :=
  Forall (is_number s) burst_inputs.

(** Section [s1] holds the burst analysis against the section [s2] below
    it. *)
Definition pair_analysed (s1 s2 : section) : Prop :=
  ∃ (maps burst_load : Q) (burst_df : pyfloat),
    calculate_maps s1 s2 = Ok maps
    ∧ calculate_burst_load s1 s2 maps = Ok burst_load
    ∧ burst_design_factor s1 burst_load = Ok burst_df
    ∧ s1 !! "maps" = Some (VNum maps)
    ∧ s1 !! "burst_load" = Some (VNum burst_load)
    ∧ s1 !! "burst_df" = Some (VFloat burst_df).

(** Section [s] holds its own solo analysis. *)
Definition solo_analysed (s : section) : Prop :=
  calculateSoloMapsBurstLoadDF s = Ok s.

(** The mud weight of the section differs from its backup mud weight. *)
Definition unequal_mud (s : section) : Prop :=
  ∀ mw bm : Q,
    s !! "mud_weight" = Some (VNum mw) →
    s !! "backup_mud" = Some (VNum bm) →
    ¬ (mw == bm)%Q.

(** A well with two staged sections, a surface string down to 500 and a
    production string down to 1000. *)
Definition example_staged : list section :=
  [<["top" := VNum 0]> (raw_fields "surface" 500 500);
   <["top" := VNum 500]> (raw_fields "production" 1000 950)].

Definition example_well_staged : WellBoreExpanded.t :=
  WellBoreExpanded.set_sections (indexed example_staged)
    example_well_top_down.

(** A top-down well with the surface string staged, from 0 to 500. *)
Definition example_well_surface : WellBoreExpanded.t :=
  WellBoreExpanded.set_sections
    (indexed [<["top" := VNum 0]> (raw_fields "surface" 500 500)])
    example_well_top_down.

(** A bottom-up well with the production string staged, from 700 to
    1000. *)
Definition example_well_production : WellBoreExpanded.t :=
  WellBoreExpanded.set_sections
    (indexed [<["top" := VNum 700]> (raw_fields "production" 1000 950)])
    example_well_bottom_up.
(* ===================================================================== *)
(** * Properties *)
(* ===================================================================== *)

(** ** Reading numbers and comparing them *)

Lemma num_lookup (d : section) (k : string) (q : Q) :
  d !! k = Some (VNum q) → num d k = Ok q.
Proof. intros H. unfold num, getitem. rewrite H. reflexivity. Qed.

Lemma gt_true (a b : Q) : gt a b = true ↔ b < a.
Proof.
  unfold gt. rewrite negb_true_iff, <- not_true_iff_false, Qle_bool_iff.
  split; [apply Qnot_le_lt | apply Qlt_not_le].
Qed.

Lemma gt_false (a b : Q) : gt a b = false ↔ a <= b.
Proof. unfold gt. rewrite negb_false_iff. apply Qle_bool_iff. Qed.

Lemma lt_true (a b : Q) : lt a b = true ↔ a < b.
Proof. apply (gt_true b a). Qed.

Lemma lt_false (a b : Q) : lt a b = false ↔ b <= a.
Proof. apply (gt_false b a). Qed.

Lemma nef_true (a b : Q) : nef a b = true ↔ ¬ a == b.
Proof.
  unfold nef. rewrite negb_true_iff, <- not_true_iff_false, Qeq_bool_iff.
  reflexivity.
Qed.

Lemma nef_false (a b : Q) : nef a b = false ↔ a == b.
Proof. unfold nef. rewrite negb_false_iff. apply Qeq_bool_iff. Qed.

Lemma py_max_Qmax (a b : Q) : py_max a b == Qmax a b.
Proof.
  unfold py_max. destruct (gt b a) eqn:E.
  - apply gt_true in E. symmetry. apply Q.max_r, Qlt_le_weak, E.
  - apply gt_false in E. symmetry. apply Q.max_l, E.
Qed.

Lemma py_min_Qmin (a b : Q) : py_min a b == Qmin a b.
Proof.
  unfold py_min. destruct (lt b a) eqn:E.
  - apply lt_true in E. symmetry. apply Q.min_r, Qlt_le_weak, E.
  - apply lt_false in E. symmetry. apply Q.min_l, E.
Qed.

Lemma py_div_nonzero (a b : Q) : ¬ b == 0 → py_div a b = Ok (a / b).
Proof.
  intros H. unfold py_div. destruct (Qeq_bool b 0) eqn:E; [|reflexivity].
  apply Qeq_bool_iff in E. contradiction.
Qed.

Lemma py_div_zero (a b : Q) : b == 0 → py_div a b = Raise ZeroDivisionError.
Proof.
  intros H. unfold py_div. apply Qeq_bool_iff in H. rewrite H. reflexivity.
Qed.

(** ** Inter-section burst analysis *)

Lemma calculate_maps_value (sec1 sec2 : section) (tvd1 mw2 tvd2 ig2 : Q) :
  sec1 !! "tvd" = Some (VNum tvd1) →
  sec2 !! "mud_weight" = Some (VNum mw2) →
  sec2 !! "tvd" = Some (VNum tvd2) →
  sec2 !! "int_gradient" = Some (VNum ig2) →
  calculate_maps sec1 sec2
  = Ok (mw2 * tvd2 * 0.05194806 - (tvd2 - tvd1) * ig2).
Proof.
  intros H1 H2 H3 H4. unfold calculate_maps.
  rewrite (num_lookup _ _ _ H1), (num_lookup _ _ _ H2),
    (num_lookup _ _ _ H3), (num_lookup _ _ _ H4).
  reflexivity.
Qed.

(** C5. For every upper and lower section holding the numbers it reads,
    [calculate_maps] returns
    [lower.mud_weight * lower.tvd * 0.05194806
     - (lower.tvd - upper.tvd) * lower.int_gradient]; on the example of the
    specification (upper tvd 5000; lower mud weight 15.0, tvd 10000, internal
    gradient 0.1) the result is within 0.1 of 7292.2. *)
Theorem calculate_maps_formula :
  (∀ (upper lower : section) (upper_tvd mw tvd ig : Q),
      upper !! "tvd" = Some (VNum upper_tvd) →
      lower !! "mud_weight" = Some (VNum mw) →
      lower !! "tvd" = Some (VNum tvd) →
      lower !! "int_gradient" = Some (VNum ig) →
      ∃ maps, calculate_maps upper lower = Ok maps
              ∧ maps == Spec.computeMAPS upper_tvd mw tvd ig)
  ∧ (∃ maps, calculate_maps example_upper example_lower = Ok maps
             ∧ Qabs (maps - 7292.2) <= 0.1).
Proof.
  split.
  - intros upper lower upper_tvd mw tvd ig H1 H2 H3 H4.
    eexists. split; [by apply calculate_maps_value|].
    unfold Spec.computeMAPS. reflexivity.
  - eexists. split; [vm_compute; reflexivity|]. vm_compute. discriminate.
Qed.

Lemma calculate_maps_formula_witness :
  ∃ maps, calculate_maps example_upper example_lower = Ok maps
          ∧ maps == Spec.computeMAPS 5000 15.0 10000 0.1.
Proof.
  apply (proj1 calculate_maps_formula example_upper example_lower
           5000 15.0 10000 0.1); reflexivity.
Defined.

Lemma zero_span (x g : Q) : (x - x) * g == 0.
Proof. ring. Qed.

Lemma burst_pattern (mw bm tvd fip maps ig ig' : Q) :
  py_max (0.05194806 * (mw - bm) * tvd)
    (py_min (fip - (tvd - tvd) * ig - 0.05194806 * bm * tvd)
            (maps - ig' * (tvd - tvd) - 0.05194806 * bm * tvd))
  == Spec.computeBurstLoad mw bm tvd fip maps.
Proof.
  rewrite py_max_Qmax, py_min_Qmin. unfold Spec.computeBurstLoad.
  apply Q.max_compat; [reflexivity|].
  apply Q.min_compat.
  - unfold Spec.fracture_ceiling. ring.
  - unfold Spec.maps_ceiling. ring.
Qed.

Lemma calculate_burst_load_value (sec1 sec2 : section)
    (maps mw bm tvd fip ig1 ig2 : Q) :
  sec1 !! "mud_weight" = Some (VNum mw) →
  sec1 !! "backup_mud" = Some (VNum bm) →
  sec1 !! "tvd" = Some (VNum tvd) →
  sec1 !! "frac_init_pressure" = Some (VNum fip) →
  sec1 !! "int_gradient" = Some (VNum ig1) →
  sec2 !! "int_gradient" = Some (VNum ig2) →
  calculate_burst_load sec1 sec2 maps
  = Ok (py_max (0.05194806 * (mw - bm) * tvd)
          (py_min (fip - (tvd - tvd) * ig2 - 0.05194806 * bm * tvd)
                  (maps - ig1 * (tvd - tvd) - 0.05194806 * bm * tvd))).
Proof.
  intros H1 H2 H3 H4 H5 H6. unfold calculate_burst_load.
  rewrite (num_lookup _ _ _ H1), (num_lookup _ _ _ H2),
    (num_lookup _ _ _ H3), (num_lookup _ _ _ H4), (num_lookup _ _ _ H5),
    (num_lookup _ _ _ H6).
  reflexivity.
Qed.

(** C6. For every pair of adjacent sections holding the numbers it reads
    and every maps value, [calculate_burst_load] returns
    max(differential_mud_pressure, min(fracture_ceiling, maps_ceiling)) with
    the three terms of the specification: the two depth-differential terms
    of the source multiply [tvd - tvd] and contribute nothing. *)
Theorem calculate_burst_load_formula (upper lower : section)
    (maps mw bm tvd fip ig_upper ig_lower : Q) :
  upper !! "mud_weight" = Some (VNum mw) →
  upper !! "backup_mud" = Some (VNum bm) →
  upper !! "tvd" = Some (VNum tvd) →
  upper !! "frac_init_pressure" = Some (VNum fip) →
  upper !! "int_gradient" = Some (VNum ig_upper) →
  lower !! "int_gradient" = Some (VNum ig_lower) →
  ∃ burst_load,
    calculate_burst_load upper lower maps = Ok burst_load
    ∧ burst_load
      == Qmax (Spec.differential_mud_pressure mw bm tvd)
              (Qmin (Spec.fracture_ceiling fip bm tvd)
                    (Spec.maps_ceiling maps bm tvd)).
Proof.
  intros H1 H2 H3 H4 H5 H6. eexists. split.
  - by apply calculate_burst_load_value.
  - apply burst_pattern.
Qed.

Lemma calculate_burst_load_formula_witness :
  ∃ burst_load,
    calculate_burst_load example_solo example_lower 7500 = Ok burst_load
    ∧ burst_load
      == Qmax (Spec.differential_mud_pressure 15.0 8.6 10000)
              (Qmin (Spec.fracture_ceiling 8000 8.6 10000)
                    (Spec.maps_ceiling 7500 8.6 10000)).
Proof.
  apply (calculate_burst_load_formula example_solo example_lower
           7500 15.0 8.6 10000 8000 0.1 0.1); reflexivity.
Defined.

Lemma burst_design_factor_value (sec : section) (bs load : Q) :
  sec !! "burst_strength" = Some (VNum bs) →
  burst_design_factor sec load
  = Ok (if gt load 0 then Fin (bs / load) else PosInf).
Proof.
  intros H. unfold burst_design_factor. destruct (gt load 0) eqn:E.
  - unfold getitem. rewrite H. cbn. rewrite py_div_nonzero; [reflexivity|].
    apply gt_true in E. intros Hz. rewrite Hz in E.
    exact (Qlt_irrefl _ E).
  - reflexivity.
Qed.

Lemma solo_compute_value (sec : section) (mw bm tvd fip ig bs : Q) :
  sec !! "mud_weight" = Some (VNum mw) →
  sec !! "backup_mud" = Some (VNum bm) →
  sec !! "tvd" = Some (VNum tvd) →
  sec !! "frac_init_pressure" = Some (VNum fip) →
  sec !! "int_gradient" = Some (VNum ig) →
  sec !! "burst_strength" = Some (VNum bs) →
  let maps := mw * tvd * 0.05194806 in
  let burst_load :=
    py_max (0.05194806 * (mw - bm) * tvd)
      (py_min (fip - 0.05194806 * bm * tvd)
              (maps - ig * (tvd - tvd) - 0.05194806 * bm * tvd)) in
  solo_compute sec
  = Ok {| solo_maps := maps; solo_burst_load := burst_load;
          solo_burst_df :=
            if gt burst_load 0 then Fin (bs / burst_load) else PosInf |}.
Proof.
  intros H1 H2 H3 H4 H5 H6. unfold solo_compute.
  rewrite (num_lookup _ _ _ H1), (num_lookup _ _ _ H2),
    (num_lookup _ _ _ H3), (num_lookup _ _ _ H4), (num_lookup _ _ _ H5).
  cbn. rewrite (burst_design_factor_value _ _ _ H6). reflexivity.
Qed.

Lemma store_burst_lookup_other (sec : section) (maps load : Q)
    (df : pyfloat) (k : string) :
  k ≠ "maps" → k ≠ "burst_load" → k ≠ "burst_df" →
  store_burst sec maps load df !! k = sec !! k.
Proof.
  intros H1 H2 H3. unfold store_burst, update.
  apply lookup_union_r.
  by rewrite !lookup_insert_ne, lookup_empty.
Qed.

Lemma store_burst_lookup (sec : section) (maps load : Q) (df : pyfloat) :
  store_burst sec maps load df !! "maps" = Some (VNum maps)
  ∧ store_burst sec maps load df !! "burst_load" = Some (VNum load)
  ∧ store_burst sec maps load df !! "burst_df" = Some (VFloat df).
Proof.
  unfold store_burst, update. repeat split; apply lookup_union_Some_l.
  - by rewrite lookup_insert_eq.
  - rewrite lookup_insert_ne by done. by rewrite lookup_insert_eq.
  - rewrite !lookup_insert_ne by done. by rewrite lookup_insert_eq.
Qed.



(** ** Binary64 rounding *)

Lemma b64_Qeq (p q : Q) : p == q → b64 p = b64 q.
Proof. intros H. unfold b64. by rewrite (Qred_complete _ _ H). Qed.

#[local] Instance b64_proper : Proper (Qeq ==> Qeq) b64.
Proof. intros p q H. by rewrite (b64_Qeq p q H). Qed.

#[local] Instance b64_add_proper : Proper (Qeq ==> Qeq ==> Qeq) b64_add.
Proof. intros p q H p' q' H'. unfold b64_add. by rewrite H, H'. Qed.

#[local] Instance b64_sub_proper : Proper (Qeq ==> Qeq ==> Qeq) b64_sub.
Proof. intros p q H p' q' H'. unfold b64_sub. by rewrite H, H'. Qed.

#[local] Instance b64_mul_proper : Proper (Qeq ==> Qeq ==> Qeq) b64_mul.
Proof. intros p q H p' q' H'. unfold b64_mul. by rewrite H, H'. Qed.

#[local] Instance b64_sq_proper : Proper (Qeq ==> Qeq) b64_sq.
Proof. intros p q H. unfold b64_sq. by rewrite H. Qed.

#[local] Instance b64_div_proper : Proper (Qeq ==> Qeq ==> Qeq) b64_div.
Proof. intros p q H p' q' H'. unfold b64_div. by rewrite H, H'. Qed.

Lemma round_half_even_ge (n d : Z) : (n / d ≤ round_half_even n d)%Z.
Proof.
  unfold round_half_even.
  destruct (2 * (n mod d) ?= d)%Z; [destruct (Z.even _)| |]; lia.
Qed.

Lemma two_power_pos (e : Z) : 0 < two_power e.
Proof.
  unfold two_power. destruct (0 <=? e)%Z eqn:E.
  - apply Z.leb_le in E.
    assert (Hp : (0 < 2 ^ e)%Z) by (by apply Z.pow_pos_nonneg).
    unfold Qlt. cbn. lia.
  - apply Z.leb_gt in E.
    assert (Hp : (0 < 2 ^ (- e))%Z) by (apply Z.pow_pos_nonneg; lia).
    apply Qlt_shift_div_l.
    + unfold Qlt. cbn. lia.
    + rewrite Qmult_0_l. unfold Qlt. cbn. lia.
Qed.

(** Below the exponent of the quotient the scaled quotient is at least
    1. *)
Lemma scaled_ge_1 (n d e : Z) :
  (0 < n)%Z → (0 < d)%Z → (e ≤ Z.log2 n - Z.log2 d - 1)%Z →
  (0 < snd (scaled n d e))%Z ∧ (snd (scaled n d e) ≤ fst (scaled n d e))%Z.
Proof.
  intros Hn Hd He.
  destruct (Z.log2_spec n Hn) as [Hn1 _].
  destruct (Z.log2_spec d Hd) as [_ Hd2].
  pose proof (Z.log2_nonneg n) as Hln.
  pose proof (Z.log2_nonneg d) as Hld.
  unfold scaled. destruct (0 <=? e)%Z eqn:E; cbn [fst snd].
  - apply Z.leb_le in E.
    assert (Hp : (0 < 2 ^ e)%Z) by (by apply Z.pow_pos_nonneg).
    split; [lia|].
    apply Z.le_trans with (2 ^ Z.log2 n)%Z; [|exact Hn1].
    apply Z.le_trans with (2 ^ Z.succ (Z.log2 d) * 2 ^ e)%Z.
    + apply Z.mul_le_mono_nonneg_r; lia.
    + rewrite <- Z.pow_add_r by lia. apply Z.pow_le_mono_r; lia.
  - apply Z.leb_gt in E. split; [exact Hd|].
    apply Z.le_trans with (2 ^ Z.succ (Z.log2 d))%Z; [lia|].
    apply Z.le_trans with (2 ^ Z.log2 n * 2 ^ (- e))%Z.
    + rewrite <- Z.pow_add_r by lia. apply Z.pow_le_mono_r; lia.
    + apply Z.mul_le_mono_nonneg_r; [|exact Hn1].
      apply Z.pow_nonneg. lia.
Qed.

Lemma b64_pos_positive (n d : Z) :
  (0 < n)%Z → (0 < d)%Z → 0 < b64_pos n d.
Proof.
  intros Hn Hd. unfold b64_pos.
  set (e0 := (Z.log2 n - Z.log2 d - 53)%Z).
  set (e := if (_ <? _)%Z then e0 else (e0 + 1)%Z).
  assert (He : (e ≤ Z.log2 n - Z.log2 d - 1)%Z)
    by (unfold e, e0; destruct (_ <? _)%Z; lia).
  destruct (scaled_ge_1 n d e Hn Hd He) as [H1 H2].
  apply Qmult_lt_0_compat; [|apply two_power_pos].
  pose proof (round_half_even_ge (fst (scaled n d e)) (snd (scaled n d e)))
    as Hr.
  assert (Hq : (1 ≤ fst (scaled n d e) / snd (scaled n d e))%Z)
    by (apply Z.div_le_lower_bound; lia).
  unfold Qlt. cbn. lia.
Qed.


Lemma py_div64_zero (a b : Q) :
  b == 0 → py_div64 a b = Raise ZeroDivisionError.
Proof.
  intros H. unfold py_div64. apply Qeq_bool_iff in H. by rewrite H.
Qed.

(** Rounding keeps the sign, and only 0 is rounded to 0. *)
Lemma b64_sign (q : Q) :
  (0 < q → 0 < b64 q) ∧ (q < 0 → b64 q < 0) ∧ (b64 q == 0 ↔ q == 0).
Proof.
  pose proof (Qred_correct q) as Hq. unfold b64.
  destruct (Qred q) as [n d] eqn:E. cbn [Qnum Qden].
  destruct n as [|n|n].
  - assert (H0 : q == 0) by (rewrite <- Hq; reflexivity).
    split; [|split].
    + intros H. rewrite H0 in H. by apply Qlt_irrefl in H.
    + intros H. rewrite H0 in H. by apply Qlt_irrefl in H.
    + done.
  - assert (Hp : 0 < b64_pos (Z.pos n) (Z.pos d))
      by (by apply b64_pos_positive).
    assert (H0 : 0 < q) by (rewrite <- Hq; reflexivity).
    split; [done|]. split.
    + intros H. exfalso. apply (Qlt_irrefl 0). by eapply Qlt_trans.
    + split; intros H.
      * rewrite H in Hp. by apply Qlt_irrefl in Hp.
      * rewrite H in H0. by apply Qlt_irrefl in H0.
  - assert (Hp : 0 < b64_pos (Z.pos n) (Z.pos d))
      by (by apply b64_pos_positive).
    assert (Hn : - b64_pos (Z.pos n) (Z.pos d) < 0)
      by (apply (Qopp_lt_compat 0) in Hp; exact Hp).
    assert (H0 : q < 0) by (rewrite <- Hq; reflexivity).
    split; [|split].
    + intros H. exfalso. apply (Qlt_irrefl 0). by eapply Qlt_trans.
    + done.
    + split; intros H.
      * rewrite H in Hn. by apply Qlt_irrefl in Hn.
      * rewrite H in H0. by apply Qlt_irrefl in H0.
Qed.

Lemma b64_zero_iff (q : Q) : b64 q == 0 ↔ q == 0.
Proof. apply b64_sign. Qed.



(** The model rounds as the binary64 arithmetic of the kernel does: the
    constant 183.35, the washout-adjusted hole size of a 50 in hole with 10
    percent washout, and the cement height [(1 / ((eff ** 2 - od ** 2) /
    183.35)) * cement] of a 7 in casing in an 8.5 in hole. *)
Lemma b64_agrees_with_binary64 :
  binary64_value 183.35%float = Some (b64 183.35)
  ∧ binary64_value (50 * (1 + 10 / 100))%float
    = Some (b64_mul 50 (b64_add 1 (b64_div 10 100)))
  ∧ (∃ h, CasingDataCalc.calculate_cement_height example_self = Ok h
          ∧ binary64_value
              (1 / ((8.5 * (1 + 10 / 100) * (8.5 * (1 + 10 / 100)) - 7 * 7)
                    / 183.35) * 100)%float = Some h).
Proof.
  split; [vm_compute; reflexivity|]. split; [vm_compute; reflexivity|].
  eexists. split; vm_compute; reflexivity.
Qed.

(** ** Per-section mechanical calculator *)

Section calculator.
Import CasingDataCalc.

Lemma calculate_collapse_df_value (self : t) (load : Q) :
  collapse_load (drv self) = Some load →
  calculate_collapse_df self
  = Ok (if nef load 0 then Fin (collapse_strength (inp self) / load)
        else PosInf).
Proof.
  intros H. unfold calculate_collapse_df. rewrite H.
  destruct (nef load 0) eqn:E; [|reflexivity].
  apply nef_true in E. rewrite (py_div_nonzero _ _ E). reflexivity.
Qed.

Lemma calculate_tension_df_value (self : t) (load : Q) :
  tension_buoyed (drv self) = Some load →
  calculate_tension_df self
  = Ok (if eqf load 0 then PosInf
        else Fin (tension_strength (inp self) / load)).
Proof.
  intros H. unfold calculate_tension_df. rewrite H.
  destruct (eqf load 0) eqn:E; [reflexivity|].
  apply Qeq_bool_neq in E. rewrite (py_div_nonzero _ _ E). reflexivity.
Qed.

(** The methods of the calculator read the input attributes only, apart
    from the two design factors, which read the load stored before. *)
Lemma calculate_cement_height_inp (s s' : t) :
  inp s = inp s' → calculate_cement_height s = calculate_cement_height s'.
Proof.
  intros H. unfold calculate_cement_height, cement_height_branch.
  rewrite H. reflexivity.
Qed.

Lemma calculate_toc_inp (s s' : t) :
  inp s = inp s' → calculate_toc s = calculate_toc s'.
Proof.
  intros H. unfold calculate_toc.
  rewrite (calculate_cement_height_inp s s' H), H. reflexivity.
Qed.

Lemma results_dict_lookup (self : t) (h tc m cl : Q) (cdf : pyfloat)
    (np : Q) (tdf : pyfloat) (ta tb fip : Q) :
  let r := results_dict self h tc m cl cdf np tdf ta tb fip in
  r !! "tension_air" = Some (VNum ta)
  ∧ r !! "tension_buoyed" = Some (VNum tb)
  ∧ r !! "collapse_load" = Some (VNum cl)
  ∧ r !! "collapse_df" = Some (VFloat cdf)
  ∧ r !! "tension_df" = Some (VFloat tdf).
Proof.
  unfold results_dict. cbn zeta.
  repeat split; by simplify_map_eq.
Qed.

Lemma calculateData_inv (self self' : t) :
  calculateData self = Ok self' →
  inp self' = inp self
  ∧ collapse_load (drv self') = Some (calculate_collapse_load self)
  ∧ collapse_df (drv self')
    = Some (if nef (calculate_collapse_load self) 0
            then Fin (collapse_strength (inp self)
                      / calculate_collapse_load self)
            else PosInf)
  ∧ tension_air (drv self') = Some (calculate_tension_air self)
  ∧ tension_buoyed (drv self') = Some (calculate_tension_buoyed self)
  ∧ tension_df (drv self')
    = Some (if eqf (calculate_tension_buoyed self) 0 then PosInf
            else Fin (tension_strength (inp self)
                      / calculate_tension_buoyed self))
  ∧ results (drv self') !! "tension_air"
    = Some (VNum (calculate_tension_air self))
  ∧ results (drv self') !! "tension_buoyed"
    = Some (VNum (calculate_tension_buoyed self))
  ∧ results (drv self') !! "collapse_load"
    = Some (VNum (calculate_collapse_load self))
  ∧ results (drv self') !! "collapse_df" = VFloat <$> collapse_df (drv self')
  ∧ results (drv self') !! "tension_df" = VFloat <$> tension_df (drv self').
Proof.
  unfold calculateData.
  set (s1 := set_annular_volume _ (set_frac_init_pressure _ self)).
  rewrite (calculate_cement_height_inp s1 self eq_refl).
  destruct (calculate_cement_height self) as [h|e]; [|discriminate].
  cbn [mbind pyresult_bind].
  set (s2 := set_cmt_height h s1).
  rewrite (calculate_toc_inp s2 self eq_refl).
  destruct (calculate_toc self) as [tc|e]; [|discriminate].
  cbn [mbind pyresult_bind].
  set (s3 := set_masp _ (set_toc tc s2)).
  change (calculate_collapse_load s3) with (calculate_collapse_load self).
  set (cl := calculate_collapse_load self).
  set (s4 := set_collapse_load cl s3).
  rewrite (calculate_collapse_df_value s4 cl eq_refl).
  cbn [mbind pyresult_bind].
  change (collapse_strength (inp s4)) with (collapse_strength (inp self)).
  set (cdf := if nef cl 0 then _ else _).
  set (s5 := set_collapse_df cdf s4).
  change (calculate_neutral_point s5) with (calculate_neutral_point self).
  set (s6 := set_neutral_point _ s5).
  change (calculate_tension_air s6) with (calculate_tension_air self).
  set (ta := calculate_tension_air self).
  set (s7 := set_tension_air ta s6).
  change (calculate_tension_buoyed s7) with (calculate_tension_buoyed self).
  set (tb := calculate_tension_buoyed self).
  set (s8 := set_tension_buoyed tb s7).
  rewrite (calculate_tension_df_value s8 tb eq_refl).
  cbn [mbind pyresult_bind].
  change (tension_strength (inp s8)) with (tension_strength (inp self)).
  set (tdf := if eqf tb 0 then _ else _).
  set (s9 := set_tension_df tdf s8).
  intros [= <-].
  pose proof (results_dict_lookup s9 h tc (calculate_masp (set_toc tc s2)) cl
                cdf (calculate_neutral_point self) tdf ta tb
                (frac_gradient (inp self) * tvd (inp self))) as Hr.
  cbn zeta in Hr. destruct Hr as (Hr1 & Hr2 & Hr3 & Hr4 & Hr5).
  split; [reflexivity|]. split; [reflexivity|]. split; [reflexivity|].
  split; [reflexivity|]. split; [reflexivity|]. split; [reflexivity|].
  split; [exact Hr1|]. split; [exact Hr2|]. split; [exact Hr3|].
  split; [exact Hr4 | exact Hr5].
Qed.

Lemma calculateData_raise (self : t) (e : exn) :
  calculateData self = Raise e → calculate_cement_height self = Raise e.
Proof.
  unfold calculateData.
  set (s1 := set_annular_volume _ (set_frac_init_pressure _ self)).
  rewrite (calculate_cement_height_inp s1 self eq_refl).
  destruct (calculate_cement_height self) as [h|e'] eqn:Eh;
    [|cbn [mbind pyresult_bind]; congruence].
  cbn [mbind pyresult_bind].
  set (s2 := set_cmt_height h s1).
  rewrite (calculate_toc_inp s2 self eq_refl).
  assert (Htc : ∃ tc, calculate_toc self = Ok tc).
  { unfold calculate_toc. rewrite Eh. cbn [mbind pyresult_bind].
    destruct (lt _ 0); eexists; reflexivity. }
  destruct Htc as [tc ->]. cbn [mbind pyresult_bind].
  set (s3 := set_masp _ (set_toc tc s2)).
  set (s4 := set_collapse_load _ s3).
  rewrite (calculate_collapse_df_value s4 _ eq_refl).
  cbn [mbind pyresult_bind].
  set (s8 := set_tension_buoyed _ _).
  rewrite (calculate_tension_df_value s8 _ eq_refl).
  cbn [mbind pyresult_bind]. discriminate.
Qed.

End calculator.

Section calculator_claims.
Import CasingDataCalc.

(** C8. For every section, tension_air is csg_weight * set_depth / 1000,
    with abs(set_depth - tol) in place of set_depth when set_depth equals
    max_md_depth; tension_buoyed is (weight_term - buoyancy_term *
    steel_area) / 1000 with steel_area = pi/4 * (od^2 - id^2), buoyancy_term
    = 0.05194806 * mud_weight * tvd, or 0.05194806 * mud_weight * abs(tvd -
    max_tvd_depth) when set_depth equals max_md_depth, and the weight term
    of tension_air; these are the values a calculation stores. *)
Theorem tension_formulas (self : t) :
  let a := inp self in
  let steel_area := Spec.steel_area (csg_size a) (csg_internal_diameter a) in
  (set_depth a == max_md_depth a →
     calculate_tension_air self
     == csg_weight a * Qabs (set_depth a - tol a) / 1000
     ∧ calculate_tension_buoyed self
       == (csg_weight a * Qabs (set_depth a - tol a)
           - 0.05194806 * mud_weight a * Qabs (tvd a - max_tvd_depth a)
             * steel_area) / 1000)
  ∧ (¬ set_depth a == max_md_depth a →
     calculate_tension_air self == csg_weight a * set_depth a / 1000
     ∧ calculate_tension_buoyed self
       == (csg_weight a * set_depth a
           - 0.05194806 * mud_weight a * tvd a * steel_area) / 1000)
  ∧ (∀ self', calculateData self = Ok self' →
       tension_air (drv self') = Some (calculate_tension_air self)
       ∧ tension_buoyed (drv self') = Some (calculate_tension_buoyed self)
       ∧ get_results self' !! "tension_air"
         = Some (VNum (calculate_tension_air self))
       ∧ get_results self' !! "tension_buoyed"
         = Some (VNum (calculate_tension_buoyed self))).
Proof.
  intros a steel_area. subst a steel_area.
  unfold calculate_tension_air, calculate_tension_buoyed, Spec.steel_area.
  split; [|split].
  - intros H. apply Qeq_bool_iff in H. unfold eqf. rewrite H.
    split; reflexivity.
  - intros H. unfold eqf.
    destruct (Qeq_bool _ _) eqn:E.
    + apply Qeq_bool_iff in E. contradiction.
    + split; reflexivity.
  - intros self' H. apply calculateData_inv in H. unfold get_results.
    tauto.
Qed.

Lemma tension_formulas_witness :
  calculate_tension_air example_self == 32 * Qabs (10000 - 9950) / 1000
  ∧ calculate_tension_buoyed example_self
    == (32 * Qabs (10000 - 9950)
        - 0.05194806 * 15.0 * Qabs (9000 - 9800)
          * Spec.steel_area 7.0 6.094) / 1000.
Proof.
  apply (proj1 (tension_formulas example_self)). reflexivity.
Defined.

(** C10. With od > 0 [calculate_cement_height] divides by
    ((hole_size * (1 + washout/100))^2 - od^2) / 183.35, every operation
    rounded to binary64 as Python computes it, and when the washout-adjusted
    hole size so computed equals the outer diameter the division raises
    [ZeroDivisionError]: no value is returned.  The guard [od > 0] does not
    make the function total, and the zero-result arm runs exactly when
    od <= 0.  The equality is the one of the computed numbers: in a 50 in
    hole with 10 percent washout the computed size is 55.00000000000001,
    and a 55 in casing gets a height. *)
Theorem cement_height_partial :
  (∀ self : t,
     let a := inp self in
     let effective_hole_size :=
       b64_mul (hole_size a) (b64_add 1 (b64_div (washout a) 100)) in
     let annular_volume_per_foot :=
       b64_div (b64_sub (b64_sq effective_hole_size) (b64_sq (csg_size a)))
         (b64 183.35) in
     (cement_height_branch self = zero_branch ↔ csg_size a <= 0)
     ∧ (cement_height_branch self = zero_branch →
        calculate_cement_height self = Ok 0)
     ∧ (0 < csg_size a →
        calculate_cement_height self
        = (r ← py_div64 1 annular_volume_per_foot;
           Ok (b64_mul r (cement_cu_ft a))))
     ∧ (0 < csg_size a → effective_hole_size == csg_size a →
        calculate_cement_height self = Raise ZeroDivisionError)
     ∧ (raises (calculate_cement_height self)
        ↔ 0 < csg_size a
          ∧ b64_sq effective_hole_size == b64_sq (csg_size a)))
  ∧ (∃ self : t,
       0 < csg_size (inp self) ∧ raises (calculate_cement_height self))
  ∧ (∃ (self : t) (h : Q),
       0 < csg_size (inp self)
       ∧ hole_size (inp self) * (1 + washout (inp self) / 100)
         == csg_size (inp self)
       ∧ calculate_cement_height self = Ok h).
Proof.
  split; [|split].
  - intros self a eff avpf. subst a.
    unfold calculate_cement_height, cement_height_branch.
    fold eff. fold avpf.
    assert (Hz : avpf == 0 ↔ b64_sq eff == b64_sq (csg_size (inp self))).
    { unfold avpf, b64_div, b64_sub.
      set (x := b64_sq eff). set (y := b64_sq (csg_size (inp self))).
      rewrite b64_zero_iff.
      assert (Hc : ¬ b64 183.35 == 0)
        by (rewrite b64_zero_iff; discriminate).
      set (c := b64 183.35) in *.
      split; intros H.
      - assert (E : b64 (x - y) == b64 (x - y) / c * c) by (by field).
        rewrite H, Qmult_0_l in E. apply (proj1 (b64_zero_iff _)) in E.
        assert (E' : x == x - y + y) by ring.
        rewrite E'. rewrite E. ring.
      - assert (E : x - y == 0) by (rewrite H; ring).
        rewrite (b64_Qeq _ _ E). change (b64 0) with 0. by field. }
    destruct (gt (csg_size (inp self)) 0) eqn:E.
    + apply gt_true in E.
      split; [split; [discriminate|]|].
      { intros Hle. exfalso. exact (Qlt_not_le _ _ E Hle). }
      split; [discriminate|].
      split; [reflexivity|].
      split.
      { intros _ Heq. rewrite py_div64_zero; [reflexivity|].
        apply Hz. by rewrite Heq. }
      split.
      * intros [e He]. split; [exact E|]. apply Hz.
        destruct (Qeq_bool avpf 0) eqn:Eb; [by apply Qeq_bool_iff|].
        unfold py_div64 in He. rewrite Eb in He. discriminate.
      * intros [_ Hsq]. exists ZeroDivisionError.
        rewrite py_div64_zero; [reflexivity|]. by apply Hz.
    + apply gt_false in E.
      split; [split; [intros _; exact E | reflexivity]|].
      split; [reflexivity|].
      split; [intros Hpos; exfalso; exact (Qlt_not_le _ _ Hpos E)|].
      split; [intros Hpos; exfalso; exact (Qlt_not_le _ _ Hpos E)|].
      split.
      * intros [e He]. discriminate.
      * intros [Hpos _]. exfalso. exact (Qlt_not_le _ _ Hpos E).
  - exists example_tight. split; [reflexivity|].
    exists ZeroDivisionError. vm_compute. reflexivity.
  - exists (example_casing 50 10 55). eexists.
    split; [reflexivity|]. split; [reflexivity|].
    vm_compute. reflexivity.
Qed.

Lemma cement_height_partial_witness :
  calculate_cement_height example_tight = Raise ZeroDivisionError.
Proof.
  apply (proj1 (proj2 (proj2 (proj2
           (proj1 cement_height_partial example_tight)))));
    [reflexivity | vm_compute; reflexivity].
Defined.

End calculator_claims.

(** ** The sentinel of the design factors *)

Lemma sentinel_iff_zero (s l : Q) :
  let df := if nef l 0 then Fin (s / l) else PosInf in
  (df = PosInf ↔ l == 0) ∧ (is_finite df ↔ ¬ l == 0).
Proof.
  cbn zeta. destruct (nef l 0) eqn:E.
  - apply nef_true in E. cbn. split; split; try tauto; try discriminate.
  - apply nef_false in E. cbn. split; split; try tauto.
Qed.

Lemma sentinel_iff_zero_eqf (s l : Q) :
  let df := if eqf l 0 then PosInf else Fin (s / l) in
  (df = PosInf ↔ l == 0) ∧ (is_finite df ↔ ¬ l == 0).
Proof.
  cbn zeta. unfold eqf. destruct (Qeq_bool l 0) eqn:E.
  - apply Qeq_bool_iff in E. cbn. split; split; try tauto.
  - apply Qeq_bool_neq in E. cbn. split; split; try tauto; try discriminate.
Qed.

Lemma sentinel_iff_nonpositive (s l : Q) :
  let df := if gt l 0 then Fin (s / l) else PosInf in
  (df = PosInf ↔ l <= 0) ∧ (is_finite df ↔ 0 < l).
Proof.
  cbn zeta. destruct (gt l 0) eqn:E.
  - apply gt_true in E. cbn. split; split; try tauto; try discriminate.
    intros H. exfalso. exact (Qlt_not_le _ _ E H).
  - apply gt_false in E. cbn. split; split; try tauto.
    intros H. exfalso. exact (Qlt_not_le _ _ H E).
Qed.

Section design_factors.
Import CasingDataCalc.

(** C1 as stated fails on the burst design factor: the section
    [example_underbalanced] has a negative, hence nonzero, burst load and
    its burst design factor is the sentinel. *)
Lemma sentinel_on_nonzero_burst_load :
  ∃ r, solo_compute example_underbalanced = Ok r
       ∧ ¬ solo_burst_load r == 0
       ∧ solo_burst_df r = PosInf
       ∧ ¬ (solo_burst_df r = PosInf ↔ solo_burst_load r == 0).
Proof.
  eexists. split; [vm_compute; reflexivity|].
  assert (H : ¬ -259.7403000000 == 0) by (vm_compute; discriminate).
  split; [exact H|]. split; [reflexivity|].
  intros [Himp _]. apply H, Himp. reflexivity.
Qed.

(** C1 (amended). For every section the collapse and the tension design
    factor are the sentinel exactly when their load (collapse_load,
    tension_buoyed) is 0 and a finite number otherwise; the burst design
    factor, on both paths that compute it, is the sentinel exactly when the
    burst load is zero or negative and a finite number when it is
    positive. *)
Theorem design_factor_sentinel :
  (∀ self self' : t, calculateData self = Ok self' →
     ∃ cl cdf tb tdf,
       collapse_load (drv self') = Some cl
       ∧ collapse_df (drv self') = Some cdf
       ∧ tension_buoyed (drv self') = Some tb
       ∧ tension_df (drv self') = Some tdf
       ∧ get_results self' !! "collapse_df" = Some (VFloat cdf)
       ∧ get_results self' !! "tension_df" = Some (VFloat tdf)
       ∧ (cdf = PosInf ↔ cl == 0) ∧ (is_finite cdf ↔ ¬ cl == 0)
       ∧ (tdf = PosInf ↔ tb == 0) ∧ (is_finite tdf ↔ ¬ tb == 0))
  ∧ (∀ (sec : section) (bs load : Q),
       sec !! "burst_strength" = Some (VNum bs) →
       ∃ df, burst_design_factor sec load = Ok df
             ∧ (df = PosInf ↔ load <= 0) ∧ (is_finite df ↔ 0 < load))
  ∧ (∀ (sec : section) (r : solo_values), solo_compute sec = Ok r →
       (solo_burst_df r = PosInf ↔ solo_burst_load r <= 0)
       ∧ (is_finite (solo_burst_df r) ↔ 0 < solo_burst_load r)).
Proof.
  split; [|split].
  - intros self self' H. apply calculateData_inv in H.
    destruct H as (_ & Hcl & Hcdf & _ & Htb & Htdf & _ & _ & _ & Hr1 & Hr2).
    do 4 eexists.
    split; [exact Hcl|]. split; [exact Hcdf|].
    split; [exact Htb|]. split; [exact Htdf|].
    unfold get_results. rewrite Hr1, Hr2, Hcdf, Htdf.
    split; [reflexivity|]. split; [reflexivity|].
    pose proof (sentinel_iff_zero (collapse_strength (inp self))
                  (calculate_collapse_load self)) as Hc.
    pose proof (sentinel_iff_zero_eqf (tension_strength (inp self))
                  (calculate_tension_buoyed self)) as Ht.
    cbn zeta in Hc, Ht. tauto.
  - intros sec bs load H. eexists.
    split; [by apply burst_design_factor_value|].
    apply sentinel_iff_nonpositive.
  - intros sec r H. unfold solo_compute in H.
    destruct (num sec "mud_weight") as [mw|]; [|discriminate].
    destruct (num sec "tvd") as [tvd|]; [|discriminate].
    destruct (num sec "backup_mud") as [bm|]; [|discriminate].
    destruct (num sec "frac_init_pressure") as [fip|]; [|discriminate].
    destruct (num sec "int_gradient") as [ig|]; [|discriminate].
    cbn [mbind pyresult_bind] in H.
    destruct (burst_design_factor _ _) as [df|] eqn:Edf; [|discriminate].
    cbn [mbind pyresult_bind] in H. injection H as <-.
    cbn [solo_burst_df solo_burst_load].
    unfold burst_design_factor in Edf.
    match type of Edf with context [gt ?l 0] => set (load := l) in * end.
    destruct (gt load 0) eqn:E.
    + destruct (getitem sec "burst_strength") as [v|]; [|discriminate].
      cbn [mbind pyresult_bind] in Edf.
      destruct (py_float v) as [bs|]; [|discriminate].
      cbn [mbind pyresult_bind] in Edf.
      pose proof (sentinel_iff_nonpositive bs load) as Hs.
      cbn zeta in Hs. rewrite E in Hs. apply gt_true in E.
      rewrite py_div_nonzero in Edf.
      { cbn [mbind pyresult_bind] in Edf. injection Edf as <-. exact Hs. }
      intros Hz. rewrite Hz in E. exact (Qlt_irrefl _ E).
    + injection Edf as <-.
      pose proof (sentinel_iff_nonpositive 0 load) as Hs.
      cbn zeta in Hs. rewrite E in Hs. exact Hs.
Qed.

Lemma design_factor_sentinel_witness :
  ∃ df, burst_design_factor example_solo 0 = Ok df
        ∧ (df = PosInf ↔ 0 <= 0) ∧ (is_finite df ↔ 0 < 0).
Proof.
  apply (proj1 (proj2 design_factor_sentinel) example_solo 10000 0).
  reflexivity.
Defined.

End design_factors.

Section design_factor_policy.
Import CasingDataCalc.

(** C2 as stated fails on the tension design factor: the liner
    [example_self] has a negative buoyed tension, and its tension design
    factor is strength / load, a finite negative number, not the
    sentinel. *)
Lemma negative_load_not_sentinel :
  ∃ self' tb,
    calculateData example_self = Ok self'
    ∧ tension_buoyed (drv self') = Some tb
    ∧ tb < 0
    ∧ tension_df (drv self')
      = Some (Fin (tension_strength (inp example_self) / tb))
    ∧ tension_df (drv self') ≠ Some PosInf.
Proof.
  destruct (calculateData example_self) as [self'|e] eqn:E.
  - exists self'. apply calculateData_inv in E.
    destruct E as (_ & _ & _ & _ & Htb & Htdf & _).
    eexists. split; [reflexivity|]. split; [exact Htb|].
    split; [vm_compute; reflexivity|].
    rewrite Htdf.
    assert (Hz : eqf (calculate_tension_buoyed example_self) 0 = false)
      by (vm_compute; reflexivity).
    rewrite Hz. split; [reflexivity | discriminate].
  - exfalso. apply calculateData_raise in E. vm_compute in E. discriminate.
Qed.

(** C2 (amended). The collapse and the tension design factor are strength
    / load whenever the load is not zero, also when it is negative, and the
    sentinel when the load is zero; the burst design factor is strength /
    load when the load is positive and the sentinel when it is zero or
    negative.  None of the three computations raises: each returns, and a
    calculation that raises does so in the cement height, before any
    design factor is computed. *)
Theorem design_factor_policy :
  (∀ (self : t) (load : Q), collapse_load (drv self) = Some load →
     returns (calculate_collapse_df self)
     ∧ (¬ load == 0 →
        calculate_collapse_df self
        = Ok (Fin (collapse_strength (inp self) / load)))
     ∧ (load == 0 → calculate_collapse_df self = Ok PosInf))
  ∧ (∀ (self : t) (load : Q), tension_buoyed (drv self) = Some load →
     returns (calculate_tension_df self)
     ∧ (¬ load == 0 →
        calculate_tension_df self
        = Ok (Fin (tension_strength (inp self) / load)))
     ∧ (load == 0 → calculate_tension_df self = Ok PosInf))
  ∧ (∀ (sec : section) (bs load : Q),
       sec !! "burst_strength" = Some (VNum bs) →
       returns (burst_design_factor sec load)
       ∧ (0 < load → burst_design_factor sec load = Ok (Fin (bs / load)))
       ∧ (load <= 0 → burst_design_factor sec load = Ok PosInf))
  ∧ (∀ (self : t) (e : exn), calculateData self = Raise e →
       calculate_cement_height self = Raise e).
Proof.
  split; [|split; [|split]].
  - intros self load H. rewrite (calculate_collapse_df_value _ _ H).
    split; [eexists; reflexivity|]. split.
    + intros Hn. apply nef_true in Hn. rewrite Hn. reflexivity.
    + intros Hz. apply nef_false in Hz. rewrite Hz. reflexivity.
  - intros self load H. rewrite (calculate_tension_df_value _ _ H).
    split; [eexists; reflexivity|]. unfold eqf. split.
    + intros Hn. destruct (Qeq_bool load 0) eqn:E; [|reflexivity].
      apply Qeq_bool_iff in E. contradiction.
    + intros Hz. apply Qeq_bool_iff in Hz. rewrite Hz. reflexivity.
  - intros sec bs load H. rewrite (burst_design_factor_value _ _ _ H).
    split; [eexists; reflexivity|]. split.
    + intros Hp. apply gt_true in Hp. rewrite Hp. reflexivity.
    + intros Hl. apply gt_false in Hl. rewrite Hl. reflexivity.
  - apply calculateData_raise.
Qed.

Lemma design_factor_policy_witness :
  returns (burst_design_factor example_solo 2500)
  ∧ (0 < 2500 → burst_design_factor example_solo 2500
                = Ok (Fin (10000 / 2500)))
  ∧ (2500 <= 0 → burst_design_factor example_solo 2500 = Ok PosInf).
Proof.
  apply (proj1 (proj2 (proj2 design_factor_policy)) example_solo 10000 2500).
  reflexivity.
Defined.

End design_factor_policy.

(** ** The insertion-ordered dictionary *)

Section odict_facts.
Context {V : Type}.
Implicit Types (d : list (key * V)) (k : key) (v : V) (vs : list V).

Lemma dict_get_elem_of k d : is_Some (dict_get k d) ↔ k ∈ keys d.
Proof.
  induction d as [|[k' v'] d IH]; cbn.
  - split; [intros [? [=]] | intros H; inversion H].
  - case_decide as E.
    + subst. split; [intros _; left | eauto].
    + rewrite IH. split; [by right|].
      intros H. inversion H; [congruence | done].
Qed.

Lemma dict_get_None k d : dict_get k d = None ↔ k ∉ keys d.
Proof. rewrite <- dict_get_elem_of, eq_None_not_Some. done. Qed.

(** Reading back what was stored, and leaving the other keys alone. *)
Lemma dict_get_set_eq k v d : dict_get k (dict_set k v d) = Some v.
Proof.
  induction d as [|[k' v'] d IH]; cbn.
  - by rewrite decide_True.
  - case_decide; cbn; [by rewrite decide_True | by rewrite decide_False].
Qed.

Lemma dict_get_set_ne k k' v d :
  k ≠ k' → dict_get k' (dict_set k v d) = dict_get k' d.
Proof.
  intros Hne. induction d as [|[k0 v0] d IH]; cbn.
  - by rewrite decide_False.
  - case_decide as E; cbn.
    + subst k0. by rewrite !decide_False.
    + case_decide; [done | exact IH].
Qed.

Lemma dict_set_new k v d : k ∉ keys d → dict_set k v d = d ++ [(k, v)].
Proof.
  induction d as [|[k' v'] d IH]; cbn; [done|].
  intros Hn. apply not_elem_of_cons in Hn as [Hne Hn].
  rewrite decide_False by done. by rewrite IH.
Qed.

(** An existing key keeps its place. *)
Lemma keys_dict_set_old k v d : k ∈ keys d → keys (dict_set k v d) = keys d.
Proof.
  induction d as [|[k' v'] d IH]; cbn.
  - intros H. inversion H.
  - intros H. case_decide as E; cbn; [by subst|].
    f_equal. apply IH. inversion H; [congruence | done].
Qed.

Lemma dict_of_items_acc (items acc : list (key * V)) :
  NoDup (keys (acc ++ items)) →
  fold_left (fun d kv => dict_set kv.1 kv.2 d) items acc = acc ++ items.
Proof.
  revert acc. induction items as [|[k v] items IH]; intros acc Hnd; cbn.
  - by rewrite app_nil_r.
  - rewrite dict_set_new.
    + rewrite IH; rewrite <- app_assoc; done.
    + unfold keys in *. rewrite map_app in Hnd. cbn in Hnd.
      apply NoDup_app in Hnd as (_ & Hd & _).
      intros Hin. apply (Hd k Hin). left.
Qed.

(** Rebuilding a dictionary from its items gives it back. *)
Lemma dict_of_items_id (items : list (key * V)) :
  NoDup (keys items) → dict_of_items items = items.
Proof. intros H. unfold dict_of_items. by rewrite dict_of_items_acc. Qed.

Lemma keys_indexed_from i vs :
  keys (indexed_from i vs) = KInt <$> seq i (length vs).
Proof.
  revert i. induction vs as [|v vs IH]; intros i; cbn; [done|].
  f_equal. apply IH.
Qed.

Lemma values_indexed_from i vs : values (indexed_from i vs) = vs.
Proof.
  revert i. induction vs as [|v vs IH]; intros i; cbn; [done|].
  f_equal. apply IH.
Qed.

Lemma length_indexed_from i vs : length (indexed_from i vs) = length vs.
Proof. by rewrite <- (values_indexed_from i vs) at 2; unfold values;
  rewrite length_map. Qed.

Lemma NoDup_keys_indexed_from i vs : NoDup (keys (indexed_from i vs)).
Proof.
  rewrite keys_indexed_from. apply NoDup_fmap_2; [|apply NoDup_seq].
  intros ?? [=]. done.
Qed.

Lemma indexed_from_app i vs vs' :
  indexed_from i (vs ++ vs')
  = indexed_from i vs ++ indexed_from (i + length vs) vs'.
Proof.
  revert i. induction vs as [|v vs IH]; intros i; cbn.
  - by rewrite Nat.add_0_r.
  - rewrite IH. by rewrite Nat.add_succ_r.
Qed.

Lemma dict_get_indexed_from i j vs :
  dict_get (KInt (i + j)) (indexed_from i vs) = vs !! j.
Proof.
  revert i j. induction vs as [|v vs IH]; intros i j; cbn; [done|].
  destruct j as [|j].
  - rewrite Nat.add_0_r. by rewrite decide_True.
  - rewrite decide_False by (intros [=]; lia).
    replace (i + S j)%nat with (S i + j)%nat by lia. apply IH.
Qed.

Lemma subscript_indexed (j : nat) vs v :
  vs !! j = Some v → subscript (indexed vs) (KInt j) = Ok v.
Proof.
  intros H. unfold subscript, indexed.
  by rewrite (dict_get_indexed_from 0 j), H.
Qed.

Lemma subscript_indexed_missing (j : nat) vs :
  length vs ≤ j → subscript (indexed vs) (KInt j) = Raise KeyError.
Proof.
  intros H. unfold subscript, indexed.
  rewrite (dict_get_indexed_from 0 j). by rewrite lookup_ge_None_2.
Qed.

(** Storing under the next free position appends. *)
Lemma dict_set_indexed_next vs v :
  dict_set (KInt (length vs)) v (indexed vs) = indexed (vs ++ [v]).
Proof.
  unfold indexed. rewrite indexed_from_app. cbn.
  apply dict_set_new. rewrite keys_indexed_from.
  intros Hin. apply list_elem_of_fmap in Hin as (n & [= <-] & Hn).
  apply elem_of_seq in Hn. lia.
Qed.

Lemma reindex_from_spec (items : list (key * V)) vs :
  reindex_from (length vs) items (indexed vs) = indexed (vs ++ values items).
Proof.
  revert vs. induction items as [|[k v] items IH]; intros vs; cbn.
  - by rewrite app_nil_r.
  - rewrite dict_set_indexed_next.
    replace (S (length vs)) with (length (vs ++ [v]))
      by (rewrite length_app; cbn; lia).
    rewrite IH. by rewrite <- app_assoc.
Qed.

(** Re-indexing keeps the values in order and numbers them 0..n-1. *)
Lemma reindex_spec (items : list (key * V)) :
  reindex items = indexed (values items).
Proof. apply (reindex_from_spec items []). Qed.

End odict_facts.

(** ** Sorting *)

Section sort_facts.
Context {A : Type} (before : A → A → bool).
Hypothesis before_total : ∀ a b, before a b = false → before b a = true.

Lemma insert_by_Permutation (x : A) (l : list A) :
  insert_by before x l ≡ₚ x :: l.
Proof.
  induction l as [|y l IH]; cbn; [done|].
  destruct (before x y); [done|].
  rewrite IH. apply perm_swap.
Qed.

Lemma sort_by_Permutation (l : list A) : sort_by before l ≡ₚ l.
Proof.
  induction l as [|x l IH]; cbn; [done|].
  by rewrite insert_by_Permutation, IH.
Qed.

Lemma HdRel_insert_by (a x : A) (l : list A) :
  before a x = true →
  HdRel (fun a b => before a b = true) a l →
  HdRel (fun a b => before a b = true) a (insert_by before x l).
Proof.
  intros Hax Hl. destruct l as [|y l]; cbn.
  - by constructor.
  - destruct (before x y); constructor; [done|].
    by inversion Hl.
Qed.

Lemma insert_by_Sorted (x : A) (l : list A) :
  Sorted (fun a b => before a b = true) l →
  Sorted (fun a b => before a b = true) (insert_by before x l).
Proof.
  induction 1 as [|y l Hs IH Hhd]; cbn.
  - by repeat constructor.
  - destruct (before x y) eqn:E.
    + constructor; [by constructor|]. by constructor.
    + constructor; [exact IH|].
      apply HdRel_insert_by; [|done]. by apply before_total.
Qed.

Lemma sort_by_Sorted (l : list A) :
  Sorted (fun a b => before a b = true) (sort_by before l).
Proof.
  induction l as [|x l IH]; cbn; [constructor|].
  by apply insert_by_Sorted.
Qed.

End sort_facts.

Section py_sorted_facts.
Context {A : Type}.

Lemma keys_of_Ok {K} (key_fn : A → pyresult K) (l : list A) :
  Forall (fun x => ∃ q, key_fn x = Ok q) l →
  ∃ keyed, keys_of key_fn l = Ok keyed
           ∧ map snd keyed = l
           ∧ Forall (fun kx => key_fn kx.2 = Ok kx.1) keyed.
Proof.
  induction 1 as [|x l [q Hq] _ (keyed & Hk & Hs & Hf)]; cbn.
  - by exists [].
  - rewrite Hq, Hk. cbn. exists ((q, x) :: keyed).
    split; [done|]. split; [by cbn; rewrite Hs|]. by constructor.
Qed.

Lemma sort_numbers_spec (key_fn : A → pyresult Q) (reverse : bool)
    (items : list A) :
  Forall (fun x => ∃ q, key_fn x = Ok q) items →
  ∃ out, sort_numbers key_fn reverse items = Ok out
         ∧ out ≡ₚ items
         ∧ Sorted (key_order key_fn reverse) out.
Proof.
  intros H. destruct (keys_of_Ok key_fn items H) as (keyed & Hk & Hs & Hf).
  unfold sort_numbers. rewrite Hk. cbn [mbind pyresult_bind].
  eexists. split; [reflexivity|].
  set (before := fun a b : Q * A =>
                   if reverse then Qle_bool b.1 a.1 else Qle_bool a.1 b.1).
  assert (Htot : ∀ a b, before a b = false → before b a = true).
  { intros a b. unfold before. destruct reverse; intros E;
      apply Qle_bool_iff, Qlt_le_weak, Qnot_le_lt;
      intros Hle; apply Qle_bool_iff in Hle; congruence. }
  split.
  - rewrite <- Hs. apply Permutation_map, sort_by_Permutation.
  - pose proof (sort_by_Sorted before Htot keyed) as Hsorted.
    assert (Hall : Forall (fun kx => key_fn kx.2 = Ok kx.1)
                     (sort_by before keyed)).
    { by rewrite (sort_by_Permutation before keyed). }
    induction Hsorted as [|kx l Hl IH Hhd]; cbn; [constructor|].
    apply Forall_cons in Hall as [Hkx Hall].
    constructor; [by apply IH|].
    destruct Hhd as [|ky l' Hb]; cbn; constructor.
    apply Forall_cons in Hall as [Hky _].
    exists kx.1, ky.1. split; [done|]. split; [done|].
    unfold before in Hb. destruct reverse; by apply Qle_bool_iff.
Qed.

(** The keys of items whose keys are numbers. *)
Lemma keys_of_numbers (key_fn : A → pyresult pyval) (items : list A) :
  Forall (fun x => ∃ q, key_fn x = Ok (VNum q)) items →
  ∃ keyed nums,
    keys_of key_fn items = Ok keyed
    ∧ number_keys keyed = Some nums
    ∧ keys_of (number_key key_fn) items = Ok nums
    ∧ map snd nums = items
    ∧ length keyed = length items.
Proof.
  induction 1 as [|x l [q Hq] _ (keyed & nums & Hk & Hn & Hk' & Hs & Hl)].
  - by exists [], [].
  - exists ((VNum q, x) :: keyed), ((q, x) :: nums).
    split; [cbn [keys_of]; by rewrite Hq, Hk|].
    split; [unfold VNum; cbn [number_keys]; by rewrite Hn|].
    split.
    { assert (Hx : number_key key_fn x = Ok q)
        by (unfold number_key; by rewrite Hq).
      cbn [keys_of]. by rewrite Hx, Hk'. }
    split; [cbn; by rewrite Hs | cbn; by rewrite Hl].
Qed.

(** On items whose keys are numbers [sorted] is the sort of numbers. *)
Lemma py_sorted_numbers (key_fn : A → pyresult pyval) (reverse : bool)
    (items : list A) :
  Forall (fun x => ∃ q, key_fn x = Ok (VNum q)) items →
  py_sorted key_fn reverse items
  = sort_numbers (number_key key_fn) reverse items.
Proof.
  intros H.
  destruct (keys_of_numbers key_fn items H)
    as (keyed & nums & Hk & Hn & Hk' & Hs & Hl).
  unfold py_sorted, sort_numbers. rewrite Hk, Hk'.
  cbn [mbind pyresult_bind]. rewrite Hn.
  destruct keyed as [|k1 [|k2 keyed]]; [| |reflexivity].
  - destruct items; [|done]. destruct nums; [|done]. reflexivity.
  - destruct items as [|x [|y items]]; try done.
    destruct nums as [|[q x'] [|n2 nums]]; try done.
    cbn in Hs. injection Hs as ->. reflexivity.
Qed.

Lemma py_sorted_spec (key_fn : A → pyresult pyval) (reverse : bool)
    (items : list A) :
  Forall (fun x => ∃ q, key_fn x = Ok (VNum q)) items →
  ∃ out, py_sorted key_fn reverse items = Ok out
         ∧ out ≡ₚ items
         ∧ Sorted (key_order (number_key key_fn) reverse) out.
Proof.
  intros H. rewrite (py_sorted_numbers key_fn reverse items H).
  apply sort_numbers_spec.
  eapply Forall_impl; [exact H|]. intros x [q Hq]. exists q.
  unfold number_key. by rewrite Hq.
Qed.

End py_sorted_facts.

(** ** Staging a section *)

Lemma is_number_num (d : section) (k : string) :
  is_number d k → ∃ q, num d k = Ok q.
Proof. intros [q H]. exists q. by apply num_lookup. Qed.

Lemma values_indexed {V} (vs : list V) : values (indexed vs) = vs.
Proof. apply values_indexed_from. Qed.

Lemma length_indexed {V} (vs : list V) : length (indexed vs) = length vs.
Proof. apply length_indexed_from. Qed.

(** Sorting the collection with one more section and re-indexing it. *)
Lemma restage (key_fn : section → pyresult pyval) (reverse : bool)
    (vs : list section) (s : section) :
  Forall (fun x => ∃ q, key_fn x = Ok (VNum q)) (vs ++ [s]) →
  ∃ items out,
    py_sorted (fun item : key * section => key_fn item.2) reverse
      (dict_set (KInt (length vs)) s (indexed vs)) = Ok items
    ∧ reindex (dict_of_items items) = indexed out
    ∧ out ≡ₚ vs ++ [s]
    ∧ Sorted (key_order (number_key key_fn) reverse) out.
Proof.
  intros Hk. rewrite dict_set_indexed_next.
  destruct (py_sorted_spec (fun item : key * section => key_fn item.2)
              reverse (indexed (vs ++ [s]))) as (items & Hs & Hp & Hsorted).
  { apply Forall_forall. intros [k x] Hin.
    rewrite Forall_forall in Hk. apply Hk.
    rewrite <- (values_indexed (vs ++ [s])).
    unfold values. apply list_elem_of_fmap. by exists (k, x). }
  exists items, (values items). split; [exact Hs|].
  split.
  - rewrite dict_of_items_id; [apply reindex_spec|].
    unfold keys. rewrite Hp. apply NoDup_keys_indexed_from.
  - split.
    + unfold values. rewrite Hp. fold (values (indexed (vs ++ [s]))).
      by rewrite values_indexed.
    + unfold values.
      apply (Sorted_fmap snd
               (key_order
                  (number_key (fun item : key * section => key_fn item.2))
                  reverse));
        [|exact Hsorted].
      intros x y H. exact H.
Qed.

Section assembler.
Import WellBoreExpanded.

Lemma contains_true (d : section) (k : string) :
  contains d k = true ↔ is_Some (d !! k).
Proof. unfold contains. apply bool_decide_eq_true. Qed.

Lemma contains_false (d : section) (k : string) :
  contains d k = false ↔ d !! k = None.
Proof.
  unfold contains. rewrite bool_decide_eq_false, eq_None_not_Some. done.
Qed.

Lemma no_missing_params (kwargs : section) (params : list string) :
  Forall (fun p => is_Some (kwargs !! p)) params →
  filter (fun param => negb (contains kwargs param)) params = [].
Proof.
  induction 1 as [|p params Hp _ IH]; [done|].
  rewrite filter_cons_False; [exact IH|].
  apply contains_true in Hp. rewrite Hp. cbn. tauto.
Qed.

Lemma add_section_with_properties_complete (self : t) (kwargs : section) :
  all_required kwargs →
  add_section_with_properties self kwargs
  = if String.eqb (method self) "top_down"
    then add_section_top_down_new self kwargs
    else if String.eqb (method self) "bottom_up"
    then add_section_bottom_up_new self kwargs
    else Ok self.
Proof.
  intros H. unfold add_section_with_properties.
  by rewrite (no_missing_params kwargs required_params H).
Qed.

Lemma last_indexed_subscript (vs : list section) (prev : section) :
  last vs = Some prev →
  subscript (indexed vs) (KInt (length (indexed vs) - 1)) = Ok prev.
Proof.
  intros H. apply subscript_indexed. rewrite length_indexed.
  rewrite last_lookup in H. by replace (length vs - 1)%nat with
    (pred (length vs)) by lia.
Qed.

(** The boundary the top-down strategy derives on a staged well. *)
Lemma next_top_staged (self : t) :
  staged_top_down self →
  ∃ boundary : Q,
    next_top self = Ok (length (values (sections self)), VNum boundary)
    ∧ match last (values (sections self)) with
      | None => boundary = top self
      | Some prev => prev !! "bottom" = Some (VNum boundary)
      end.
Proof.
  intros [Hidx Hnum]. unfold next_top. rewrite Hidx.
  rewrite values_indexed.
  destruct (values (sections self)) as [|v vs] eqn:Evs.
  - exists (top self). done.
  - destruct (last (v :: vs)) as [prev|] eqn:El;
      [|by apply last_None in El].
    assert (Hin : prev ∈ v :: vs).
    { apply last_Some in El as [l' ->]. apply elem_of_app. right.
      by apply list_elem_of_singleton. }
    rewrite Forall_forall in Hnum.
    destruct (Hnum prev Hin) as [_ [b Hb]].
    exists b. split; [|exact Hb].
    change (indexed (v :: vs)) with ((KInt 0, v) :: indexed_from 1 vs).
    cbv beta iota.
    change ((KInt 0, v) :: indexed_from 1 vs) with (indexed (v :: vs)).
    rewrite (last_indexed_subscript _ _ El). cbn [mbind pyresult_bind].
    unfold getitem. rewrite Hb. cbn [mbind pyresult_bind].
    by rewrite length_indexed.
Qed.

Lemma update_lookup_kwargs (base kwargs : section) (k : string) (v : pyval) :
  kwargs !! k = Some v → update base kwargs !! k = Some v.
Proof. intros H. unfold update. by apply lookup_union_Some_l. Qed.

Lemma update_lookup_base (base kwargs : section) (k : string) :
  kwargs !! k = None → update base kwargs !! k = base !! k.
Proof. intros H. unfold update. by apply lookup_union_r. Qed.

(** One insertion of the top-down strategy on a staged well. *)
Lemma add_section_top_down_new_staged (self : t) (kwargs : section) (b : Q) :
  staged_top_down self →
  kwargs !! "bottom" = Some (VNum b) →
  number_if_any kwargs "top" →
  ∃ (self' : t) (boundary : Q),
    add_section_top_down_new self kwargs = Ok self'
    ∧ match last (values (sections self)) with
      | None => boundary = top self
      | Some prev => prev !! "bottom" = Some (VNum boundary)
      end
    ∧ values (sections self')
      ≡ₚ values (sections self)
         ++ [update (<["top" := VNum boundary]> ∅) kwargs]
    ∧ sections self' = indexed (values (sections self'))
    ∧ Sorted (key_order top_key false) (values (sections self'))
    ∧ complete self' = complete self || bottom_reached self'
    ∧ staged_top_down self'
    ∧ method self' = method self
    ∧ top self' = top self
    ∧ bottom self' = bottom self.
Proof.
  intros Hst Hb Htop.
  destruct (next_top_staged self Hst) as (boundary & Hnext & Hbound).
  destruct Hst as [Hidx Hnum].
  set (vs := values (sections self)) in *.
  set (new_section := update (<["top" := VNum boundary]> ∅) kwargs).
  assert (Hnew : is_number new_section "top" ∧ is_number new_section "bottom").
  { split.
    - destruct Htop as [Hnone|[q Hq]].
      + exists boundary. unfold new_section.
        rewrite update_lookup_base by done. by rewrite lookup_insert_eq.
      + exists q. by apply update_lookup_kwargs.
    - exists b. by apply update_lookup_kwargs. }
  assert (Hall : Forall (fun s => is_number s "top" ∧ is_number s "bottom")
                   (vs ++ [new_section])).
  { apply Forall_app. split; [exact Hnum|]. by constructor. }
  destruct (restage (fun s => getitem s "top") false vs new_section)
    as (items & out & Hsort & Hre & Hperm & Hsorted).
  { eapply Forall_impl; [exact Hall|]. intros s [[q Ht] _].
    exists q. unfold getitem. by rewrite Ht. }
  cbv beta in Hsort.
  change (Sorted (key_order top_key false) out) in Hsorted.
  assert (Hout : Forall (fun s => is_number s "top" ∧ is_number s "bottom")
                   out) by (by rewrite Hperm).
  destruct (last out) as [l|] eqn:El.
  2: { apply last_None in El. rewrite El in Hperm.
       apply Permutation_length in Hperm. rewrite length_app in Hperm.
       cbn in Hperm. lia. }
  assert (Hl : is_number l "bottom").
  { rewrite Forall_forall in Hout. apply Hout.
    destruct (proj1 (last_Some _ _) El) as [l' El']. rewrite El'.
    apply elem_of_app. right. by apply list_elem_of_singleton. }
  destruct Hl as [x Hx].
  eexists _, boundary. split.
  { unfold add_section_top_down_new. rewrite Hnext.
    cbn [mbind pyresult_bind]. rewrite Hidx. fold vs.
    fold new_section.
    rewrite Hsort. cbn [mbind pyresult_bind]. rewrite Hre.
    rewrite (last_indexed_subscript out l El). cbn [mbind pyresult_bind].
    unfold getitem. rewrite Hx. cbn [mbind pyresult_bind]. reflexivity. }
  assert (Hvals : ∀ w0 : t, values (sections (set_sections (indexed out) w0))
                            = out).
  { intros w0. cbn. apply values_indexed. }
  split; [exact Hbound|].
  split; [by rewrite Hvals|].
  split; [by rewrite Hvals|].
  split; [by rewrite Hvals|].
  split.
  { unfold bottom_reached. rewrite Hvals, El, Hx.
    destruct (py_eq_num (VNum x) (bottom self)) eqn:E.
    - change (bottom (set_sections (indexed out) (set_complete true self)))
        with (bottom self).
      rewrite E. by rewrite orb_true_r.
    - change (bottom (set_sections (indexed out) self)) with (bottom self).
      rewrite E. by rewrite orb_false_r. }
  split.
  { split; [by rewrite Hvals | by rewrite Hvals]. }
  by destruct (py_eq_num (VNum x) (bottom self)).
Qed.

End assembler.

Section bottom_up.
Import WellBoreExpanded.

Lemma get_or_number (d : section) (k dflt : string) :
  is_number d dflt → number_if_any d k →
  ∃ q, get_or d k dflt = Ok (VNum q).
Proof.
  intros [x Hx] Hk. unfold get_or, getitem. rewrite Hx.
  cbn [mbind pyresult_bind].
  destruct Hk as [-> | [q ->]]; cbn; eauto.
Qed.

Lemma depth_key_number (s : section) :
  is_number s "bottom" → number_if_any s "md_bottom" →
  ∃ q, depth_key s = Ok q.
Proof.
  intros Hb Hm. destruct (get_or_number s "md_bottom" "bottom" Hb Hm)
    as [q Hq].
  exists q. unfold depth_key. by rewrite Hq.
Qed.

(** The boundary the bottom-up strategy derives on a staged well. *)
Lemma next_bottom_staged (self : t) :
  staged_bottom_up self →
  ∃ boundary : Q,
    next_bottom self = Ok (length (values (sections self)), VNum boundary)
    ∧ match head (values (sections self)) with
      | None => boundary = bottom self
      | Some first => get_or first "md_top" "top" = Ok (VNum boundary)
      end.
Proof.
  intros [Hidx Hnum]. unfold next_bottom. rewrite Hidx.
  rewrite values_indexed.
  destruct (values (sections self)) as [|v vs] eqn:Evs.
  - exists (bottom self). done.
  - apply Forall_cons in Hnum as [(Ht & _ & Hmt & _) _].
    destruct (get_or_number v "md_top" "top" Ht Hmt) as [q Hq].
    exists q. split; [|exact Hq].
    change (indexed (v :: vs)) with ((KInt 0, v) :: indexed_from 1 vs).
    cbv beta iota.
    change ((KInt 0, v) :: indexed_from 1 vs) with (indexed (v :: vs)).
    rewrite (subscript_indexed 0 (v :: vs) v eq_refl).
    cbn [mbind pyresult_bind]. rewrite Hq. cbn [mbind pyresult_bind].
    by rewrite length_indexed.
Qed.

(** The top the bottom-up strategy derives is the one the specification
    words. *)
Lemma derived_top_expected (self : t) (boundary : Q) (kwargs : section) :
  number_if_any kwargs "length" → number_if_any kwargs "top" →
  ∃ t : Q,
    derived_top self (VNum boundary) kwargs = Ok (VNum t)
    ∧ t == expected_top (top self) boundary kwargs.
Proof.
  intros Hlen Htop. unfold derived_top, expected_top.
  destruct Hlen as [Hl | [len Hl]].
  - rewrite (proj2 (contains_false _ _) Hl), Hl.
    destruct Htop as [Ht | [tp Ht]].
    + rewrite (proj2 (contains_false _ _) Ht), Ht. by eexists.
    + rewrite (proj2 (contains_true _ _)) by (by rewrite Ht).
      unfold getitem. rewrite Ht. by eexists.
  - rewrite (proj2 (contains_true _ _)) by (by rewrite Hl).
    rewrite Hl. cbn [as_num mbind pyresult_bind VNum].
    rewrite (num_lookup _ _ _ Hl). cbn [mbind pyresult_bind].
    eexists. split; [reflexivity|]. apply py_max_Qmax.
Qed.

(** One insertion of the bottom-up strategy on a staged well. *)
Lemma add_section_bottom_up_new_staged (self : t) (kwargs : section) :
  staged_bottom_up self →
  plain_depths kwargs →
  ∃ (self' : t) (boundary derived : Q),
    add_section_bottom_up_new self kwargs = Ok self'
    ∧ match head (values (sections self)) with
      | None => boundary = bottom self
      | Some first => get_or first "md_top" "top" = Ok (VNum boundary)
      end
    ∧ derived == expected_top (top self) boundary kwargs
    ∧ values (sections self')
      ≡ₚ values (sections self)
         ++ [update (<["top" := VNum derived]>
                       (<["bottom" := VNum boundary]> ∅)) kwargs]
    ∧ sections self' = indexed (values (sections self'))
    ∧ Sorted (key_order depth_key true) (values (sections self'))
    ∧ complete self' = complete self || top_reached self'
    ∧ staged_bottom_up self'
    ∧ method self' = method self
    ∧ top self' = top self
    ∧ bottom self' = bottom self.
Proof.
  intros Hst Hplain.
  apply Forall_cons in Hplain as [Hktop Hplain].
  apply Forall_cons in Hplain as [Hkbot Hplain].
  apply Forall_cons in Hplain as [Hkmt Hplain].
  apply Forall_cons in Hplain as [Hkmb Hplain].
  apply Forall_cons in Hplain as [Hklen _].
  destruct (next_bottom_staged self Hst) as (boundary & Hnext & Hbound).
  destruct (derived_top_expected self boundary kwargs Hklen Hktop)
    as (derived & Hder & Hexp).
  destruct Hst as [Hidx Hnum].
  set (vs := values (sections self)) in *.
  set (new_section :=
         update (<["top" := VNum derived]> (<["bottom" := VNum boundary]> ∅))
           kwargs).
  assert (Hkeep : ∀ k q base, number_if_any kwargs k →
            base !! k = Some (VNum q) →
            is_number (update base kwargs) k).
  { intros k q base [Hnone | [x Hx]] Hbase.
    - exists q. by rewrite update_lookup_base.
    - exists x. by apply update_lookup_kwargs. }
  assert (Hopt : ∀ k base, number_if_any kwargs k → base !! k = None →
            number_if_any (update base kwargs) k).
  { intros k base [Hnone | [x Hx]] Hbase.
    - left. by rewrite update_lookup_base.
    - right. exists x. by apply update_lookup_kwargs. }
  assert (Hnew : is_number new_section "top" ∧ is_number new_section "bottom"
                 ∧ number_if_any new_section "md_top"
                 ∧ number_if_any new_section "md_bottom").
  { split; [by eapply Hkeep|].
    split; [by eapply Hkeep|].
    split; by apply Hopt. }
  assert (Hall : Forall (fun s => is_number s "top" ∧ is_number s "bottom"
                                  ∧ number_if_any s "md_top"
                                  ∧ number_if_any s "md_bottom")
                   (vs ++ [new_section])).
  { apply Forall_app. split; [exact Hnum|]. by constructor. }
  destruct (restage (fun s => get_or s "md_bottom" "bottom") true vs
              new_section)
    as (items & out & Hsort & Hre & Hperm & Hsorted).
  { eapply Forall_impl; [exact Hall|]. intros s (_ & Hb & _ & Hmb).
    by apply get_or_number. }
  cbv beta in Hsort.
  change (Sorted (key_order depth_key true) out) in Hsorted.
  assert (Hout : Forall (fun s => is_number s "top" ∧ is_number s "bottom"
                                  ∧ number_if_any s "md_top"
                                  ∧ number_if_any s "md_bottom") out)
    by (by rewrite Hperm).
  destruct out as [|first out'] eqn:Eout.
  { apply Permutation_length in Hperm. rewrite length_app in Hperm.
    cbn in Hperm. lia. }
  rewrite <- Eout in *.
  assert (Hhead : head out = Some first) by (by rewrite Eout).
  assert (Hf : is_number first "top").
  { rewrite Eout in Hout. apply Forall_cons in Hout as [[Hf _] _]. exact Hf. }
  destruct Hf as [x Hx].
  eexists _, boundary, derived. split.
  { unfold add_section_bottom_up_new. rewrite Hnext.
    cbn [mbind pyresult_bind]. rewrite Hder. cbn [mbind pyresult_bind].
    rewrite Hidx. fold vs. fold new_section.
    rewrite Hsort. cbn [mbind pyresult_bind]. rewrite Hre.
    rewrite (subscript_indexed 0 out first)
      by (by rewrite <- head_lookup).
    cbn [mbind pyresult_bind].
    unfold getitem. rewrite Hx. cbn [mbind pyresult_bind]. reflexivity. }
  assert (Hvals : ∀ w0 : t, values (sections (set_sections (indexed out) w0))
                            = out).
  { intros w0. cbn. apply values_indexed. }
  split; [exact Hbound|].
  split; [exact Hexp|].
  split; [by rewrite Hvals|].
  split; [by rewrite Hvals|].
  split; [by rewrite Hvals|].
  split.
  { unfold top_reached. rewrite Hvals, Hhead, Hx.
    destruct (py_eq_num (VNum x) (top self)) eqn:E.
    - change (top (set_sections (indexed out) (set_complete true self)))
        with (top self).
      rewrite E. by rewrite orb_true_r.
    - change (top (set_sections (indexed out) self)) with (top self).
      rewrite E. by rewrite orb_false_r. }
  split.
  { split; [by rewrite Hvals | by rewrite Hvals]. }
  by destruct (py_eq_num (VNum x) (top self)).
Qed.

End bottom_up.

Section top_down_claim.
Import WellBoreExpanded.

Lemma new_fresh (name : string) (top bottom md tvd tol fg : Q)
    (method : string) (self : t) :
  new name top bottom md tvd tol fg method = Ok self →
  self = String_init name top bottom method md tvd tol fg
  ∧ 0 < md ∧ 0 < tvd ∧ 0 <= tol.
Proof.
  unfold new, _validate_initial_parameters. cbn [max_md_depth max_tvd_depth
    WellBoreExpanded.tol String_init].
  destruct (Qle_bool md 0) eqn:E1; [done|].
  destruct (Qle_bool tvd 0) eqn:E2; [done|].
  destruct (lt tol 0) eqn:E3; [done|].
  cbn [mbind pyresult_bind]. intros [= <-].
  split; [done|].
  split; [apply (gt_true md 0); unfold gt; by rewrite E1|].
  split; [apply (gt_true tvd 0); unfold gt; by rewrite E2|].
  by apply lt_false.
Qed.

(** C3 as stated fails three times.  The completion flag is never lowered:
    after a section ending at the well bottom (1000) the flag is up, and it
    stays up when a further section ending at 1500 becomes the last one.
    Raw fields that carry a top of their own keep it: the first section
    then starts at 50, not at the well top 0.  And the section that is last
    in the order by top need not be the deepest: after calls with the
    bottoms 700, 300 and 1000 the section ending at the well bottom stands
    in the middle, and the flag is down. *)
Lemma top_down_claim_fails :
  (∃ w2,
     add_sections example_well_top_down
       [raw_fields "surface" 1000 950; raw_fields "liner" 1500 1400] = Ok w2
     ∧ complete w2 = true
     ∧ bottom_reached w2 = false)
  ∧ (∃ w1 s,
       add_section_with_properties example_well_top_down
         (<["top" := VNum 50]> (raw_fields "surface" 1000 950)) = Ok w1
       ∧ values (sections w1) = [s]
       ∧ s !! "top" = Some (VNum 50)
       ∧ top example_well_top_down = 0)
  ∧ (∃ w3,
       add_sections example_well_top_down
         [raw_fields "surface" 700 700; raw_fields "intermediate" 300 300;
          raw_fields "production" 1000 950] = Ok w3
       ∧ (fun s : section => s !! "bottom") <$> values (sections w3)
         = [Some (VNum 700); Some (VNum 1000); Some (VNum 300)]
       ∧ bottom w3 = 1000
       ∧ complete w3 = false).
Proof.
  split; [|split].
  - assert (H : match add_sections example_well_top_down
                        [raw_fields "surface" 1000 950;
                         raw_fields "liner" 1500 1400] with
                | Ok w => Some (complete w, bottom_reached w)
                | Raise _ => None
                end = Some (true, false)) by (vm_compute; reflexivity).
    destruct (add_sections _ _) as [w2|]; [|discriminate].
    injection H as H1 H2. by exists w2.
  - assert (H : match add_section_with_properties example_well_top_down
                        (<["top" := VNum 50]> (raw_fields "surface" 1000 950))
                with
                | Ok w => Some ((fun s : section => s !! "top")
                                <$> values (sections w))
                | Raise _ => None
                end = Some [Some (VNum 50)]) by (vm_compute; reflexivity).
    destruct (add_section_with_properties _ _) as [w1|]; [|discriminate].
    injection H as H.
    destruct (values (sections w1)) as [|s [|s' l]] eqn:E; try discriminate.
    injection H as H. exists w1, s.
    split; [reflexivity|]. split; [exact E|].
    split; [exact H | reflexivity].
  - assert (H : match add_sections example_well_top_down
                        [raw_fields "surface" 700 700;
                         raw_fields "intermediate" 300 300;
                         raw_fields "production" 1000 950] with
                | Ok w => Some ((fun s : section => s !! "bottom")
                                <$> values (sections w), bottom w, complete w)
                | Raise _ => None
                end = Some ([Some (VNum 700); Some (VNum 1000);
                             Some (VNum 300)], 1000, false))
      by (vm_compute; reflexivity).
    destruct (add_sections _ _) as [w3|]; [|discriminate].
    injection H as H1 H2 H3. by exists w3.
Qed.

Lemma top_insert_update (kwargs : section) (v : pyval) :
  kwargs !! "top" = None →
  update (<["top" := v]> ∅) kwargs = <["top" := v]> kwargs.
Proof.
  intros H. unfold update. rewrite insert_empty.
  symmetry. by apply insert_union_singleton_r.
Qed.

(** What the stored section of a top-down insertion holds. *)
Lemma stored_top_down_lookup (boundary : Q) (kwargs : section) :
  (∀ k v, kwargs !! k = Some v →
          stored_top_down boundary kwargs !! k = Some v)
  ∧ (kwargs !! "top" = None →
     stored_top_down boundary kwargs !! "top" = Some (VNum boundary))
  ∧ (∀ k, k ≠ "top" → stored_top_down boundary kwargs !! k = kwargs !! k).
Proof.
  unfold stored_top_down. split; [|split].
  - intros k v H. by apply update_lookup_kwargs.
  - intros H. rewrite update_lookup_base by done. apply lookup_insert_eq.
  - intros k Hk. destruct (kwargs !! k) as [v|] eqn:E.
    + by apply update_lookup_kwargs.
    + rewrite update_lookup_base by done. by rewrite lookup_insert_ne.
Qed.

(** A run of top-down insertions keeps the well staged. *)
Lemma add_sections_top_down (calls : list section) (self : t) :
  method self = "top_down" →
  staged_top_down self →
  Forall top_down_call calls →
  ∃ self',
    add_sections self calls = Ok self'
    ∧ staged_top_down self'
    ∧ method self' = "top_down"
    ∧ length (sections self') = (length (sections self) + length calls)%nat
    ∧ (calls ≠ [] →
       Sorted (key_order top_key false) (values (sections self')))
    ∧ (complete self = true → complete self' = true).
Proof.
  revert self. induction calls as [|kwargs calls IH]; intros self Hm Hst Hc.
  - exists self. cbn. rewrite Nat.add_0_r. done.
  - apply Forall_cons in Hc as [(Hreq & [b Hb] & Htop) Hc].
    destruct (add_section_top_down_new_staged self kwargs b Hst Hb Htop)
      as (w1 & bd & Hadd & _ & Hperm & _ & Hsorted & Hcomp & Hst1 & Hm1 & _).
    rewrite Hm in Hm1.
    destruct (IH w1 Hm1 Hst1 Hc) as (w2 & Hrun & Hst2 & Hm2 & Hlen & Hs2 & Hc2).
    exists w2. cbn [add_sections].
    rewrite (add_section_with_properties_complete _ _ Hreq), Hm.
    cbn [String.eqb Ascii.eqb Bool.eqb]. rewrite Hadd.
    cbn [mbind pyresult_bind].
    split; [exact Hrun|]. split; [exact Hst2|]. split; [exact Hm2|].
    assert (Hl1 : length (sections w1) = S (length (sections self))).
    { apply Permutation_length in Hperm. unfold values in Hperm.
      rewrite length_app, !length_map in Hperm. cbn in Hperm. lia. }
    split; [rewrite Hlen, Hl1; cbn; lia|].
    split.
    + intros _. destruct calls as [|c calls']; [|by apply Hs2].
      cbn in Hrun. by injection Hrun as <-.
    + intros Hcs. apply Hc2. rewrite Hcomp, Hcs. done.
Qed.

(** C3 (amended). A new top-down well is staged with no section and the
    flag down.  On a staged top-down well, addSection with raw fields that
    hold every required parameter, a numeric bottom and, if they carry a
    top, a numeric one, returns.  The derived top is the well top when no
    section is staged and else the bottom of the section that was last.
    The stored section is the raw fields with the derived top, unless they
    carry a top of their own, which is then stored as given.  The sections
    are the old ones and the stored one, sorted ascending by top and keyed
    0..n-1.  The completion flag is up afterwards exactly when it was up
    before or the bottom of the section that is last in this order equals
    the well bottom.  The well is staged again, so this holds after every
    insertion of a run. *)
Theorem top_down_assembly :
  (∀ (name : string) (top bottom md tvd tol fg : Q) (self : t),
     new name top bottom md tvd tol fg "top_down" = Ok self →
     staged_top_down self ∧ method self = "top_down"
     ∧ sections self = [] ∧ complete self = false)
  ∧ (∀ (self : t) (kwargs : section),
       method self = "top_down" →
       staged_top_down self →
       top_down_call kwargs →
       ∃ (self' : t) (boundary : Q) (stored : section),
         add_section_with_properties self kwargs = Ok self'
         ∧ match last (values (sections self)) with
           | None => boundary = top self
           | Some prev => prev !! "bottom" = Some (VNum boundary)
           end
         ∧ (kwargs !! "top" = None →
            stored !! "top" = Some (VNum boundary))
         ∧ (∀ k v, kwargs !! k = Some v → stored !! k = Some v)
         ∧ (∀ k, k ≠ "top" → stored !! k = kwargs !! k)
         ∧ values (sections self') ≡ₚ values (sections self) ++ [stored]
         ∧ sections self' = indexed (values (sections self'))
         ∧ Sorted (key_order top_key false) (values (sections self'))
         ∧ (complete self' = true
            ↔ complete self = true ∨ bottom_reached self' = true)
         ∧ staged_top_down self'
         ∧ method self' = "top_down"
         ∧ top self' = top self
         ∧ bottom self' = bottom self)
  ∧ (∀ (self : t) (calls : list section),
       method self = "top_down" →
       staged_top_down self →
       Forall top_down_call calls →
       ∃ self',
         add_sections self calls = Ok self'
         ∧ staged_top_down self'
         ∧ length (sections self')
           = (length (sections self) + length calls)%nat
         ∧ (calls ≠ [] →
            Sorted (key_order top_key false) (values (sections self')))
         ∧ (complete self = true → complete self' = true)).
Proof.
  split; [|split].
  - intros name top bottom md tvd tol fg self H.
    apply new_fresh in H as [-> _]. repeat split. constructor.
  - intros self kwargs Hm Hst (Hreq & [b Hb] & Htop).
    destruct (add_section_top_down_new_staged self kwargs b Hst Hb Htop)
      as (w1 & bd & Hadd & Hbd & Hperm & Hidx & Hsorted & Hcomp & Hst1
          & Hm1 & Ht & Hbt).
    destruct (stored_top_down_lookup bd kwargs) as (Hk1 & Hk2 & Hk3).
    exists w1, bd, (stored_top_down bd kwargs).
    rewrite (add_section_with_properties_complete _ _ Hreq), Hm.
    cbn [String.eqb Ascii.eqb Bool.eqb].
    split; [exact Hadd|]. split; [exact Hbd|].
    split; [exact Hk2|]. split; [exact Hk1|]. split; [exact Hk3|].
    split; [exact Hperm|].
    split; [exact Hidx|]. split; [exact Hsorted|].
    split.
    { rewrite Hcomp. apply orb_true_iff. }
    split; [exact Hst1|]. split; [by rewrite Hm1|]. done.
  - intros self calls Hm Hst Hc.
    destruct (add_sections_top_down calls self Hm Hst Hc)
      as (w & H1 & H2 & _ & H3 & H4 & H5).
    by exists w.
Qed.

Lemma all_required_check (kwargs : section) :
  forallb (contains kwargs) required_params = true → all_required kwargs.
Proof.
  unfold all_required. induction required_params as [|p ps IH]; cbn.
  - constructor.
  - intros H. apply andb_true_iff in H as [Hp Hps].
    constructor; [by apply contains_true | by apply IH].
Qed.

Lemma raw_fields_required (label : string) (bottom tvd : Q) :
  all_required (raw_fields label bottom tvd).
Proof. apply all_required_check. vm_compute. reflexivity. Qed.

Lemma raw_fields_top_down_call (label : string) (bottom tvd : Q) :
  top_down_call (raw_fields label bottom tvd).
Proof.
  split; [apply raw_fields_required|].
  split; [exists bottom; reflexivity | left; reflexivity].
Qed.

Lemma raw_fields_top_required (label : string) (top bottom tvd : Q) :
  top_down_call (<["top" := VNum top]> (raw_fields label bottom tvd)).
Proof.
  split; [apply all_required_check; vm_compute; reflexivity|].
  split; [exists bottom; reflexivity | right; exists top; reflexivity].
Qed.

Lemma example_well_surface_staged : staged_top_down example_well_surface.
Proof.
  split; [reflexivity|].
  apply Forall_cons. split; [|constructor].
  split; [exists 0; reflexivity | exists 500; reflexivity].
Qed.

(** The theorem at a well with the surface string staged down to 500: the
    production string to 1000 starts at 500 and raises the flag; and at a
    run of three calls on the empty well, the second with a top of its
    own. *)
Lemma top_down_assembly_witness :
  (∃ self' stored,
     add_section_with_properties example_well_surface
       (raw_fields "production" 1000 950) = Ok self'
     ∧ stored !! "top" = Some (VNum 500)
     ∧ values (sections self')
       ≡ₚ values (sections example_well_surface) ++ [stored]
     ∧ Sorted (key_order top_key false) (values (sections self')))
  ∧ (∃ self',
       add_sections example_well_top_down
         [raw_fields "surface" 300 300;
          <["top" := VNum 350]> (raw_fields "intermediate" 700 700);
          raw_fields "production" 1000 950] = Ok self'
       ∧ length (sections self') = 3%nat
       ∧ Sorted (key_order top_key false) (values (sections self'))).
Proof.
  split.
  - destruct (proj1 (proj2 top_down_assembly) example_well_surface
                (raw_fields "production" 1000 950) eq_refl
                example_well_surface_staged
                (raw_fields_top_down_call "production" 1000 950))
      as (w & bd & st & H1 & Hbd & Htop & _ & _ & Hperm & _ & Hsorted & _).
    assert (Hb : bd = 500).
    { vm_compute in Hbd. by injection Hbd. }
    subst bd. exists w, st.
    split; [exact H1|]. split; [by apply Htop|]. split; assumption.
  - destruct (proj2 (proj2 top_down_assembly) example_well_top_down
                [raw_fields "surface" 300 300;
                 <["top" := VNum 350]> (raw_fields "intermediate" 700 700);
                 raw_fields "production" 1000 950] eq_refl)
      as (w & H1 & _ & Hlen & Hsorted & _).
    + split; [reflexivity | constructor].
    + apply Forall_cons. split; [apply raw_fields_top_down_call|].
      apply Forall_cons. split; [apply raw_fields_top_required|].
      apply Forall_cons. split; [apply raw_fields_top_down_call|].
      constructor.
    + exists w. split; [exact H1|]. split; [exact Hlen|].
      by apply Hsorted.
Defined.

End top_down_claim.

Section bottom_up_claim.
Import WellBoreExpanded.

(** C4 as stated fails: addSection requires a bottom among the raw fields,
    and the stored section keeps it, so the first section of a well ending
    at 1000 ends at 800 when the raw fields say so. *)
Lemma bottom_up_claim_fails :
  ∃ w1 s,
    add_section_with_properties example_well_bottom_up
      (<["length" := VNum 300]> (raw_fields "production" 800 800)) = Ok w1
    ∧ values (sections w1) = [s]
    ∧ s !! "bottom" = Some (VNum 800)
    ∧ bottom example_well_bottom_up = 1000.
Proof.
  assert (H : match add_section_with_properties example_well_bottom_up
                      (<["length" := VNum 300]>
                         (raw_fields "production" 800 800)) with
              | Ok w => Some ((fun s : section => s !! "bottom")
                              <$> values (sections w))
              | Raise _ => None
              end = Some [Some (VNum 800)]) by (vm_compute; reflexivity).
  destruct (add_section_with_properties _ _) as [w1|]; [|discriminate].
  injection H as H.
  destruct (values (sections w1)) as [|s [|s' l]] eqn:E; try discriminate.
  injection H as H. exists w1, s.
  split; [reflexivity|]. split; [exact E|].
  split; [exact H | reflexivity].
Qed.

(** A run of bottom-up insertions keeps the well staged. *)
Lemma add_sections_bottom_up (calls : list section) (self : t) :
  method self = "bottom_up" →
  staged_bottom_up self →
  Forall bottom_up_call calls →
  ∃ self',
    add_sections self calls = Ok self'
    ∧ staged_bottom_up self'
    ∧ method self' = "bottom_up"
    ∧ length (sections self') = (length (sections self) + length calls)%nat
    ∧ (calls ≠ [] →
       Sorted (key_order depth_key true) (values (sections self')))
    ∧ (complete self = true → complete self' = true).
Proof.
  revert self. induction calls as [|kwargs calls IH]; intros self Hm Hst Hc.
  - exists self. cbn. rewrite Nat.add_0_r. done.
  - apply Forall_cons in Hc as [[Hreq Hplain] Hc].
    destruct (add_section_bottom_up_new_staged self kwargs Hst Hplain)
      as (w1 & bd & dv & Hadd & _ & _ & Hperm & _ & Hsorted & Hcomp & Hst1
          & Hm1 & _).
    rewrite Hm in Hm1.
    destruct (IH w1 Hm1 Hst1 Hc) as (w2 & Hrun & Hst2 & Hm2 & Hlen & Hs2 & Hc2).
    exists w2. cbn [add_sections].
    rewrite (add_section_with_properties_complete _ _ Hreq), Hm.
    cbn [String.eqb Ascii.eqb Bool.eqb]. rewrite Hadd.
    cbn [mbind pyresult_bind].
    split; [exact Hrun|]. split; [exact Hst2|]. split; [exact Hm2|].
    assert (Hl1 : length (sections w1) = S (length (sections self))).
    { apply Permutation_length in Hperm. unfold values in Hperm.
      rewrite length_app, !length_map in Hperm. cbn in Hperm. lia. }
    split; [rewrite Hlen, Hl1; cbn; lia|].
    split.
    + intros _. destruct calls as [|c calls']; [|by apply Hs2].
      cbn in Hrun. by injection Hrun as <-.
    + intros Hcs. apply Hc2. rewrite Hcomp, Hcs. done.
Qed.

(** C4 (amended). A new bottom-up well is staged with no section and the
    flag down.  On a staged bottom-up well an insertion with raw fields
    whose depth keys (top, bottom, md_top, md_bottom, length) hold numbers
    when present returns.  The derived bottom is the well bottom when no
    section is staged.  The derived top is max(derived bottom - length,
    well top) when a length is supplied, else the supplied top, else the
    well top.  The stored section is the raw fields completed with the
    derived top and bottom: a top or bottom that the raw fields carry (and
    addSection requires a bottom) is stored as given.  The sections are the
    old ones and the stored one, sorted descending by md_bottom if present
    else bottom and keyed 0..n-1.  The completion flag is never lowered,
    and the first insertion raises it exactly when the stored top equals
    the well top.  addSection with every required parameter is this
    insertion, and a run of such calls returns. *)
Theorem bottom_up_assembly :
  (∀ (name : string) (top bottom md tvd tol fg : Q) (self : t),
     new name top bottom md tvd tol fg "bottom_up" = Ok self →
     staged_bottom_up self ∧ method self = "bottom_up"
     ∧ sections self = [] ∧ complete self = false)
  ∧ (∀ (self : t) (kwargs : section),
       staged_bottom_up self →
       plain_depths kwargs →
       ∃ (self' : t) (boundary derived : Q) (stored : section),
         add_section_bottom_up_new self kwargs = Ok self'
         ∧ (sections self = [] → boundary = bottom self)
         ∧ derived == expected_top (top self) boundary kwargs
         ∧ stored = update (<["top" := VNum derived]>
                              (<["bottom" := VNum boundary]> ∅)) kwargs
         ∧ (kwargs !! "bottom" = None →
            stored !! "bottom" = Some (VNum boundary))
         ∧ (kwargs !! "top" = None → stored !! "top" = Some (VNum derived))
         ∧ (∀ k v, kwargs !! k = Some v → stored !! k = Some v)
         ∧ values (sections self') ≡ₚ values (sections self) ++ [stored]
         ∧ sections self' = indexed (values (sections self'))
         ∧ Sorted (key_order depth_key true) (values (sections self'))
         ∧ (complete self = true → complete self' = true)
         ∧ (sections self = [] →
            ∃ t : Q, stored !! "top" = Some (VNum t)
                     ∧ (complete self' = true
                        ↔ complete self = true ∨ t == top self))
         ∧ staged_bottom_up self'
         ∧ method self' = method self
         ∧ top self' = top self
         ∧ bottom self' = bottom self)
  ∧ (∀ (self : t) (kwargs : section),
       method self = "bottom_up" →
       all_required kwargs →
       add_section_with_properties self kwargs
       = add_section_bottom_up_new self kwargs)
  ∧ (∀ (self : t) (calls : list section),
       method self = "bottom_up" →
       staged_bottom_up self →
       Forall bottom_up_call calls →
       ∃ self',
         add_sections self calls = Ok self'
         ∧ staged_bottom_up self'
         ∧ length (sections self')
           = (length (sections self) + length calls)%nat
         ∧ (calls ≠ [] →
            Sorted (key_order depth_key true) (values (sections self')))
         ∧ (complete self = true → complete self' = true)).
Proof.
  split; [|split; [|split]].
  - intros name top bottom md tvd tol fg self H.
    apply new_fresh in H as [-> _]. repeat split. constructor.
  - intros self kwargs Hst Hplain.
    destruct (add_section_bottom_up_new_staged self kwargs Hst Hplain)
      as (w1 & bd & dv & Hadd & Hbd & Hexp & Hperm & Hidx & Hsorted & Hcomp
          & Hst1 & Hm & Ht & Hb).
    eexists w1, bd, dv, _.
    split; [exact Hadd|].
    split.
    { intros He. rewrite He in Hbd. exact Hbd. }
    split; [exact Hexp|].
    split; [reflexivity|].
    split.
    { intros Hn. rewrite update_lookup_base by done.
      rewrite lookup_insert_ne by done. by rewrite lookup_insert_eq. }
    split.
    { intros Hn. rewrite update_lookup_base by done.
      by rewrite lookup_insert_eq. }
    split; [intros k v Hk; by apply update_lookup_kwargs|].
    split; [exact Hperm|]. split; [exact Hidx|]. split; [exact Hsorted|].
    split; [intros Hc; by rewrite Hcomp, Hc|].
    split; [|done].
    intros He. rewrite He in Hperm. cbn in Hperm.
    symmetry in Hperm. apply Permutation_length_1_inv in Hperm.
    destruct Hst1 as [_ Hnum]. rewrite Hperm in Hnum.
    apply Forall_cons in Hnum as [[[t Htop] _] _].
    exists t. split; [exact Htop|].
    rewrite Hcomp. unfold top_reached. rewrite Hperm. cbn [head].
    rewrite Htop. cbn [py_eq_num VNum]. rewrite Ht.
    rewrite orb_true_iff, Qeq_bool_iff. done.
  - intros self kwargs Hm Hreq.
    rewrite (add_section_with_properties_complete _ _ Hreq), Hm.
    reflexivity.
  - intros self calls Hm Hst Hc.
    destruct (add_sections_bottom_up calls self Hm Hst Hc)
      as (w & H1 & H2 & _ & H3 & H4 & H5).
    by exists w.
Qed.

Lemma raw_fields_plain_depths (label : string) (bottom tvd : Q) :
  plain_depths (raw_fields label bottom tvd).
Proof.
  unfold plain_depths.
  apply Forall_cons; split; [left; reflexivity|].
  apply Forall_cons; split; [right; exists bottom; reflexivity|].
  apply Forall_cons; split; [left; reflexivity|].
  apply Forall_cons; split; [left; reflexivity|].
  apply Forall_cons; split; [left; reflexivity|].
  constructor.
Qed.

Lemma raw_fields_length_plain_depths (label : string) (len bottom tvd : Q) :
  plain_depths (<["length" := VNum len]> (raw_fields label bottom tvd)).
Proof.
  unfold plain_depths.
  apply Forall_cons; split; [left; reflexivity|].
  apply Forall_cons; split; [right; exists bottom; reflexivity|].
  apply Forall_cons; split; [left; reflexivity|].
  apply Forall_cons; split; [left; reflexivity|].
  apply Forall_cons; split; [right; exists len; reflexivity|].
  constructor.
Qed.

Lemma example_well_production_staged :
  staged_bottom_up example_well_production.
Proof.
  split; [reflexivity|].
  apply Forall_cons. split; [|constructor].
  split; [exists 700; reflexivity|].
  split; [exists 1000; reflexivity|].
  split; left; reflexivity.
Qed.

(** The theorem at a well with the production string staged from 700 to
    1000, where the surface string down to 700 is stored with the well top
    0; and at a run of two calls on the empty well. *)
Lemma bottom_up_assembly_witness :
  (∃ self' stored derived,
     add_section_bottom_up_new example_well_production
       (raw_fields "surface" 700 700) = Ok self'
     ∧ stored !! "top" = Some (VNum derived)
     ∧ derived == 0
     ∧ stored !! "bottom" = Some (VNum 700)
     ∧ values (sections self')
       ≡ₚ values (sections example_well_production) ++ [stored]
     ∧ Sorted (key_order depth_key true) (values (sections self')))
  ∧ (∃ self',
       add_sections example_well_bottom_up
         [<["length" := VNum 300]> (raw_fields "production" 1000 950);
          raw_fields "surface" 700 700] = Ok self'
       ∧ length (sections self') = 2%nat
       ∧ Sorted (key_order depth_key true) (values (sections self'))).
Proof.
  split.
  - destruct (proj1 (proj2 bottom_up_assembly) example_well_production
                (raw_fields "surface" 700 700)
                example_well_production_staged
                (raw_fields_plain_depths "surface" 700 700))
      as (w & bd & dv & st & H1 & _ & Hdv & _ & _ & Htop & Hkw & Hperm & _
          & Hsorted & _).
    exists w, st, dv.
    split; [exact H1|]. split; [by apply Htop|]. split; [exact Hdv|].
    split; [by apply Hkw|]. split; assumption.
  - destruct (proj2 (proj2 (proj2 bottom_up_assembly))
                example_well_bottom_up
                [<["length" := VNum 300]> (raw_fields "production" 1000 950);
                 raw_fields "surface" 700 700] eq_refl)
      as (w & H1 & _ & Hlen & Hsorted & _).
    + split; [reflexivity | constructor].
    + apply Forall_cons. split.
      { split; [apply all_required_check; vm_compute; reflexivity|].
        apply raw_fields_length_plain_depths. }
      apply Forall_cons. split.
      { split; [apply raw_fields_required|].
        apply raw_fields_plain_depths. }
      constructor.
    + exists w. split; [exact H1|]. split; [exact Hlen|].
      by apply Hsorted.
Defined.

End bottom_up_claim.

Section rekeying.
Import WellBoreExpanded.
Context {V : Type}.
Implicit Types (vs : list V) (labels : list string) (d : list (key * V)).

Lemma dict_pop_head (k : key) (v : V) d :
  dict_pop k ((k, v) :: d) = Some (v, d).
Proof. cbn. by rewrite decide_True. Qed.

Lemma KStr_not_indexed (label : string) (i : nat) vs :
  KStr label ∉ keys (indexed_from i vs).
Proof.
  rewrite keys_indexed_from. intros H.
  apply list_elem_of_fmap in H as (n & [=] & _).
Qed.

(** The loop of [create_variables] with [done] already re-keyed. *)
Lemma rekey_from_spec labels : ∀ (i : nat) vs d,
  length labels = length vs →
  NoDup labels →
  (∀ label, label ∈ labels → KStr label ∉ keys d) →
  rekey_from i labels (indexed_from i vs ++ d)
  = Ok (d ++ zip (KStr <$> labels) vs).
Proof.
  induction labels as [|label labels IH]; intros i vs d Hlen Hnd Hfresh.
  - destruct vs; [|done]. cbn. by rewrite app_nil_r.
  - destruct vs as [|v vs]; [done|].
    apply NoDup_cons in Hnd as [Hnotin Hnd].
    cbn [rekey_from indexed_from]. unfold rekey.
    rewrite <- app_comm_cons, dict_pop_head.
    cbn [mbind pyresult_bind].
    rewrite dict_set_new.
    2: { unfold keys. rewrite map_app. intros Hin.
         apply elem_of_app in Hin as [Hin|Hin].
         - by apply (KStr_not_indexed label (S i) vs).
         - apply (Hfresh label); [left | exact Hin]. }
    rewrite <- app_assoc. rewrite IH.
    + cbn. by rewrite <- app_assoc.
    + cbn in Hlen. lia.
    + exact Hnd.
    + intros l Hl. unfold keys. rewrite map_app. intros Hin.
      apply elem_of_app in Hin as [Hin|Hin].
      * apply (Hfresh l); [by right | exact Hin].
      * cbn in Hin. apply list_elem_of_singleton in Hin.
        injection Hin as ->. done.
Qed.

Lemma dict_get_zip (ks : list key) vs (i : nat) (k : key) (v : V) :
  NoDup ks → ks !! i = Some k → vs !! i = Some v →
  dict_get k (zip ks vs) = Some v.
Proof.
  revert vs i. induction ks as [|k0 ks IH]; intros vs i Hnd Hk Hv; [done|].
  destruct vs as [|v0 vs]; [done|].
  apply NoDup_cons in Hnd as [Hnotin Hnd]. cbn.
  destruct i as [|i]; cbn in Hk, Hv.
  - injection Hk as ->. injection Hv as ->. by rewrite decide_True.
  - rewrite decide_False; [by eapply IH|].
    intros ->. apply Hnotin. by eapply list_elem_of_lookup_2.
Qed.

(** C9 (amended). For every collection of sections keyed 0..n-1 and every
    list of n pairwise distinct casing-type labels, [create_variables]
    returns the collection keyed by the labels: the keys are the labels in
    the order of the positions, the sections are unchanged and in the same
    order, and each is found under its label. *)
Theorem rekey_preserves vs labels :
  length labels = length vs →
  NoDup labels →
  ∃ out,
    create_variables_on labels (indexed vs) = Ok out
    ∧ keys out = KStr <$> labels
    ∧ values out = vs
    ∧ (∀ (i : nat) (label : string) (v : V),
         labels !! i = Some label → vs !! i = Some v →
         subscript out (KStr label) = Ok v).
Proof.
  intros Hlen Hnd. exists (zip (KStr <$> labels) vs).
  split.
  { unfold create_variables_on, indexed.
    rewrite <- (app_nil_r (indexed_from 0 vs)).
    rewrite rekey_from_spec; [done..|]. intros l _ H. inversion H. }
  split; [apply fst_zip; rewrite length_fmap; lia|].
  split; [apply snd_zip; rewrite length_fmap; lia|].
  intros i label v Hl Hv. unfold subscript.
  rewrite (dict_get_zip (KStr <$> labels) vs i (KStr label) v); [done| | |done].
  - apply NoDup_fmap_2; [|done]. intros ?? [=]. done.
  - by rewrite list_lookup_fmap, Hl.
Qed.

End rekeying.

Section rekeying_examples.
Import WellBoreExpanded.

(** C9 as stated fails when two sections carry the same label: of two
    intermediate strings only the second one is left, under the one key. *)
Lemma rekey_loses_duplicate_label :
  ∃ out,
    create_variables_on ["intermediate"; "intermediate"]
      (indexed [raw_fields "intermediate" 5000 5000;
                raw_fields "intermediate" 9000 9000]) = Ok out
    ∧ keys out = [KStr "intermediate"]
    ∧ values out = [raw_fields "intermediate" 9000 9000].
Proof. eexists. split; [reflexivity|]. split; reflexivity. Qed.

Lemma rekey_preserves_witness :
  ∃ out,
    create_variables_on ["surface"; "production"]
      (indexed [raw_fields "surface" 2000 2000;
                raw_fields "production" 9000 9000]) = Ok out
    ∧ keys out = KStr <$> ["surface"; "production"]
    ∧ values out = [raw_fields "surface" 2000 2000;
                    raw_fields "production" 9000 9000].
Proof.
  destruct (rekey_preserves
              [raw_fields "surface" 2000 2000;
               raw_fields "production" 9000 9000]
              ["surface"; "production"])
    as (out & H1 & H2 & H3 & _).
  - reflexivity.
  - apply (bool_decide_unpack _). reflexivity.
  - exists out. split; [exact H1|]. split; assumption.
Defined.

End rekeying_examples.

(** ** Further properties of the calculator *)

Section calculator_extras.
Import CasingDataCalc.

Lemma calculate_cement_height_cases (self : t) :
  let a := inp self in
  if gt (csg_size a) 0
     && Qeq_bool (annular_volume_per_foot (hole_size a) (washout a)
                    (csg_size a)) 0
  then calculate_cement_height self = Raise ZeroDivisionError
  else ∃ h, calculate_cement_height self = Ok h.
Proof.
  intros a. subst a.
  unfold calculate_cement_height, cement_height_branch.
  fold (annular_volume_per_foot (hole_size (inp self)) (washout (inp self))
          (csg_size (inp self))).
  destruct (gt (csg_size (inp self)) 0); cbn [andb]; [|by eexists].
  unfold py_div64. destruct (Qeq_bool _ 0); [done | by eexists].
Qed.

Lemma calculateData_Ok_cement (self self' : t) :
  calculateData self = Ok self' →
  ∃ h, calculate_cement_height self = Ok h.
Proof.
  intros H. destruct (calculate_cement_height self) as [h|e] eqn:E;
    [by eexists|].
  unfold calculateData in H.
  set (s1 := set_annular_volume _ (set_frac_init_pressure _ self)) in H.
  rewrite (calculate_cement_height_inp s1 self eq_refl), E in H.
  discriminate.
Qed.

(** A calculation fails exactly when the cement height does: the casing
    has a positive outer diameter and the annular volume per foot, computed
    in binary64 from the hole size, the washout and the outer diameter, is
    0.  It then raises [ZeroDivisionError]; in every other case it
    returns. *)
Theorem calculateData_total_iff (self : t) :
  let a := inp self in
  let effective_hole_size :=
    b64_mul (hole_size a) (b64_add 1 (b64_div (washout a) 100)) in
  let annular_volume_per_foot :=
    b64_div (b64_sub (b64_sq effective_hole_size) (b64_sq (csg_size a)))
      (b64 183.35) in
  (returns (calculateData self)
   ↔ ¬ (0 < csg_size a ∧ annular_volume_per_foot == 0))
  ∧ (0 < csg_size a ∧ annular_volume_per_foot == 0 →
     calculateData self = Raise ZeroDivisionError).
Proof.
  intros a eff avpf. subst a.
  pose proof (calculate_cement_height_cases self) as Hc.
  cbn zeta in Hc.
  change (annular_volume_per_foot (hole_size (inp self))
            (washout (inp self)) (csg_size (inp self))) with avpf in Hc.
  destruct (gt (csg_size (inp self)) 0) eqn:Eg; cbn [andb] in Hc.
  - apply gt_true in Eg.
    destruct (Qeq_bool avpf 0) eqn:Ee.
    + apply Qeq_bool_iff in Ee.
      assert (Hd : calculateData self = Raise ZeroDivisionError).
      { destruct (calculateData self) as [s|e] eqn:E.
        - apply calculateData_Ok_cement in E as [h Hh]. congruence.
        - apply calculateData_raise in E. congruence. }
      split; [|done]. rewrite Hd. split; [intros [s Hs]; done | tauto].
    + apply Qeq_bool_neq in Ee. destruct Hc as [h Hh].
      split; [|tauto]. split; [tauto|]. intros _.
      destruct (calculateData self) as [s|e] eqn:E; [by eexists|].
      apply calculateData_raise in E. congruence.
  - apply gt_false in Eg. destruct Hc as [h Hh].
    assert (Hn : ¬ 0 < csg_size (inp self))
      by (intros Hp; exact (Qlt_not_le _ _ Hp Eg)).
    split; [|tauto]. split; [tauto|]. intros _.
    destruct (calculateData self) as [s|e] eqn:E; [by eexists|].
    apply calculateData_raise in E. congruence.
Qed.

(** An 11 in casing in a 10 in hole with 10 percent washout: the computed
    hole size is 11, and the calculation raises.  A 55 in casing in a 50 in
    hole with 10 percent washout: the computed hole size is
    55.00000000000001, and the calculation returns. *)
Lemma calculateData_total_iff_witness :
  calculateData example_tight = Raise ZeroDivisionError
  ∧ returns (calculateData (example_casing 50 10 55)).
Proof.
  split.
  - apply (proj2 (calculateData_total_iff example_tight)).
    split; [reflexivity | vm_compute; reflexivity].
  - apply (proj1 (calculateData_total_iff (example_casing 50 10 55))).
    intros [_ H]. vm_compute in H. discriminate.
Defined.

(** The top of cement is [max(0, set_depth - cement_height)]: it is never
    negative, and never deeper than the shoe when the cement has a height. *)
Theorem calculate_toc_bounds (self : t) (h : Q) :
  calculate_cement_height self = Ok h →
  ∃ toc, calculate_toc self = Ok toc
         ∧ toc == Qmax 0 (set_depth (inp self) - h)
         ∧ 0 <= toc
         ∧ (0 <= h → 0 <= set_depth (inp self) →
            toc <= set_depth (inp self)).
Proof.
  intros Hh. unfold calculate_toc. rewrite Hh. cbn [mbind pyresult_bind].
  destruct (lt _ 0) eqn:E.
  - apply lt_true in E. exists 0. split; [done|].
    split; [symmetry; apply Q.max_l, Qlt_le_weak, E|].
    split; [apply Qle_refl | tauto].
  - apply lt_false in E. eexists. split; [done|].
    split; [symmetry; by apply Q.max_r|].
    split; [exact E|]. intros H0 _.
    rewrite <- (Qplus_0_r (set_depth (inp self))) at 2.
    unfold Qminus. apply Qplus_le_r.
    apply (Qopp_le_compat 0 h) in H0. exact H0.
Qed.

Lemma calculate_toc_bounds_witness :
  ∃ h toc,
    calculate_cement_height example_self = Ok h
    ∧ calculate_toc example_self = Ok toc
    ∧ toc == Qmax 0 (set_depth (inp example_self) - h)
    ∧ 0 <= toc
    ∧ toc <= set_depth (inp example_self).
Proof.
  assert (Hh : ∃ h, calculate_cement_height example_self = Ok h ∧ 0 <= h).
  { eexists. split; [vm_compute; reflexivity | by vm_compute]. }
  destruct Hh as (h & Hh & Hpos).
  destruct (calculate_toc_bounds example_self h Hh)
    as (toc & H1 & H2 & H3 & H4).
  exists h, toc. split; [exact Hh|]. split; [exact H1|].
  split; [exact H2|]. split; [exact H3|].
  apply H4; [exact Hpos | by vm_compute].
Defined.

(** The maximum anticipated surface pressure is the largest of the pore
    and the mud differential and zero: never negative, and at least each of
    the two differentials. *)
Theorem calculate_masp_bounds (self : t) :
  let a := inp self in
  let from_pore := 0.465 * tvd a - int_gradient a * tvd a in
  let from_mud := 0.05194806 * tvd a * mud_weight a - int_gradient a * tvd a in
  calculate_masp self == Qmax (Qmax from_pore from_mud) 0
  ∧ 0 <= calculate_masp self
  ∧ from_pore <= calculate_masp self
  ∧ from_mud <= calculate_masp self.
Proof.
  intros a from_pore from_mud.
  assert (H : calculate_masp self == Qmax (Qmax from_pore from_mud) 0).
  { unfold calculate_masp, py_max3. rewrite py_max_Qmax.
    apply Q.max_compat; [|reflexivity]. apply py_max_Qmax. }
  split; [exact H|]. rewrite H.
  split; [apply Q.le_max_r|].
  split.
  - eapply Qle_trans; [apply Q.le_max_l | apply Q.le_max_l].
  - eapply Qle_trans; [apply Q.le_max_r | apply Q.le_max_l].
Qed.

(** The buoyed tension never exceeds the tension in air when the mud
    weight is not negative, the true vertical depth is not negative and the
    inner diameter lies between 0 and the outer diameter. *)
Theorem tension_buoyed_le_air (self : t) :
  let a := inp self in
  0 <= mud_weight a → 0 <= tvd a →
  0 <= csg_internal_diameter a → csg_internal_diameter a <= csg_size a →
  calculate_tension_buoyed self <= calculate_tension_air self.
Proof.
  intros a Hm Ht Hid Hod. subst a.
  unfold calculate_tension_buoyed, calculate_tension_air.
  set (area := math_pi / 4 * (csg_size (inp self) ^ 2
                              - csg_internal_diameter (inp self) ^ 2)).
  assert (Harea : 0 <= area).
  { unfold area. apply Qmult_le_0_compat; [by vm_compute|].
    assert (E : csg_size (inp self) ^ 2
                - csg_internal_diameter (inp self) ^ 2
                == (csg_size (inp self) - csg_internal_diameter (inp self))
                   * (csg_size (inp self) + csg_internal_diameter (inp self)))
      by ring.
    rewrite E. apply Qmult_le_0_compat.
    - unfold Qminus. rewrite <- (Qplus_opp_r (csg_internal_diameter (inp self))).
      by apply Qplus_le_l.
    - apply Qle_trans with (csg_internal_diameter (inp self) + 0).
      + by rewrite Qplus_0_r.
      + rewrite (Qplus_comm (csg_size _)). apply Qplus_le_r.
        by apply Qle_trans with (csg_internal_diameter (inp self)). }
  assert (Hk : ∀ d w, 0 <= d →
            (w - 0.05194806 * mud_weight (inp self) * d * area) / 1000
            <= w / 1000).
  { intros d w Hd. apply Qmult_le_compat_r; [|by vm_compute].
    rewrite <- (Qplus_0_r w) at 2. unfold Qminus. apply Qplus_le_r.
    apply (Qopp_le_compat 0). apply Qmult_le_0_compat; [|done].
    apply Qmult_le_0_compat; [|done].
    apply Qmult_le_0_compat; [by vm_compute | done]. }
  destruct (eqf _ _); apply Hk; [apply Qabs_nonneg | done].
Qed.

Lemma tension_buoyed_le_air_witness :
  calculate_tension_buoyed example_self <= calculate_tension_air example_self.
Proof.
  apply (tension_buoyed_le_air example_self); by vm_compute.
Defined.

(** The neutral point lies between the surface and the true vertical depth
    for a mud weight between 0 and the 65.4 ppg of steel. *)
Theorem calculate_neutral_point_bounds (self : t) :
  let a := inp self in
  0 <= tvd a → 0 <= mud_weight a → mud_weight a <= 65.4 →
  0 <= calculate_neutral_point self
  ∧ calculate_neutral_point self <= tvd a.
Proof.
  intros a Ht Hm Hs. subst a. unfold calculate_neutral_point.
  assert (H1 : 0 <= 1 - mud_weight (inp self) / 65.4).
  { unfold Qminus. rewrite <- (Qplus_opp_r (mud_weight (inp self) / 65.4)).
    apply Qplus_le_l. apply Qle_shift_div_r; [by vm_compute|].
    by rewrite Qmult_1_l. }
  assert (H2 : 1 - mud_weight (inp self) / 65.4 <= 1).
  { rewrite <- (Qplus_0_r 1) at 2. unfold Qminus. apply Qplus_le_r.
    apply (Qopp_le_compat 0). apply Qle_shift_div_l; [by vm_compute|].
    by rewrite Qmult_0_l. }
  split.
  - by apply Qmult_le_0_compat.
  - rewrite <- (Qmult_1_r (tvd (inp self))) at 2.
    rewrite !(Qmult_comm (tvd (inp self))).
    by apply Qmult_le_compat_r.
Qed.

Lemma calculate_neutral_point_bounds_witness :
  0 <= calculate_neutral_point example_self
  ∧ calculate_neutral_point example_self <= tvd (inp example_self).
Proof.
  apply (calculate_neutral_point_bounds example_self); by vm_compute.
Defined.

End calculator_extras.

(** ** Further properties of the design factors and the burst analysis *)

Section burst_extras.

(** The keys [calculateSoloMapsBurstLoadDF] reads. *)
Lemma solo_compute_ext (sec1 sec2 : section) :
  (∀ k, k ∈ ["mud_weight"; "tvd"; "backup_mud"; "frac_init_pressure";
             "int_gradient"; "burst_strength"] → sec1 !! k = sec2 !! k) →
  solo_compute sec1 = solo_compute sec2.
Proof.
  intros H. unfold solo_compute, burst_design_factor, num, getitem.
  rewrite !H by (repeat first [left | right]). reflexivity.
Qed.

Lemma store_burst_twice (sec : section) (maps load : Q) (df : pyfloat) :
  store_burst (store_burst sec maps load df) maps load df
  = store_burst sec maps load df.
Proof.
  unfold store_burst, update.
  by rewrite (assoc_L (∪)), (idemp_L (∪)).
Qed.

(** The solo analysis writes [maps], [burst_load] and [burst_df] and leaves
    every other field of the section as it was; run again on its own
    result it changes nothing. *)
Theorem calculateSolo_frame_idempotent (sec sec' : section) :
  calculateSoloMapsBurstLoadDF sec = Ok sec' →
  (∀ k, k ≠ "maps" → k ≠ "burst_load" → k ≠ "burst_df" →
        sec' !! k = sec !! k)
  ∧ (∃ maps load df,
       sec' !! "maps" = Some (VNum maps)
       ∧ sec' !! "burst_load" = Some (VNum load)
       ∧ sec' !! "burst_df" = Some (VFloat df))
  ∧ calculateSoloMapsBurstLoadDF sec' = Ok sec'.
Proof.
  unfold calculateSoloMapsBurstLoadDF.
  destruct (solo_compute sec) as [r|] eqn:E; [|done].
  cbn [mbind pyresult_bind]. intros [= <-].
  split; [intros k; apply store_burst_lookup_other|].
  split.
  { exists (solo_maps r), (solo_burst_load r), (solo_burst_df r).
    apply store_burst_lookup. }
  rewrite (solo_compute_ext _ sec), E.
  - cbn [mbind pyresult_bind]. by rewrite store_burst_twice.
  - intros k Hk. apply store_burst_lookup_other;
      intros ->; repeat (apply elem_of_cons in Hk as [Hk|Hk]; [done|]);
      by apply elem_of_nil in Hk.
Qed.

Lemma calculateSolo_frame_idempotent_witness :
  ∃ sec', calculateSoloMapsBurstLoadDF example_solo = Ok sec'
          ∧ calculateSoloMapsBurstLoadDF sec' = Ok sec'.
Proof.
  assert (H : ∃ sec', calculateSoloMapsBurstLoadDF example_solo = Ok sec').
  { unfold calculateSoloMapsBurstLoadDF.
    rewrite (solo_compute_value example_solo 15.0 8.6 10000 8000 0.1 10000)
      by reflexivity.
    eexists. reflexivity. }
  destruct H as [sec' H]. exists sec'. split; [exact H|].
  exact (proj2 (proj2 (calculateSolo_frame_idempotent example_solo sec' H))).
Defined.

(** The pair analysis of a section with itself is its solo analysis: the
    same maps and the same burst load. *)
Theorem solo_is_pair_with_itself (sec : section) (r : solo_values) :
  solo_compute sec = Ok r →
  ∃ maps load,
    calculate_maps sec sec = Ok maps
    ∧ calculate_burst_load sec sec maps = Ok load
    ∧ maps == solo_maps r
    ∧ load == solo_burst_load r.
Proof.
  unfold solo_compute, calculate_maps, calculate_burst_load.
  destruct (num sec "mud_weight") as [mw|]; [|done].
  destruct (num sec "tvd") as [tvd|]; [|done].
  destruct (num sec "backup_mud") as [bm|]; [|done].
  destruct (num sec "frac_init_pressure") as [fip|]; [|done].
  destruct (num sec "int_gradient") as [ig|]; [|done].
  cbn [mbind pyresult_bind].
  destruct (burst_design_factor _ _) as [df|]; [|done].
  cbn [mbind pyresult_bind]. intros [= <-].
  cbn [solo_maps solo_burst_load].
  eexists _, _. split; [reflexivity|]. split; [reflexivity|].
  split; [ring|].
  rewrite !py_max_Qmax, !py_min_Qmin.
  apply Q.max_compat; [reflexivity|].
  apply Q.min_compat; ring.
Qed.

Lemma solo_is_pair_with_itself_witness :
  ∃ r maps load,
    solo_compute example_solo = Ok r
    ∧ calculate_maps example_solo example_solo = Ok maps
    ∧ calculate_burst_load example_solo example_solo maps = Ok load
    ∧ maps == solo_maps r
    ∧ load == solo_burst_load r.
Proof.
  destruct (solo_compute example_solo) as [r|] eqn:E.
  - destruct (solo_is_pair_with_itself example_solo r E)
      as (maps & load & H1 & H2 & H3 & H4).
    exists r, maps, load. repeat split; assumption.
  - exfalso. vm_compute in E. discriminate.
Defined.

(** The burst load is at least the mud differential, at most the larger of
    the mud differential and the fracture ceiling, and it does not decrease
    when maps grows. *)
Theorem calculate_burst_load_bounds (upper lower : section)
    (maps maps' load load' mw bm tvd fip : Q) :
  upper !! "mud_weight" = Some (VNum mw) →
  upper !! "backup_mud" = Some (VNum bm) →
  upper !! "tvd" = Some (VNum tvd) →
  upper !! "frac_init_pressure" = Some (VNum fip) →
  calculate_burst_load upper lower maps = Ok load →
  calculate_burst_load upper lower maps' = Ok load' →
  Spec.differential_mud_pressure mw bm tvd <= load
  ∧ load <= Qmax (Spec.differential_mud_pressure mw bm tvd)
                 (Spec.fracture_ceiling fip bm tvd)
  ∧ (maps <= maps' → load <= load').
Proof.
  intros H1 H2 H3 H4. unfold calculate_burst_load.
  rewrite (num_lookup _ _ _ H1), (num_lookup _ _ _ H2),
    (num_lookup _ _ _ H3), (num_lookup _ _ _ H4).
  cbn [mbind pyresult_bind].
  destruct (num lower "int_gradient") as [ig2|]; [|done].
  destruct (num upper "int_gradient") as [ig1|]; [|done].
  cbn [mbind pyresult_bind]. intros [= <-] [= <-].
  rewrite !burst_pattern. unfold Spec.computeBurstLoad.
  split; [apply Q.le_max_l|].
  split.
  - apply Q.max_le_compat_l, Q.le_min_l.
  - intros Hle. apply Q.max_le_compat_l, Q.min_le_compat_l.
    unfold Spec.maps_ceiling, Qminus. by apply Qplus_le_l.
Qed.

Lemma calculate_burst_load_bounds_witness :
  ∃ load load',
    calculate_burst_load example_solo example_lower 7000 = Ok load
    ∧ calculate_burst_load example_solo example_lower 7500 = Ok load'
    ∧ (7000 <= 7500 → load <= load').
Proof.
  destruct (calculate_burst_load example_solo example_lower 7000)
    as [load|] eqn:E1; [|exfalso; vm_compute in E1; discriminate].
  destruct (calculate_burst_load example_solo example_lower 7500)
    as [load'|] eqn:E2; [|exfalso; vm_compute in E2; discriminate].
  exists load, load'. split; [reflexivity|]. split; [reflexivity|].
  apply (calculate_burst_load_bounds example_solo example_lower 7000 7500
           load load' 15.0 8.6 10000 8000); try reflexivity; assumption.
Defined.

End burst_extras.

(** ** Further properties of the assembler *)

Section assembler_extras.
Import WellBoreExpanded.

(** The constructor accepts exactly the wells with a positive maximum
    measured depth, a positive maximum true vertical depth and a top of
    liner that is not negative; it reports the first of the three that
    fails. *)
Theorem new_validates (name : string) (top bottom md tvd tol fg : Q)
    (method : string) :
  (0 < md ∧ 0 < tvd ∧ 0 <= tol ↔
   new name top bottom md tvd tol fg method
   = Ok (String_init name top bottom method md tvd tol fg))
  ∧ (md <= 0 →
     new name top bottom md tvd tol fg method
     = Raise (ValueError ["max_md_depth must be a positive number."]))
  ∧ (0 < md → tvd <= 0 →
     new name top bottom md tvd tol fg method
     = Raise (ValueError ["max_tvd_depth must be a positive number."]))
  ∧ (0 < md → 0 < tvd → tol < 0 →
     new name top bottom md tvd tol fg method
     = Raise (ValueError
                ["tol (top of liner) must be a non-negative number."])).
Proof.
  unfold new, _validate_initial_parameters.
  cbn [max_md_depth max_tvd_depth WellBoreExpanded.tol String_init].
  destruct (Qle_bool md 0) eqn:E1.
  { apply Qle_bool_iff in E1.
    assert (Hn : ¬ 0 < md) by (intros H; exact (Qlt_not_le _ _ H E1)).
    split; [split; [tauto | done]|]. split; [done|]. split; tauto. }
  assert (H1 : 0 < md) by (apply (gt_true md 0); unfold gt; by rewrite E1).
  assert (Hn1 : ¬ md <= 0) by (intros H; exact (Qlt_not_le _ _ H1 H)).
  destruct (Qle_bool tvd 0) eqn:E2.
  { apply Qle_bool_iff in E2.
    assert (Hn : ¬ 0 < tvd) by (intros H; exact (Qlt_not_le _ _ H E2)).
    split; [split; [tauto | done]|]. split; [tauto|]. split; [done | tauto]. }
  assert (H2 : 0 < tvd) by (apply (gt_true tvd 0); unfold gt; by rewrite E2).
  assert (Hn2 : ¬ tvd <= 0) by (intros H; exact (Qlt_not_le _ _ H2 H)).
  destruct (lt tol 0) eqn:E3.
  { apply lt_true in E3.
    assert (Hn : ¬ 0 <= tol) by (intros H; exact (Qlt_not_le _ _ E3 H)).
    split; [split; [tauto | done]|]. split; [tauto|]. split; [tauto | done]. }
  apply lt_false in E3.
  assert (Hn3 : ¬ tol < 0) by (intros H; exact (Qlt_not_le _ _ H E3)).
  cbn [mbind pyresult_bind].
  split; [split; [done | tauto]|]. split; [tauto|]. split; tauto.
Qed.

Lemma new_validates_witness :
  new "Wellbore (Planned)" 0 1000 (-100) 900 0 0.8 "top_down"
  = Raise (ValueError ["max_md_depth must be a positive number."]).
Proof.
  apply (proj1 (proj2 (new_validates "Wellbore (Planned)" 0 1000 (-100) 900
                         0 0.8 "top_down"))).
  by vm_compute.
Defined.

(** Raw fields that lack a required parameter are refused, whatever the
    strategy and the state of the well: the [ValueError] names exactly the
    required parameters that are missing, in the order of the list. *)
Theorem add_section_with_properties_missing (self : t) (kwargs : section) :
  ¬ all_required kwargs →
  ∃ missing,
    add_section_with_properties self kwargs = Raise (ValueError missing)
    ∧ missing ≠ []
    ∧ missing `sublist_of` required_params
    ∧ (∀ p, p ∈ missing ↔ p ∈ required_params ∧ kwargs !! p = None).
Proof.
  intros Hn. unfold add_section_with_properties.
  set (missing := filter (fun param => negb (contains kwargs param))
                    required_params).
  assert (Hmem : ∀ p, p ∈ missing ↔ p ∈ required_params ∧ kwargs !! p = None).
  { intros p. unfold missing. rewrite list_elem_of_filter.
    rewrite <- contains_false. split.
    - intros [Hp Hin]. split; [exact Hin|]. by destruct (contains kwargs p).
    - intros [Hin Hc]. split; [by rewrite Hc | exact Hin]. }
  assert (Hne : missing ≠ []).
  { intros He. apply Hn. unfold all_required. apply Forall_forall.
    intros p Hp. destruct (kwargs !! p) as [v|] eqn:E; [by eexists|].
    assert (Hin : p ∈ missing) by (by apply Hmem).
    rewrite He in Hin. by apply elem_of_nil in Hin. }
  exists missing. destruct missing as [|m ms] eqn:E; [done|].
  split; [done|]. split; [done|].
  split; [rewrite <- E; apply sublist_filter | exact Hmem].
Qed.

Lemma add_section_with_properties_missing_witness :
  ∃ missing,
    add_section_with_properties example_well_top_down
      (delete "tvd" (raw_fields "surface" 500 500))
    = Raise (ValueError missing)
    ∧ missing ≠ [].
Proof.
  destruct (add_section_with_properties_missing example_well_top_down
              (delete "tvd" (raw_fields "surface" 500 500)))
    as (missing & H1 & H2 & _).
  - intros H. unfold all_required, required_params in H.
    apply Forall_cons in H as [_ H]. apply Forall_cons in H as [[v Hv] _].
    vm_compute in Hv. discriminate.
  - exists missing. split; assumption.
Defined.

(** The calculation pass needs a staged section: on a well without
    sections it raises [KeyError]. *)
Theorem calcParametersContained_empty (self : t) :
  sections self = [] → calcParametersContained self = Raise KeyError.
Proof. intros H. unfold calcParametersContained. by rewrite H. Qed.

Lemma calcParametersContained_empty_witness :
  calcParametersContained example_well_top_down = Raise KeyError.
Proof. by apply calcParametersContained_empty. Defined.

Lemma labelled_no_position {V} (d : list (key * V)) (i : nat) :
  Forall (fun k => ∃ s, k = KStr s) (keys d) →
  subscript d (KInt i) = Raise KeyError.
Proof.
  intros H. unfold subscript.
  destruct (dict_get (KInt i) d) as [v|] eqn:E; [|done].
  assert (Hin : KInt i ∈ keys d) by (apply dict_get_elem_of; by eexists).
  rewrite Forall_forall in H. by destruct (H _ Hin) as [s Hs].
Qed.

(** Once the sections are keyed by label the well is final: the
    calculation pass cannot be run again and neither strategy can stage a
    further section; each raises [KeyError]. *)
Theorem relabelled_well_is_final (self : t) (kwargs : section) :
  labelled (sections self) →
  calcParametersContained self = Raise KeyError
  ∧ add_section_top_down_new self kwargs = Raise KeyError
  ∧ add_section_bottom_up_new self kwargs = Raise KeyError.
Proof.
  intros [Hne Hl].
  split; [|split].
  - unfold calcParametersContained.
    destruct (sections self) as [|kv d] eqn:E; [done|].
    cbn [length seq calc_pass fst].
    by rewrite (labelled_no_position _ 0 Hl).
  - unfold add_section_top_down_new, next_top.
    destruct (sections self) as [|kv d] eqn:E; [done|].
    by rewrite (labelled_no_position _ _ Hl).
  - unfold add_section_bottom_up_new, next_bottom.
    destruct (sections self) as [|kv d] eqn:E; [done|].
    by rewrite (labelled_no_position _ _ Hl).
Qed.

Lemma relabelled_well_is_final_witness :
  calcParametersContained
    (set_sections [(KStr "surface", raw_fields "surface" 1000 950)]
       example_well_top_down) = Raise KeyError.
Proof.
  apply (relabelled_well_is_final
           (set_sections [(KStr "surface", raw_fields "surface" 1000 950)]
              example_well_top_down) ∅).
  split; [discriminate|]. repeat constructor. by eexists.
Defined.

#[local] Instance key_order_transitive {A} (key_fn : A → pyresult Q)
    (reverse : bool) : Transitive (key_order key_fn reverse).
Proof.
  intros a b c (x & y & Hx & Hy & Hxy) (y' & z & Hy' & Hz & Hyz).
  rewrite Hy in Hy'. injection Hy' as <-.
  exists x, z. split; [done|]. split; [done|].
  destruct reverse; eapply Qle_trans; eauto.
Qed.

(** After a bottom-up insertion position 0 holds a section of greatest
    md_bottom-else-bottom, the deepest one, and the boundary derived for
    the next insertion is the md_top-else-top of that section. *)
Theorem bottom_up_head_is_deepest (self self' : t) (kwargs : section) :
  staged_bottom_up self →
  plain_depths kwargs →
  add_section_bottom_up_new self kwargs = Ok self' →
  ∃ (first : section) (deepest boundary : Q),
    head (values (sections self')) = Some first
    ∧ depth_key first = Ok deepest
    ∧ (∀ s k, s ∈ values (sections self') → depth_key s = Ok k →
              k <= deepest)
    ∧ get_or first "md_top" "top" = Ok (VNum boundary)
    ∧ next_bottom self'
      = Ok (length (values (sections self')), VNum boundary).
Proof.
  intros Hst Hplain Hadd.
  destruct (add_section_bottom_up_new_staged self kwargs Hst Hplain)
    as (w1 & bd & dv & Hadd' & _ & _ & Hperm & _ & Hsorted & _ & Hst1 & _).
  rewrite Hadd in Hadd'. injection Hadd' as <-.
  destruct (next_bottom_staged self' Hst1) as (boundary & Hnext & Hb).
  destruct (values (sections self')) as [|first rest] eqn:E.
  { apply Permutation_length in Hperm. rewrite length_app in Hperm.
    cbn in Hperm. lia. }
  cbn [head] in Hb.
  apply Sorted_StronglySorted in Hsorted; [|apply _].
  apply StronglySorted_inv in Hsorted as [_ Hall].
  destruct Hst1 as [_ Hnum]. rewrite E in Hnum.
  apply Forall_cons in Hnum as [(_ & Hbot & _ & Hmb) _].
  destruct (depth_key_number first Hbot Hmb) as [deepest Hd].
  exists first, deepest, boundary.
  split; [done|]. split; [exact Hd|].
  split; [|split; [exact Hb | exact Hnext]].
  intros s k Hin Hk. apply elem_of_cons in Hin as [-> | Hin].
  - rewrite Hd in Hk. injection Hk as <-. apply Qle_refl.
  - rewrite Forall_forall in Hall.
    destruct (Hall s Hin) as (x & y & Hx & Hy & Hle).
    rewrite Hd in Hx. injection Hx as <-.
    rewrite Hk in Hy. by injection Hy as <-.
Qed.

(** The theorem at a well with the production string staged from 700 to
    1000 and the surface string inserted: the production string stays at
    position 0, and the next boundary is read from it. *)
Lemma bottom_up_head_is_deepest_witness :
  ∃ (self' : t) (first : section) (deepest boundary : Q),
    add_section_bottom_up_new example_well_production
      (raw_fields "surface" 700 700) = Ok self'
    ∧ (fun s : section => s !! "bottom") <$> values (sections self')
      = [Some (VNum 1000); Some (VNum 700)]
    ∧ head (values (sections self')) = Some first
    ∧ depth_key first = Ok deepest
    ∧ (∀ s k, s ∈ values (sections self') → depth_key s = Ok k →
              k <= deepest)
    ∧ next_bottom self' = Ok (2%nat, VNum boundary).
Proof.
  assert (H : match add_section_bottom_up_new example_well_production
                      (raw_fields "surface" 700 700) with
              | Ok w => Some ((fun s : section => s !! "bottom")
                              <$> values (sections w))
              | Raise _ => None
              end = Some [Some (VNum 1000); Some (VNum 700)])
    by (vm_compute; reflexivity).
  destruct (add_section_bottom_up_new example_well_production
              (raw_fields "surface" 700 700)) as [w|] eqn:Hadd;
    [|discriminate].
  injection H as H.
  destruct (bottom_up_head_is_deepest example_well_production w
              (raw_fields "surface" 700 700)
              example_well_production_staged
              (raw_fields_plain_depths "surface" 700 700) Hadd)
    as (first & deepest & boundary & H1 & H2 & H3 & _ & H4).
  exists w, first, deepest, boundary.
  split; [reflexivity|]. split; [exact H|]. split; [exact H1|].
  split; [exact H2|]. split; [exact H3|].
  rewrite H4. apply (f_equal length) in H.
  rewrite length_fmap in H. cbn in H. by rewrite H.
Defined.

(** Three bottom-up calls that tile a well from 1000 up to 0: the boundary
    of the third call is read from position 0, the deepest section, so
    with a length of 300 the third section is stored from 400, and the
    flag stays down. *)
Lemma bottom_up_tiling_example :
  ∃ w,
    add_sections example_well_bottom_up
      [<["length" := VNum 300]> (raw_fields "production" 1000 950);
       <["length" := VNum 400]> (raw_fields "intermediate" 700 700);
       <["length" := VNum 300]> (raw_fields "surface" 300 300)] = Ok w
    ∧ (fun s : section => (s !! "top", s !! "bottom"))
      <$> values (sections w)
      = [(Some (VNum 700), Some (VNum 1000));
         (Some (VNum 300), Some (VNum 700));
         (Some (VNum 400), Some (VNum 300))]
    ∧ complete w = false.
Proof.
  assert (H : match add_sections example_well_bottom_up
                      [<["length" := VNum 300]>
                         (raw_fields "production" 1000 950);
                       <["length" := VNum 400]>
                         (raw_fields "intermediate" 700 700);
                       <["length" := VNum 300]>
                         (raw_fields "surface" 300 300)] with
              | Ok w => Some ((fun s : section => (s !! "top", s !! "bottom"))
                              <$> values (sections w), complete w)
              | Raise _ => None
              end
              = Some ([(Some (VNum 700), Some (VNum 1000));
                       (Some (VNum 300), Some (VNum 700));
                       (Some (VNum 400), Some (VNum 300))], false))
    by (vm_compute; reflexivity).
  destruct (add_sections _ _) as [w|]; [|discriminate].
  injection H as H1 H2. by exists w.
Qed.

End assembler_extras.

(** ** Sorting what is sorted *)

Lemma sort_by_id {A} (before : A → A → bool) (l : list A) :
  Sorted (fun a b => before a b = true) l → sort_by before l = l.
Proof.
  induction 1 as [|x l Hs IH Hhd]; cbn; [done|].
  rewrite IH. destruct Hhd as [|y l' Hxy]; cbn; [done|]. by rewrite Hxy.
Qed.

Section sorted_input.
Context {A : Type}.

Lemma keyed_Sorted (key_fn : A → pyresult Q) (reverse : bool)
    (keyed : list (Q * A)) :
  Forall (fun kx => key_fn kx.2 = Ok kx.1) keyed →
  Sorted (key_order key_fn reverse) (map snd keyed) →
  Sorted (fun a b : Q * A =>
            (if reverse then Qle_bool b.1 a.1 else Qle_bool a.1 b.1) = true)
    keyed.
Proof.
  induction keyed as [|kx keyed IH]; intros Hk Hs; [constructor|].
  apply Forall_cons in Hk as [Hkx Hk]. cbn in Hs.
  apply Sorted_inv in Hs as [Hs Hhd].
  constructor; [by apply IH|].
  destruct keyed as [|ky keyed]; constructor.
  apply Forall_cons in Hk as [Hky _]. cbn in Hhd.
  apply HdRel_inv in Hhd as (x & y & Hx & Hy & Hle).
  rewrite Hkx in Hx. injection Hx as <-.
  rewrite Hky in Hy. injection Hy as <-.
  destruct reverse; by apply Qle_bool_iff.
Qed.

(** Sorting a collection that is in order gives it back. *)
Lemma sort_numbers_id (key_fn : A → pyresult Q) (reverse : bool)
    (items : list A) :
  Forall (fun x => ∃ q, key_fn x = Ok q) items →
  Sorted (key_order key_fn reverse) items →
  sort_numbers key_fn reverse items = Ok items.
Proof.
  intros Hk Hs. destruct (keys_of_Ok key_fn items Hk) as (keyed & Hko & Hm & Hf).
  unfold sort_numbers. rewrite Hko. cbn [mbind pyresult_bind]. cbv zeta.
  pose proof (keyed_Sorted key_fn reverse keyed Hf) as Hks.
  rewrite Hm in Hks. specialize (Hks Hs).
  apply sort_by_id in Hks. rewrite Hks. by rewrite Hm.
Qed.

Lemma py_sorted_id (key_fn : A → pyresult pyval) (reverse : bool)
    (items : list A) :
  Forall (fun x => ∃ q, key_fn x = Ok (VNum q)) items →
  Sorted (key_order (number_key key_fn) reverse) items →
  py_sorted key_fn reverse items = Ok items.
Proof.
  intros Hk Hs. rewrite (py_sorted_numbers key_fn reverse items Hk).
  apply sort_numbers_id; [|exact Hs].
  eapply Forall_impl; [exact Hk|]. intros x [q Hq]. exists q.
  unfold number_key. by rewrite Hq.
Qed.

End sorted_input.

Lemma Sorted_indexed_from {V} (R : V → V → Prop) (i : nat) (vs : list V) :
  Sorted R vs → Sorted (fun a b : key * V => R a.2 b.2) (indexed_from i vs).
Proof.
  intros H. revert i. induction H as [|v vs Hs IH Hhd]; intros i; cbn;
    constructor; [apply IH|].
  destruct Hhd; cbn; by constructor.
Qed.

(** Staging a section that belongs last leaves the others where they
    are. *)
Lemma restage_id (key_fn : section → pyresult pyval) (reverse : bool)
    (vs : list section) (s : section) :
  Forall (fun x => ∃ q, key_fn x = Ok (VNum q)) (vs ++ [s]) →
  Sorted (key_order (number_key key_fn) reverse) (vs ++ [s]) →
  py_sorted (fun item : key * section => key_fn item.2) reverse
    (dict_set (KInt (length vs)) s (indexed vs)) = Ok (indexed (vs ++ [s]))
  ∧ reindex (dict_of_items (indexed (vs ++ [s]))) = indexed (vs ++ [s]).
Proof.
  intros Hk Hs. rewrite dict_set_indexed_next. split.
  - apply py_sorted_id.
    + apply Forall_forall. intros [k x] Hin.
      rewrite Forall_forall in Hk. apply Hk.
      rewrite <- (values_indexed (vs ++ [s])).
      unfold values. apply list_elem_of_fmap. by exists (k, x).
    + by apply (Sorted_indexed_from
                  (key_order (number_key key_fn) reverse)).
  - rewrite dict_of_items_id by apply NoDup_keys_indexed_from.
    by rewrite reindex_spec, values_indexed.
Qed.

(** ** Chains of sections *)

Lemma chained_end_snoc (start : Q) (vs : list section) (s : section) (b : Q) :
  chained start vs →
  s !! "top" = Some (VNum (chain_end start vs)) →
  s !! "bottom" = Some (VNum b) →
  chain_end start vs <= b →
  chained start (vs ++ [s]) ∧ chain_end start (vs ++ [s]) = b.
Proof.
  revert start. induction vs as [|v vs IH]; intros start Hc Ht Hb Hle; cbn.
  - cbn in Ht, Hle. rewrite Hb. split; [|done]. by exists b.
  - destruct Hc as (b0 & Ht0 & Hb0 & Hle0 & Hc). cbn in Ht, Hle.
    rewrite Hb0 in Ht, Hle |- *. cbn in Ht, Hle.
    destruct (IH b0 Hc Ht Hb Hle) as [Hc' He].
    split; [|exact He]. by exists b0.
Qed.

Lemma chained_last (start : Q) (vs : list section) :
  chained start vs →
  match last vs with
  | None => chain_end start vs = start
  | Some prev => prev !! "bottom" = Some (VNum (chain_end start vs))
  end.
Proof.
  revert start. induction vs as [|v vs IH]; intros start Hc; [done|].
  destruct Hc as (b0 & Ht0 & Hb0 & Hle0 & Hc).
  specialize (IH b0 Hc). rewrite last_cons. cbn [chain_end].
  rewrite Hb0. cbn. destruct (last vs); [done|]. by rewrite IH.
Qed.

Lemma chained_head_top (start : Q) (vs : list section) (s : section) :
  chained start vs →
  s !! "top" = Some (VNum (chain_end start vs)) →
  ∃ first, head (vs ++ [s]) = Some first
           ∧ first !! "top" = Some (VNum start).
Proof.
  intros Hc Ht. destruct vs as [|v vs]; cbn.
  - by exists s.
  - destruct Hc as (b0 & Ht0 & _). by exists v.
Qed.

Lemma chained_snoc_Sorted (start : Q) (vs : list section) (s : section) :
  chained start vs →
  s !! "top" = Some (VNum (chain_end start vs)) →
  Sorted (key_order top_key false) (vs ++ [s]).
Proof.
  revert start. induction vs as [|v vs IH]; intros start Hc Ht; cbn.
  - by repeat constructor.
  - destruct Hc as (b0 & Ht0 & Hb0 & Hle0 & Hc). cbn in Ht.
    rewrite Hb0 in Ht. cbn in Ht.
    constructor; [by apply (IH b0)|].
    destruct (chained_head_top b0 vs s Hc Ht) as (first & Hh & Hft).
    destruct (vs ++ [s]) as [|f l]; [done|]. injection Hh as ->.
    constructor. exists start, b0. unfold top_key.
    by rewrite (num_lookup _ _ _ Ht0), (num_lookup _ _ _ Hft).
Qed.

(** The spans of a chain add up to its length. *)
Lemma chained_span_sum (start : Q) (vs : list section) :
  chained start vs → span_sum vs == chain_end start vs - start.
Proof.
  revert start. induction vs as [|v vs IH]; intros start Hc; cbn.
  - ring.
  - destruct Hc as (b0 & Ht0 & Hb0 & Hle0 & Hc).
    unfold span_sum in IH. rewrite (IH b0 Hc).
    unfold span. rewrite Ht0, Hb0. cbn. ring.
Qed.

Lemma chained_numbers (start : Q) (vs : list section) :
  chained start vs →
  Forall (fun s => is_number s "top" ∧ is_number s "bottom") vs.
Proof.
  revert start. induction vs as [|v vs IH]; intros start Hc; [constructor|].
  destruct Hc as (b0 & Ht0 & Hb0 & Hle0 & Hc).
  constructor; [split; by eexists | by eapply IH].
Qed.

Section top_down_chain.
Import WellBoreExpanded.

(** Top-down insertions with bottoms that do not rise build a chain: the
    new section goes last and starts where the chain ended, no staged
    section moves, the spans add up to the depth reached minus the well
    top, and the flag goes up when the well bottom is reached: the spans
    then add up to well bottom - well top. *)
Theorem top_down_chain (self : t) (kwargs : section) (b : Q) :
  let vs := values (sections self) in
  method self = "top_down" →
  sections self = indexed vs →
  chained (top self) vs →
  all_required kwargs →
  kwargs !! "bottom" = Some (VNum b) →
  kwargs !! "top" = None →
  chain_end (top self) vs <= b →
  ∃ self',
    add_section_with_properties self kwargs = Ok self'
    ∧ values (sections self')
      = vs ++ [<["top" := VNum (chain_end (top self) vs)]> kwargs]
    ∧ sections self' = indexed (values (sections self'))
    ∧ chained (top self') (values (sections self'))
    ∧ chain_end (top self') (values (sections self')) = b
    ∧ span_sum (values (sections self')) == b - top self
    ∧ (complete self' = true ↔ complete self = true ∨ b == bottom self)
    ∧ (b == bottom self →
       span_sum (values (sections self')) == bottom self - top self)
    ∧ method self' = "top_down"
    ∧ top self' = top self
    ∧ bottom self' = bottom self.
Proof.
  intros vs Hm Hidx Hc Hreq Hb Hnt Hle.
  assert (Hst : staged_top_down self)
    by (split; [exact Hidx | by eapply chained_numbers]).
  destruct (add_section_top_down_new_staged self kwargs b Hst Hb
              (or_introl Hnt))
    as (w1 & bd & Hadd & Hbd & _ & Hidx1 & _ & Hcomp & _ & Hm1 & Ht1 & Hb1).
  fold vs in Hbd.
  assert (Hend : bd = chain_end (top self) vs).
  { pose proof (chained_last _ _ Hc) as Hl.
    destruct (last vs) as [prev|].
    - rewrite Hl in Hbd. by injection Hbd.
    - by rewrite Hl. }
  subst bd.
  set (new_section := <["top" := VNum (chain_end (top self) vs)]> kwargs).
  assert (Hnew_top : new_section !! "top"
                     = Some (VNum (chain_end (top self) vs)))
    by apply lookup_insert_eq.
  assert (Hnew_bot : new_section !! "bottom" = Some (VNum b))
    by (unfold new_section; by rewrite lookup_insert_ne).
  destruct (chained_end_snoc _ vs new_section b Hc Hnew_top Hnew_bot Hle)
    as [Hc' He'].
  assert (Hvals : values (sections w1) = vs ++ [new_section]).
  { destruct (next_top_staged self Hst) as (bd & Hnext & Hbd').
    fold vs in Hnext, Hbd'.
    assert (bd = chain_end (top self) vs) as ->.
    { pose proof (chained_last _ _ Hc) as Hl.
      destruct (last vs) as [prev|].
      - rewrite Hl in Hbd'. by injection Hbd'.
      - by rewrite Hl. }
    destruct (restage_id (fun s => getitem s "top") false vs new_section)
      as [Hs1 Hs2].
    { eapply Forall_impl; [by eapply (chained_numbers _ _ Hc')|].
      intros s [[q Htop] _]. exists q. unfold getitem. by rewrite Htop. }
    { apply (chained_snoc_Sorted (top self)); [exact Hc | exact Hnew_top]. }
    cbv beta in Hs1.
    unfold add_section_top_down_new in Hadd. rewrite Hnext in Hadd.
    cbn [mbind pyresult_bind] in Hadd.
    rewrite (top_insert_update _ _ Hnt) in Hadd. fold new_section in Hadd.
    rewrite Hidx in Hadd.
    rewrite Hs1 in Hadd. cbn [mbind pyresult_bind] in Hadd.
    rewrite Hs2 in Hadd.
    destruct (subscript _ _) as [l|]; [|done].
    cbn [mbind pyresult_bind] in Hadd.
    destruct (getitem l "bottom") as [x|]; [|done].
    cbn [mbind pyresult_bind] in Hadd. injection Hadd as <-.
    cbn. apply values_indexed. }
  exists w1.
  rewrite (add_section_with_properties_complete _ _ Hreq), Hm.
  cbn [String.eqb Ascii.eqb Bool.eqb].
  split; [exact Hadd|]. split; [exact Hvals|]. split; [exact Hidx1|].
  rewrite Hvals, Ht1.
  split; [exact Hc'|]. split; [exact He'|].
  assert (Hsum : span_sum (vs ++ [new_section]) == b - top self)
    by (rewrite (chained_span_sum _ _ Hc'); by rewrite He').
  split; [exact Hsum|].
  assert (Hreach : bottom_reached w1 = Qeq_bool b (bottom self)).
  { unfold bottom_reached. rewrite Hvals, last_snoc, Hnew_bot, Hb1. done. }
  split.
  { rewrite Hcomp, Hreach, orb_true_iff, Qeq_bool_iff. done. }
  split; [intros Heq; by rewrite Hsum, Heq|].
  split; [by rewrite Hm1 | done].
Qed.

Lemma example_well_surface_chained :
  chained (top example_well_surface)
    (values (sections example_well_surface)).
Proof.
  exists 500. split; [reflexivity|]. split; [reflexivity|].
  split; [by vm_compute | exact I].
Qed.

(** The theorem at a well with the surface string staged from 0 to 500:
    the production string to 1000 starts at 500, the two spans add up to
    1000 - 0 and the flag goes up. *)
Lemma top_down_chain_witness :
  ∃ self',
    add_section_with_properties example_well_surface
      (raw_fields "production" 1000 950) = Ok self'
    ∧ values (sections self')
      = values (sections example_well_surface)
        ++ [<["top" := VNum (chain_end (top example_well_surface)
                               (values (sections example_well_surface)))]>
              (raw_fields "production" 1000 950)]
    ∧ span_sum (values (sections self')) == 1000 - 0
    ∧ complete self' = true.
Proof.
  destruct (top_down_chain example_well_surface
              (raw_fields "production" 1000 950) 1000)
    as (w & H1 & H2 & _ & _ & _ & H3 & H4 & _).
  - reflexivity.
  - reflexivity.
  - apply example_well_surface_chained.
  - apply raw_fields_required.
  - reflexivity.
  - reflexivity.
  - by vm_compute.
  - exists w. split; [exact H1|]. split; [exact H2|]. split; [exact H3|].
    apply H4. right. reflexivity.
Defined.

End top_down_chain.

(** ** The calculation pass *)

Lemma dict_set_indexed_from_at {V} (j i : nat) (v : V) (vs : list V) :
  (i < length vs)%nat →
  dict_set (KInt (j + i)) v (indexed_from j vs)
  = indexed_from j (<[i := v]> vs).
Proof.
  revert j i. induction vs as [|v0 vs IH]; intros j i Hi; cbn in Hi; [lia|].
  destruct i as [|i]; cbn.
  - rewrite Nat.add_0_r. by rewrite decide_True.
  - rewrite decide_False by (intros [=]; lia).
    f_equal. replace (j + S i)%nat with (S j + i)%nat by lia.
    apply IH. lia.
Qed.

Lemma dict_set_indexed_at {V} (i : nat) (v : V) (vs : list V) :
  (i < length vs)%nat →
  dict_set (KInt i) v (indexed vs) = indexed (<[i := v]> vs).
Proof. apply (dict_set_indexed_from_at 0). Qed.

Lemma insert_middle {V} (l1 l2 : list V) (x y : V) :
  <[length l1 := y]> (l1 ++ x :: l2) = l1 ++ y :: l2.
Proof. induction l1 as [|a l1 IH]; cbn; [done | by f_equal]. Qed.

(** Reading and writing the section at a position. *)
Lemma subscript_middle {V} (l1 l2 : list V) (x : V) :
  subscript (indexed (l1 ++ x :: l2)) (KInt (length l1)) = Ok x.
Proof. apply subscript_indexed. by apply list_lookup_middle. Qed.

Lemma subscript_next {V} (l1 l2 : list V) (x y : V) :
  subscript (indexed (l1 ++ x :: y :: l2)) (KInt (length l1 + 1)) = Ok y.
Proof.
  apply subscript_indexed.
  replace (l1 ++ x :: y :: l2) with ((l1 ++ [x]) ++ y :: l2)
    by (by rewrite <- app_assoc).
  apply list_lookup_middle. rewrite length_app. cbn. lia.
Qed.

Lemma dict_set_middle {V} (l1 l2 : list V) (x y : V) :
  dict_set (KInt (length l1)) y (indexed (l1 ++ x :: l2))
  = indexed (l1 ++ y :: l2).
Proof.
  rewrite dict_set_indexed_at by (rewrite length_app; cbn; lia).
  by rewrite insert_middle.
Qed.

Lemma Forall2_compose {A} (P : A → Prop) (R S T : A → A → Prop)
    (l1 l2 l3 : list A) :
  (∀ a b c, P a → R a b → S b c → T a c) →
  Forall P l1 → Forall2 R l1 l2 → Forall2 S l2 l3 → Forall2 T l1 l3.
Proof.
  intros H HP H1. revert l3 HP.
  induction H1 as [|a b l1 l2 Hab H1 IH]; intros l3 HP H2;
    inversion H2; subst; [constructor|].
  apply Forall_cons in HP as [Ha HP]. constructor; eauto.
Qed.

Lemma Forall2_right {A B} (P : B → Prop) (l : list A) (k : list B) :
  Forall2 (fun _ y => P y) l k → Forall P k.
Proof. induction 1; constructor; auto. Qed.

#[local] Instance extends_refl (written : list string) :
  Reflexive (extends written).
Proof. by intros a k _. Qed.

#[local] Instance extends_trans (written : list string) :
  Transitive (extends written).
Proof. intros a b c H1 H2 k Hk. by rewrite (H2 k Hk), (H1 k Hk). Qed.

Lemma extends_mono (w1 w2 : list string) (a b : section) :
  w1 ⊆ w2 → extends w1 a b → extends w2 a b.
Proof. intros Hs H k Hk. apply H. intros Hin. by apply Hk, Hs. Qed.

Lemma inputs_not_written : Forall (fun k => k ∉ burst_keys) burst_inputs.
Proof. apply (bool_decide_unpack _). vm_compute. reflexivity. Qed.

Lemma extends_inputs (a b : section) (k : string) :
  extends burst_keys a b → k ∈ burst_inputs → b !! k = a !! k.
Proof.
  intros H Hk. apply H.
  pose proof inputs_not_written as Hn. rewrite Forall_forall in Hn. auto.
Qed.

Lemma burst_ready_extends (a b : section) :
  extends burst_keys a b → burst_ready a → burst_ready b.
Proof.
  intros H Ha. unfold burst_ready in *. rewrite Forall_forall in Ha |- *.
  intros k Hk. destruct (Ha k Hk) as [q Hq]. exists q.
  by rewrite (extends_inputs a b k H Hk).
Qed.

Lemma getitem_lookup (d : section) (k : string) (v : pyval) :
  d !! k = Some v → getitem d k = Ok v.
Proof. intros H. unfold getitem. by rewrite H. Qed.

Lemma num_inv (d : section) (k : string) (q : Q) :
  num d k = Ok q → d !! k = Some (VNum q).
Proof.
  unfold num, getitem. destruct (d !! k) as [[[x|]|]|]; cbn; try done.
  by intros [= ->].
Qed.

Lemma getitem_inv (d : section) (k : string) (v : pyval) :
  getitem d k = Ok v → d !! k = Some v.
Proof. unfold getitem. destruct (d !! k); by intros [= ->]. Qed.

(** Split a list of fields that hold numbers into its equations. *)
Ltac numbers H :=
  repeat (let q := fresh "q" in
          let E := fresh "E" in
          apply Forall_cons in H as [[q E] H]).

(** *** The burst analysis reads the burst inputs only *)

Lemma pair_ext (a a' b b' : section) :
  (∀ k, k ∈ burst_inputs → a' !! k = a !! k) →
  (∀ k, k ∈ burst_inputs → b' !! k = b !! k) →
  calculate_maps a' b' = calculate_maps a b
  ∧ (∀ maps, calculate_burst_load a' b' maps = calculate_burst_load a b maps)
  ∧ (∀ load, burst_design_factor a' load = burst_design_factor a load).
Proof.
  intros Ha Hb.
  unfold calculate_maps, calculate_burst_load, burst_design_factor, num,
    getitem.
  rewrite !Ha, !Hb by (unfold burst_inputs; repeat first [left | right]).
  done.
Qed.

Lemma pair_values (s1 s2 : section) :
  burst_ready s1 → burst_ready s2 →
  ∃ (maps load : Q) (df : pyfloat),
    calculate_maps s1 s2 = Ok maps
    ∧ calculate_burst_load s1 s2 maps = Ok load
    ∧ burst_design_factor s1 load = Ok df.
Proof.
  unfold burst_ready, burst_inputs. intros Hs1 Hs2.
  numbers Hs1. numbers Hs2.
  eexists _, _, _.
  split; [by eapply calculate_maps_value|].
  split; [by eapply calculate_burst_load_value|].
  by eapply burst_design_factor_value.
Qed.

Lemma store_burst_extends (s : section) (maps load : Q) (df : pyfloat) :
  extends burst_keys s (store_burst s maps load df)
  ∧ Forall (fun k => is_Some (store_burst s maps load df !! k)) burst_keys.
Proof.
  split.
  - intros k Hk. unfold burst_keys in Hk.
    repeat (apply not_elem_of_cons in Hk as [? Hk]).
    by apply store_burst_lookup_other.
  - destruct (store_burst_lookup s maps load df) as (H1 & H2 & H3).
    unfold burst_keys. repeat constructor; by eexists.
Qed.

Lemma pair_analysed_store (s nxt : section) (maps load : Q) (df : pyfloat) :
  calculate_maps s nxt = Ok maps →
  calculate_burst_load s nxt maps = Ok load →
  burst_design_factor s load = Ok df →
  pair_analysed (store_burst s maps load df) nxt.
Proof.
  intros Hm Hl Hd.
  destruct (store_burst_extends s maps load df) as [He _].
  destruct (pair_ext s (store_burst s maps load df) nxt nxt)
    as (E1 & E2 & E3); [by intros k Hk; apply extends_inputs | done |].
  destruct (store_burst_lookup s maps load df) as (H1 & H2 & H3).
  exists maps, load, df. by rewrite E1, E2, E3.
Qed.

Lemma pair_analysed_ext (s1 s2 s2' : section) :
  extends burst_keys s2 s2' → pair_analysed s1 s2 → pair_analysed s1 s2'.
Proof.
  intros He (maps & load & df & Hm & Hl & Hd & H).
  destruct (pair_ext s1 s1 s2 s2') as (E1 & E2 & E3);
    [done | by intros k Hk; apply extends_inputs |].
  exists maps, load, df. by rewrite E1, E2.
Qed.

(** The solo analysis of a section that holds the burst inputs. *)
Lemma solo_analysis_ready (s : section) :
  burst_ready s →
  ∃ s', calculateSoloMapsBurstLoadDF s = Ok s'
        ∧ extends burst_keys s s'
        ∧ Forall (fun k => is_Some (s' !! k)) burst_keys
        ∧ solo_analysed s'.
Proof.
  unfold burst_ready, burst_inputs. intros Hs.
  numbers Hs.
  unfold solo_analysed, calculateSoloMapsBurstLoadDF.
  erewrite solo_compute_value by eassumption.
  cbn [mbind pyresult_bind solo_maps solo_burst_load solo_burst_df].
  eexists. split; [reflexivity|].
  split; [apply store_burst_extends|].
  split; [apply store_burst_extends|].
  erewrite solo_compute_ext.
  - erewrite solo_compute_value by eassumption.
    cbn [mbind pyresult_bind solo_maps solo_burst_load solo_burst_df].
    by rewrite store_burst_twice.
  - intros k Hk. apply store_burst_lookup_other;
      intros ->; repeat (apply elem_of_cons in Hk as [Hk|Hk]; [done|]);
      by apply elem_of_nil in Hk.
Qed.

(** *** One calculator run *)

Section calculator_run.
Import CasingDataCalc.

(** What [__init__] read from the section. *)
Lemma init_attrs_inv (casing : section) (up : univ_params) (self : t) :
  init_attrs casing up = Ok self →
  frac_gradient (inp self) = up_frac_gradient up
  ∧ casing !! "tvd" = Some (VNum (tvd (inp self)))
  ∧ casing !! "cement_cu_ft" = Some (VNum (cement_cu_ft (inp self)))
  ∧ casing !! "burst_strength" = Some (burst_strength (inp self))
  ∧ casing !! "tension_strength" = Some (VNum (tension_strength (inp self)))
  ∧ casing !! "od" = Some (VNum (csg_size (inp self)))
  ∧ casing !! "hole_size" = Some (VNum (hole_size (inp self)))
  ∧ casing !! "washout" = Some (VNum (washout (inp self))).
Proof.
  unfold init_attrs.
  repeat match goal with
  | |- context [num casing ?k] =>
      let E := fresh "E" in
      destruct (num casing k) eqn:E; [apply num_inv in E | done];
      cbn [mbind pyresult_bind]
  | |- context [getitem casing ?k] =>
      let E := fresh "E" in
      destruct (getitem casing k) eqn:E; [apply getitem_inv in E | done];
      cbn [mbind pyresult_bind]
  end.
  intros [= <-]. cbn. done.
Qed.

Lemma init_attrs_returns (casing : section) (up : univ_params) :
  Forall (is_number casing) numeric_fields →
  Forall (fun k => is_Some (casing !! k)) carried_fields →
  ∃ self, init_attrs casing up = Ok self.
Proof.
  unfold numeric_fields, carried_fields. intros Hn Hc.
  numbers Hn. numbers Hc.
  unfold init_attrs.
  repeat match goal with
  | H : casing !! ?k = Some (VNum ?q) |- context [num casing ?k] =>
      rewrite (num_lookup casing k q H); cbn [mbind pyresult_bind]
  | H : casing !! ?k = Some ?v |- context [getitem casing ?k] =>
      rewrite (getitem_lookup casing k v H); cbn [mbind pyresult_bind]
  end.
  by eexists.
Qed.

Lemma calculateData_returns (self : t) :
  ¬ (0 < csg_size (inp self)
     ∧ annular_volume_per_foot (hole_size (inp self)) (washout (inp self))
         (csg_size (inp self)) == 0) →
  ∃ self', calculateData self = Ok self'.
Proof.
  intros Hn. destruct (calculateData self) as [s|e] eqn:E; [by eexists|].
  apply calculateData_raise in E.
  pose proof (calculate_cement_height_cases self) as Hc. cbn zeta in Hc.
  destruct (gt (csg_size (inp self)) 0) eqn:Eg; cbn [andb] in Hc.
  - destruct (Qeq_bool _ _) eqn:Ee.
    + exfalso. apply Hn. split; [by apply gt_true | by apply Qeq_bool_iff].
    + destruct Hc as [h Hh]. congruence.
  - destruct Hc as [h Hh]. congruence.
Qed.

(** The results a calculation consolidates. *)
Lemma calculateData_results (self self' : t) :
  calculateData self = Ok self' →
  ∃ (s : t) (h tc m cl : Q) (cdf : pyfloat) (np : Q) (tdf : pyfloat)
    (ta tb : Q),
    inp s = inp self
    ∧ results (drv self')
      = results_dict s h tc m cl cdf np tdf ta tb
          (frac_gradient (inp self) * tvd (inp self)).
Proof.
  unfold calculateData.
  set (s1 := set_annular_volume _ (set_frac_init_pressure _ self)).
  rewrite (calculate_cement_height_inp s1 self eq_refl).
  destruct (calculate_cement_height self) as [h|e]; [|discriminate].
  cbn [mbind pyresult_bind].
  set (s2 := set_cmt_height h s1).
  rewrite (calculate_toc_inp s2 self eq_refl).
  destruct (calculate_toc self) as [tc|e]; [|discriminate].
  cbn [mbind pyresult_bind].
  set (s3 := set_masp _ (set_toc tc s2)).
  set (s4 := set_collapse_load _ s3).
  rewrite (calculate_collapse_df_value s4 _ eq_refl).
  cbn [mbind pyresult_bind].
  set (s5 := set_collapse_df _ s4).
  set (s8 := set_tension_buoyed _ _).
  rewrite (calculate_tension_df_value s8 _ eq_refl).
  cbn [mbind pyresult_bind].
  set (s9 := set_tension_df _ s8).
  intros [= <-]. by eexists s9, _, _, _, _, _, _, _, _, _.
Qed.

Lemma results_dict_other (self : t) (h tc m cl : Q) (cdf : pyfloat)
    (np : Q) (tdf : pyfloat) (ta tb fip : Q) (k : string) :
  k ∉ calc_keys → k ≠ "cement_cu_ft" → k ≠ "burst_strength" →
  k ≠ "tension_strength" →
  results_dict self h tc m cl cdf np tdf ta tb fip !! k = None.
Proof.
  intros Hk H1 H2 H3. unfold calc_keys in Hk.
  repeat (apply not_elem_of_cons in Hk as [? Hk]).
  unfold results_dict. by rewrite !lookup_insert_ne, lookup_empty.
Qed.

Lemma results_dict_carried (self : t) (h tc m cl : Q) (cdf : pyfloat)
    (np : Q) (tdf : pyfloat) (ta tb fip : Q) :
  let r := results_dict self h tc m cl cdf np tdf ta tb fip in
  r !! "cement_cu_ft" = Some (VNum (cement_cu_ft (inp self)))
  ∧ r !! "burst_strength" = Some (burst_strength (inp self))
  ∧ r !! "tension_strength" = Some (VNum (tension_strength (inp self)))
  ∧ r !! "frac_init_pressure" = Some (VNum fip).
Proof.
  unfold results_dict. cbn zeta. split; [|split; [|split]].
  - by rewrite lookup_insert_eq.
  - rewrite !lookup_insert_ne by done. by rewrite lookup_insert_eq.
  - rewrite !lookup_insert_ne by done. by rewrite lookup_insert_eq.
  - rewrite !lookup_insert_ne by done. by rewrite lookup_insert_eq.
Qed.

Lemma results_dict_derived (self : t) (h tc m cl : Q) (cdf : pyfloat)
    (np : Q) (tdf : pyfloat) (ta tb fip : Q) (k : string) :
  k ∈ calc_keys →
  is_Some (results_dict self h tc m cl cdf np tdf ta tb fip !! k).
Proof.
  intros Hk. unfold calc_keys in Hk. unfold results_dict.
  repeat (apply elem_of_cons in Hk as [-> | Hk];
          [rewrite !lookup_insert_ne by done;
           rewrite lookup_insert_eq; by eexists|]).
  by apply elem_of_nil in Hk.
Qed.

(** A calculator built from a calculable section returns, and its results
    add the derived keys of the calculator to the section and change
    nothing else. *)
Lemma new_calculable (up : univ_params) (s : section) :
  calculable s →
  ∃ c, new s up = Ok c
       ∧ extends calc_keys s (update s (get_results c))
       ∧ (∀ k, k ∈ burst_keys → get_results c !! k = None)
       ∧ (∀ k, k ∈ calc_keys → is_Some (get_results c !! k))
       ∧ is_number (get_results c) "frac_init_pressure".
Proof.
  intros (Hn & Hc & Hcem).
  destruct (init_attrs_returns s up Hn Hc) as [c0 Hc0].
  destruct (init_attrs_inv s up c0 Hc0)
    as (_ & _ & Hcu & Hbs & Hts & Hod & Hhs & Hwo).
  destruct (calculateData_returns c0 (Hcem _ _ _ Hod Hhs Hwo)) as [c Hcd].
  destruct (calculateData_results c0 c Hcd)
    as (s9 & h & tc & m & cl & cdf & np & tdf & ta & tb & Hinp & Hres).
  exists c. unfold new. rewrite Hc0. cbn [mbind pyresult_bind].
  split; [exact Hcd|]. unfold get_results. rewrite Hres.
  destruct (results_dict_carried s9 h tc m cl cdf np tdf ta tb
              (frac_gradient (inp c0) * tvd (inp c0)))
    as (R1 & R2 & R3 & R4).
  rewrite Hinp in R1, R2, R3.
  split; [|split; [|split]].
  - intros k Hk. unfold update.
    destruct (decide (k = "cement_cu_ft")) as [->|N1];
      [rewrite Hcu; by apply lookup_union_Some_l|].
    destruct (decide (k = "burst_strength")) as [->|N2];
      [rewrite Hbs; by apply lookup_union_Some_l|].
    destruct (decide (k = "tension_strength")) as [->|N3];
      [rewrite Hts; by apply lookup_union_Some_l|].
    apply lookup_union_r. by apply results_dict_other.
  - intros k Hk. unfold burst_keys in Hk. apply results_dict_other.
    + intros Hin. unfold calc_keys in Hin.
      repeat (apply elem_of_cons in Hk as [-> | Hk];
              [repeat (apply elem_of_cons in Hin as [Hin|Hin]; [done|]);
               by apply elem_of_nil in Hin|]).
      by apply elem_of_nil in Hk.
    + intros ->. repeat (apply elem_of_cons in Hk as [Hk|Hk]; [done|]).
      by apply elem_of_nil in Hk.
    + intros ->. repeat (apply elem_of_cons in Hk as [Hk|Hk]; [done|]).
      by apply elem_of_nil in Hk.
    + intros ->. repeat (apply elem_of_cons in Hk as [Hk|Hk]; [done|]).
      by apply elem_of_nil in Hk.
  - intros k Hk. by apply results_dict_derived.
  - by eexists.
Qed.

End calculator_run.

(** *** The three loops *)

Section passes.
Import WellBoreExpanded.

Lemma Forall2_transfer {A B} (P : A → Prop) (Q : B → Prop)
    (R : A → B → Prop) (l : list A) (k : list B) :
  (∀ a b, P a → R a b → Q b) → Forall P l → Forall2 R l k → Forall Q k.
Proof.
  intros H HP HR. induction HR as [|a b l k Hab HR IH]; [constructor|].
  apply Forall_cons in HP as [Ha HP]. constructor; eauto.
Qed.

(** What one section goes through: the calculator, then the burst
    analysis. *)
Lemma calc_burst_ready (up : CasingDataCalc.univ_params) (s m : section) :
  calculable s →
  (∃ c, CasingDataCalc.new s up = Ok c
        ∧ m = update s (CasingDataCalc.get_results c)) →
  burst_ready m.
Proof.
  intros Hcal (c & Hnew & ->).
  destruct (new_calculable up s Hcal)
    as (c' & Hnew' & Hce & _ & _ & [fip Hfip]).
  rewrite Hnew in Hnew'. injection Hnew' as <-.
  destruct Hcal as (Hn & _). rewrite Forall_forall in Hn.
  assert (Hraw : ∀ k, k ∈ numeric_fields → k ∉ calc_keys →
                      is_number (update s (CasingDataCalc.get_results c)) k).
  { intros k Hk Hnk. destruct (Hn k Hk) as [q Hq]. exists q.
    by rewrite (Hce k Hnk). }
  unfold burst_ready, burst_inputs.
  repeat (apply Forall_cons; split;
          [first [ apply Hraw; apply (bool_decide_unpack _); vm_compute;
                   reflexivity
                 | exists fip; unfold update; by apply lookup_union_Some_l ]|]).
  constructor.
Qed.

Lemma section_result (up : CasingDataCalc.univ_params) (s m o : section) :
  calculable s →
  (∃ c, CasingDataCalc.new s up = Ok c
        ∧ m = update s (CasingDataCalc.get_results c)) →
  extends burst_keys m o ∧ Forall (fun k => is_Some (o !! k)) burst_keys →
  extends derived_keys s o
  ∧ (∃ c, CasingDataCalc.new s up = Ok c
          ∧ CasingDataCalc.get_results c ⊆ o)
  ∧ has_results o.
Proof.
  intros Hcal (c & Hnew & ->) [Hext Hsome].
  destruct (new_calculable up s Hcal) as (c' & Hnew' & Hce & Hnone & Hcs & _).
  rewrite Hnew in Hnew'. injection Hnew' as <-.
  assert (Hkept : ∀ k v, CasingDataCalc.get_results c !! k = Some v →
                         o !! k = Some v).
  { intros k v Hkv.
    assert (Hk : k ∉ burst_keys)
      by (intros Hin; by rewrite (Hnone k Hin) in Hkv).
    rewrite (Hext k Hk). unfold update. by apply lookup_union_Some_l. }
  split; [|split].
  - intros k Hk. unfold derived_keys in Hk.
    apply not_elem_of_app in Hk as [Hk1 Hk2].
    by rewrite (Hext k Hk2), (Hce k Hk1).
  - exists c. split; [done|]. apply map_subseteq_spec. exact Hkept.
  - unfold has_results, derived_keys. apply Forall_app. split; [|done].
    apply Forall_forall. intros k Hk. destruct (Hcs k Hk) as [v Hv].
    exists v. by apply Hkept.
Qed.

(** The first loop, with the sections [done_] already calculated. *)
Lemma calc_pass_spec (up : CasingDataCalc.univ_params) :
  ∀ (rest done_ : list section) (labels0 labels : list string),
  Forall calculable rest →
  Forall2 (fun s l => s !! "casing_type" = Some (VStr l)) rest labels →
  ∃ rest',
    calc_pass up (seq (length done_) (length rest))
      (indexed (done_ ++ rest), labels0)
    = Ok (indexed (done_ ++ rest'), labels0 ++ labels)
    ∧ Forall2 (fun s m => ∃ c, CasingDataCalc.new s up = Ok c
                              ∧ m = update s (CasingDataCalc.get_results c))
        rest rest'.
Proof.
  induction rest as [|s rest IH]; intros done_ labels0 labels Hc Hl.
  - inversion Hl; subst. exists []. cbn [length seq calc_pass]. rewrite !app_nil_r.
    split; [done | constructor].
  - inversion Hl as [|? l ? labels' Hs Hl']; subst.
    apply Forall_cons in Hc as [Hcs Hc].
    destruct (new_calculable up s Hcs) as (c & Hnew & Hext & _).
    cbn [length seq calc_pass fst snd].
    rewrite subscript_middle. cbn [mbind pyresult_bind].
    rewrite Hnew. cbn [mbind pyresult_bind].
    unfold update_section. rewrite subscript_middle.
    cbn [mbind pyresult_bind].
    rewrite dict_set_middle, subscript_middle. cbn [mbind pyresult_bind].
    set (s' := update s (CasingDataCalc.get_results c)).
    assert (Hct : s' !! "casing_type" = Some (VStr l)).
    { rewrite <- Hs. apply Hext.
      apply (bool_decide_unpack _). vm_compute. reflexivity. }
    rewrite (getitem_lookup _ _ _ Hct). cbn [mbind pyresult_bind as_label].
    destruct (IH (done_ ++ [s']) (labels0 ++ [l]) labels' Hc Hl')
      as (rest' & Hp & Hf).
    rewrite length_app in Hp. cbn [length] in Hp.
    rewrite Nat.add_1_r in Hp. rewrite <- !app_assoc in Hp.
    cbn [app] in Hp.
    exists (s' :: rest'). split; [exact Hp|].
    constructor; [by exists c | done].
Qed.

(** The second loop, with the sections [done_] already analysed; the
    section [final] is read and left as it is. *)
Lemma pair_pass_spec :
  ∀ (rest done_ : list section) (final : section),
  Forall burst_ready (rest ++ [final]) →
  ∃ rest',
    pair_pass (seq (length done_) (length rest))
      (indexed (done_ ++ rest ++ [final]))
    = Ok (indexed (done_ ++ rest' ++ [final]))
    ∧ Forall2 (fun a b => extends burst_keys a b
                          ∧ Forall (fun k => is_Some (b !! k)) burst_keys)
        rest rest'
    ∧ (∀ (i : nat) (s1 s2 : section),
         rest' !! i = Some s1 → (rest ++ [final]) !! S i = Some s2 →
         pair_analysed s1 s2).
Proof.
  induction rest as [|s rest IH]; intros done_ final Hr.
  - exists []. split; [done|]. split; [constructor|].
    intros i s1 s2 H. done.
  - cbn [app] in Hr. apply Forall_cons in Hr as [Hs Hr].
    assert (∃ nxt X, rest ++ [final] = nxt :: X) as (nxt & X & EX)
      by (destruct rest; cbn; eauto).
    assert (Hnxt : burst_ready nxt)
      by (rewrite EX in Hr; by apply Forall_cons in Hr as [? _]).
    destruct (pair_values s nxt Hs Hnxt)
      as (maps & load & df & Hm & Hl & Hd).
    assert (Hsub : subscript (indexed (done_ ++ s :: rest ++ [final]))
                     (KInt (length done_ + 1)) = Ok nxt)
      by (rewrite EX; apply subscript_next).
    cbn [length seq pair_pass app].
    rewrite subscript_middle. cbn [mbind pyresult_bind].
    rewrite Hsub. cbn [mbind pyresult_bind].
    rewrite Hm. cbn [mbind pyresult_bind].
    rewrite Hl. cbn [mbind pyresult_bind].
    rewrite Hd. cbn [mbind pyresult_bind].
    rewrite dict_set_middle.
    set (s' := store_burst s maps load df).
    destruct (IH (done_ ++ [s']) final Hr) as (rest' & Hp & Hf & Hpair).
    rewrite length_app in Hp. cbn [length] in Hp.
    rewrite Nat.add_1_r in Hp. rewrite <- !app_assoc in Hp.
    cbn [app] in Hp.
    exists (s' :: rest'). split; [exact Hp|]. split.
    + constructor; [apply store_burst_extends | done].
    + intros [|i] s1 s2 H1 H2; cbn in H1, H2.
      * injection H1 as <-. rewrite EX in H2. injection H2 as <-.
        by apply pair_analysed_store.
      * by eapply Hpair.
Qed.

(** The second and the third loop together, on one section or on
    several. *)
Lemma burst_passes (mid : list section) :
  mid ≠ [] → Forall burst_ready mid →
  ∃ out,
    (if (1 <? length mid)%nat
     then secs ← pair_pass (seq 0 (length mid - 1)) (indexed mid);
          solo_pass secs (length mid - 2 + 1)
     else solo_pass (indexed mid) 0) = Ok (indexed out)
    ∧ Forall2 (fun a b => extends burst_keys a b
                          ∧ Forall (fun k => is_Some (b !! k)) burst_keys)
        mid out
    ∧ (∀ (i : nat) (s1 s2 : section),
         out !! i = Some s1 → out !! S i = Some s2 → pair_analysed s1 s2)
    ∧ (∀ s, last out = Some s → solo_analysed s).
Proof.
  intros Hne Hr.
  induction mid as [|final rest _] using rev_ind; [done|]. clear Hne.
  destruct (pair_pass_spec rest [] final Hr) as (rest' & Hp & Hf & Hpair).
  cbn [length app] in Hp.
  assert (Hlen : length rest' = length rest)
    by (symmetry; eapply Forall2_length; eauto).
  assert (Hfinal : burst_ready final).
  { apply Forall_app in Hr as [_ Hr]. by apply Forall_cons in Hr as [? _]. }
  destruct (solo_analysis_ready final Hfinal)
    as (final' & Hsolo & Hext & Hsome & Hfix).
  assert (Hsp : solo_pass (indexed (rest' ++ [final])) (length rest')
                = Ok (indexed (rest' ++ [final']))).
  { unfold solo_pass. rewrite subscript_middle. cbn [mbind pyresult_bind].
    rewrite Hsolo. cbn [mbind pyresult_bind]. unfold update.
    rewrite (idemp_L (∪)). by rewrite dict_set_middle. }
  assert (Hall : Forall2 (fun a b => extends burst_keys a b
                            ∧ Forall (fun k => is_Some (b !! k)) burst_keys)
                   (rest ++ [final]) (rest' ++ [final'])).
  { apply Forall2_app; [exact Hf|]. constructor; [done | constructor]. }
  exists (rest' ++ [final']). split; [|split; [exact Hall|split]].
  - rewrite length_app. cbn [length].
    destruct (1 <? length rest + 1)%nat eqn:E.
    + apply Nat.ltb_lt in E.
      replace (length rest + 1 - 1)%nat with (length rest) by lia.
      replace (length rest + 1 - 2 + 1)%nat with (length rest') by lia.
      rewrite Hp. cbn [mbind pyresult_bind]. exact Hsp.
    + apply Nat.ltb_ge in E.
      assert (rest = []) as -> by (destruct rest; [done | cbn in E; lia]).
      inversion Hf; subst. exact Hsp.
  - intros i s1 s2 H1 H2.
    assert (Hi : (i < length rest')%nat).
    { apply lookup_lt_Some in H2. rewrite length_app in H2. cbn in H2. lia. }
    rewrite lookup_app_l in H1 by done.
    destruct (Forall2_lookup_r _ _ _ _ _ Hall H2) as (s2o & Ho & He & _).
    eapply pair_analysed_ext; [exact He|]. by eapply Hpair.
  - intros s Hs. rewrite last_snoc in Hs. by injection Hs as <-.
Qed.

(** The three loops of [calcParametersContained], up to the re-keying. *)
Lemma calcParametersContained_passes (self : t) (vs : list section)
    (labels : list string) :
  sections self = indexed vs → vs ≠ [] →
  Forall calculable vs →
  Forall2 (fun s l => s !! "casing_type" = Some (VStr l)) vs labels →
  ∃ out,
    calcParametersContained self
    = create_variables (set_sections (indexed out) self) labels
    ∧ Forall2 (fun s o =>
                 extends derived_keys s o
                 ∧ (∃ c, CasingDataCalc.new s (well_params self) = Ok c
                         ∧ CasingDataCalc.get_results c ⊆ o)
                 ∧ has_results o) vs out
    ∧ (∀ (i : nat) (s1 s2 : section),
         out !! i = Some s1 → out !! S i = Some s2 → pair_analysed s1 s2)
    ∧ (∀ s, last out = Some s → solo_analysed s).
Proof.
  intros Hsec Hne Hcal Hlab.
  destruct (calc_pass_spec (well_params self) vs [] [] labels Hcal Hlab)
    as (mid & Hcp & Hmid).
  cbn [length app] in Hcp. unfold well_params in Hcp.
  assert (Hlen : length mid = length vs)
    by (symmetry; eapply Forall2_length; eauto).
  assert (Hready : Forall burst_ready mid).
  { eapply (Forall2_transfer calculable); [|exact Hcal | exact Hmid].
    intros a b Ha Hab. exact (calc_burst_ready _ a b Ha Hab). }
  assert (Hmne : mid ≠ [])
    by (intros ->; destruct vs; [done | cbn in Hlen; lia]).
  destruct (burst_passes mid Hmne Hready) as (out & Hbp & Hstep & Hrest).
  rewrite Hlen in Hbp.
  exists out. split; [|split; [|exact Hrest]].
  - unfold calcParametersContained. cbv zeta.
    rewrite Hsec, !length_indexed, Hcp. cbn [mbind pyresult_bind].
    by rewrite Hbp.
  - eapply Forall2_compose; [| exact Hcal | exact Hmid | exact Hstep].
    intros a b c Ha Hab Hbc. exact (section_result _ a b c Ha Hab Hbc).
Qed.

(** *** The re-keying, whatever the labels *)

Lemma dict_set_label_app {V} (label : string) (v : V) (i : nat)
    (vs : list V) (d : list (key * V)) :
  dict_set (KStr label) v (indexed_from i vs ++ d)
  = indexed_from i vs ++ dict_set (KStr label) v d.
Proof.
  revert i. induction vs as [|v0 vs IH]; intros i; cbn; [done|].
  rewrite decide_False by done. f_equal. apply IH.
Qed.

Lemma keys_dict_set {V} (k k' : key) (v : V) (d : list (key * V)) :
  k' ∈ keys (dict_set k v d) ↔ k' = k ∨ k' ∈ keys d.
Proof.
  induction d as [|[k0 v0] d IH]; cbn.
  - rewrite list_elem_of_singleton. split; [tauto|].
    intros [H|H]; [done | by apply elem_of_nil in H].
  - destruct (decide (k = k0)) as [->|Hne]; cbn.
    + rewrite !elem_of_cons. tauto.
    + rewrite !elem_of_cons, IH. tauto.
Qed.

(** The loop of [create_variables] returns on sections keyed by position,
    and the keys it leaves are the labels. *)
Lemma rekey_from_keys {V} (labels : list string) :
  ∀ (i : nat) (vs : list V) (d : list (key * V)),
  length labels = length vs →
  ∃ d',
    rekey_from i labels (indexed_from i vs ++ d) = Ok d'
    ∧ (∀ k, k ∈ keys d' ↔ k ∈ keys d ∨ ∃ l, l ∈ labels ∧ k = KStr l).
Proof.
  induction labels as [|label labels IH]; intros i vs d Hlen.
  - destruct vs; [|done]. exists d. split; [done|].
    intros k. split; [tauto|]. intros [H|(l & H & _)]; [done|].
    by apply elem_of_nil in H.
  - destruct vs as [|v vs]; [done|].
    cbn [rekey_from indexed_from]. unfold rekey.
    rewrite <- app_comm_cons, dict_pop_head. cbn [mbind pyresult_bind].
    rewrite dict_set_label_app.
    destruct (IH (S i) vs (dict_set (KStr label) v d)) as (d' & Hd' & Hk);
      [cbn in Hlen; lia|].
    exists d'. split; [exact Hd'|].
    intros k. rewrite Hk, keys_dict_set. split.
    + intros [[->|H]|(l & Hl & ->)].
      * right. exists label. split; [left | done].
      * by left.
      * right. exists l. split; [by right | done].
    + intros [H|(l & Hl & ->)]; [left; by right|].
      apply elem_of_cons in Hl as [->|Hl]; [left; by left|].
      right. by exists l.
Qed.

(** The staged sections of the example are calculable. *)
Lemma numbers_check (s : section) (ks : list string) :
  forallb (fun k => match s !! k with
                    | Some (VFloat (Fin _)) => true
                    | _ => false
                    end) ks = true →
  Forall (is_number s) ks.
Proof.
  intros H. apply Forall_forall. intros k Hk.
  rewrite forallb_forall in H. apply list_elem_of_In in Hk.
  specialize (H k Hk). unfold is_number.
  destruct (s !! k) as [[[q|]|]|]; try done. by exists q.
Qed.

Lemma present_check (s : section) (ks : list string) :
  forallb (contains s) ks = true →
  Forall (fun k => is_Some (s !! k)) ks.
Proof.
  intros H. apply Forall_forall. intros k Hk.
  rewrite forallb_forall in H. apply list_elem_of_In in Hk.
  apply contains_true. by apply H.
Qed.

Lemma raw_fields_calculable (label : string) (top bottom tvd : Q) :
  calculable (<["top" := VNum top]> (raw_fields label bottom tvd)).
Proof.
  split; [|split].
  - apply numbers_check. vm_compute. reflexivity.
  - apply present_check. vm_compute. reflexivity.
  - intros od hs wo Hod Hhs Hwo.
    vm_compute in Hod. injection Hod as <-.
    vm_compute in Hhs. injection Hhs as <-.
    vm_compute in Hwo. injection Hwo as <-.
    intros [_ H]. vm_compute in H. discriminate.
Qed.

(** The pass and the re-keying, whatever the labels. *)
Lemma calcParametersContained_keyed (self : t) (vs : list section)
    (labels : list string) :
  sections self = indexed vs → vs ≠ [] →
  Forall calculable vs →
  Forall2 (fun s l => s !! "casing_type" = Some (VStr l)) vs labels →
  ∃ secs,
    calcParametersContained self = Ok (set_sections secs self)
    ∧ labelled secs
    ∧ (∀ k, k ∈ keys secs ↔ ∃ l, l ∈ labels ∧ k = KStr l).
Proof.
  intros Hsec Hne Hcal Hlab.
  destruct (calcParametersContained_passes self vs labels Hsec Hne Hcal Hlab)
    as (out & Hrun & Hout & _).
  assert (Hlen : length labels = length out).
  { rewrite <- (Forall2_length _ _ _ Hlab). by eapply Forall2_length. }
  destruct (rekey_from_keys labels 0 out [] Hlen) as (secs & Hre & Hkeys).
  rewrite app_nil_r in Hre.
  assert (Hk : ∀ k, k ∈ keys secs ↔ ∃ l, l ∈ labels ∧ k = KStr l).
  { intros k. rewrite Hkeys. split; [|by right].
    intros [H|H]; [by apply elem_of_nil in H | done]. }
  exists secs. split; [|split; [split|exact Hk]].
  - rewrite Hrun. unfold create_variables, create_variables_on.
    cbn [sections set_sections]. unfold indexed. by rewrite Hre.
  - intros ->. destruct labels as [|l labels].
    + destruct vs; [done | inversion Hlab].
    + assert (Hin : KStr l ∈ keys (@nil (key * section)))
        by (apply Hk; exists l; split; [left | done]).
      by apply elem_of_nil in Hin.
  - apply Forall_forall. intros k Hin. apply Hk in Hin as (l & _ & ->).
    by exists l.
Qed.

(** The calculation pass returns on every well whose staged sections are
    calculable and carry a text label, a well with one section or with
    several, with distinct labels or not.  It changes the sections of the
    well only, and it leaves them keyed by the labels: every key is the
    label of a staged section and every label is a key. *)
Theorem calcParametersContained_returns (self : t) (vs : list section)
    (labels : list string) :
  sections self = indexed vs → vs ≠ [] →
  Forall calculable vs →
  Forall2 (fun s l => s !! "casing_type" = Some (VStr l)) vs labels →
  ∃ secs,
    calcParametersContained self = Ok (set_sections secs self)
    ∧ labelled secs
    ∧ (∀ k, k ∈ keys secs ↔ ∃ l, l ∈ labels ∧ k = KStr l).
Proof. apply calcParametersContained_keyed. Qed.

Lemma calcParametersContained_returns_witness :
  ∃ secs,
    calcParametersContained example_well_staged
    = Ok (set_sections secs example_well_staged)
    ∧ labelled secs.
Proof.
  destruct (calcParametersContained_returns example_well_staged
              example_staged ["surface"; "production"])
    as (secs & H1 & H2 & _).
  - reflexivity.
  - discriminate.
  - apply Forall_cons; split; [apply raw_fields_calculable|].
    apply Forall_cons; split; [apply raw_fields_calculable | constructor].
  - constructor; [reflexivity|]. constructor; [reflexivity | constructor].
  - exists secs. split; assumption.
Defined.

(** With distinct labels the calculation pass leaves one section under
    each label, in the order in which they were staged.  Each holds what
    was staged and, under the derived keys and nowhere else, what the pass
    computed: the results of a calculator built from the staged section
    and the well-wide parameters, and the burst analysis, of each section
    against the one below it and of the last one on its own, the latter
    for a mud weight other than the backup mud weight. *)
Theorem calcParametersContained_results (self : t) (vs : list section)
    (labels : list string) :
  sections self = indexed vs → vs ≠ [] →
  Forall calculable vs →
  Forall2 (fun s l => s !! "casing_type" = Some (VStr l)) vs labels →
  NoDup labels →
  ∃ out,
    calcParametersContained self
    = Ok (set_sections (zip (KStr <$> labels) out) self)
    ∧ Forall2 (extends derived_keys) vs out
    ∧ Forall2 (fun s o =>
                 ∃ c, CasingDataCalc.new s (well_params self) = Ok c
                      ∧ CasingDataCalc.get_results c ⊆ o) vs out
    ∧ Forall has_results out
    ∧ (∀ (i : nat) (s1 s2 : section),
         out !! i = Some s1 → out !! S i = Some s2 → pair_analysed s1 s2)
    ∧ (∀ s, last out = Some s → unequal_mud s → solo_analysed s).
Proof.
  intros Hsec Hne Hcal Hlab Hnd.
  destruct (calcParametersContained_passes self vs labels Hsec Hne Hcal Hlab)
    as (out & Hrun & Hout & Hpair & Hsolo).
  assert (Hlen : length labels = length out).
  { rewrite <- (Forall2_length _ _ _ Hlab). by eapply Forall2_length. }
  exists out. split; [|split; [|split; [|split; [|split]]]].
  - rewrite Hrun. unfold create_variables, create_variables_on.
    cbn [sections set_sections]. unfold indexed.
    rewrite <- (app_nil_r (indexed_from 0 out)).
    rewrite rekey_from_spec; [done..|]. intros l _ H. inversion H.
  - eapply Forall2_impl; [exact Hout|]. by intros a b (H & _).
  - eapply Forall2_impl; [exact Hout|]. by intros a b (_ & H & _).
  - eapply (Forall2_right has_results vs).
    eapply Forall2_impl; [exact Hout|]. by intros a b (_ & _ & H).
  - exact Hpair.
  - intros s Hs _. by apply Hsolo.
Qed.

Lemma calcParametersContained_results_witness :
  ∃ out,
    calcParametersContained example_well_staged
    = Ok (set_sections (zip (KStr <$> ["surface"; "production"]) out)
            example_well_staged)
    ∧ Forall has_results out.
Proof.
  destruct (calcParametersContained_results example_well_staged
              example_staged ["surface"; "production"])
    as (out & H1 & _ & _ & H2 & _).
  - reflexivity.
  - discriminate.
  - apply Forall_cons; split; [apply raw_fields_calculable|].
    apply Forall_cons; split; [apply raw_fields_calculable | constructor].
  - constructor; [reflexivity|]. constructor; [reflexivity | constructor].
  - apply (bool_decide_unpack _). reflexivity.
  - exists out. split; assumption.
Defined.

End passes.

(** ** From the raw fields to the results *)

Section pipeline.
Import WellBoreExpanded.

Lemma Forall_exists_Forall2 {A B} (R : A → B → Prop) (l : list A) :
  Forall (fun a => ∃ b, R a b) l → ∃ k, Forall2 R l k.
Proof.
  induction 1 as [|a l [b Hb] _ [k Hk]]; [by exists [] |].
  exists (b :: k). by constructor.
Qed.

(** A top-down run stages every call, each with the top the strategy
    derived unless the call carries one. *)
Lemma add_sections_top_down_staged (calls : list section) :
  ∀ self : t,
  method self = "top_down" → staged_top_down self →
  Forall top_down_call calls →
  ∃ (self' : t) (staged : list section),
    add_sections self calls = Ok self'
    ∧ Forall2 (fun kwargs s => ∃ t : Q, s = stored_top_down t kwargs)
        calls staged
    ∧ values (sections self') ≡ₚ values (sections self) ++ staged
    ∧ staged_top_down self'.
Proof.
  induction calls as [|kwargs calls IH]; intros self Hm Hst Hcalls.
  - exists self, []. rewrite app_nil_r. split; [done|].
    split; [constructor | done].
  - apply Forall_cons in Hcalls as [(Hreq & [b Hb] & Hnt) Hcalls].
    destruct (add_section_top_down_new_staged self kwargs b Hst Hb Hnt)
      as (w1 & bd & Hadd & _ & Hperm & _ & _ & _ & Hst1 & Hm1 & _).
    fold (stored_top_down bd kwargs) in Hperm.
    destruct (IH w1) as (w' & staged & Hrun & Hf & Hperm' & Hst');
      [by rewrite Hm1 | done | done |].
    exists w', (stored_top_down bd kwargs :: staged).
    cbn [add_sections].
    rewrite (add_section_with_properties_complete _ _ Hreq), Hm.
    cbn [String.eqb Ascii.eqb Bool.eqb].
    rewrite Hadd. cbn [mbind pyresult_bind].
    split; [exact Hrun|]. split; [constructor; [by exists bd | done]|].
    split; [|done]. rewrite Hperm', Hperm, <- app_assoc. done.
Qed.

(** A run of top-down calls on a well without sections, followed by the
    calculation pass, returns: every call is staged, and the pass leaves
    the sections keyed by the labels of the calls. *)
Theorem top_down_pipeline (self : t) (calls : list section) :
  method self = "top_down" → sections self = [] → calls ≠ [] →
  Forall calculable_call calls →
  ∃ (staged : t) (secs : list (key * section)),
    add_sections self calls = Ok staged
    ∧ length (sections staged) = length calls
    ∧ calcParametersContained staged = Ok (set_sections secs staged)
    ∧ labelled secs
    ∧ (∀ k, k ∈ keys secs
            ↔ ∃ kwargs l, kwargs ∈ calls
                          ∧ kwargs !! "casing_type" = Some (VStr l)
                          ∧ k = KStr l).
Proof.
  intros Hm Hsec Hne Hcalls.
  assert (Hst : staged_top_down self)
    by (unfold staged_top_down; rewrite Hsec; split; [done | constructor]).
  destruct (add_sections_top_down_staged calls self Hm Hst) as
    (w & staged & Hrun & Hf & Hperm & Hst').
  { eapply Forall_impl; [exact Hcalls|]. by intros kw (H & _). }
  rewrite Hsec in Hperm. cbn [values map app] in Hperm.
  set (vs := values (sections w)) in *.
  assert (Hlen : length vs = length calls).
  { rewrite (Permutation_length Hperm). symmetry. by eapply Forall2_length. }
  assert (Hfrom : ∀ s, s ∈ vs →
            ∃ kwargs (t : Q), kwargs ∈ calls ∧ s = stored_top_down t kwargs).
  { intros s Hs. rewrite Hperm in Hs.
    apply list_elem_of_lookup in Hs as [i Hi].
    destruct (Forall2_lookup_r _ _ _ _ _ Hf Hi) as (kw & Hkw & t & ->).
    exists kw, t. split; [by eapply list_elem_of_lookup_2 | done]. }
  assert (Hto : ∀ kwargs, kwargs ∈ calls →
            ∃ t : Q, stored_top_down t kwargs ∈ vs).
  { intros kw Hkw. apply list_elem_of_lookup in Hkw as [i Hi].
    destruct (Forall2_lookup_l _ _ _ _ _ Hf Hi) as (s & Hs & t & ->).
    exists t. rewrite Hperm. by eapply list_elem_of_lookup_2. }
  rewrite Forall_forall in Hcalls.
  assert (Hcal : Forall calculable vs).
  { apply Forall_forall. intros s Hs.
    destruct (Hfrom s Hs) as (kw & t & Hkw & ->).
    by destruct (Hcalls kw Hkw) as (_ & _ & H). }
  assert (Hlab : ∃ labels,
            Forall2 (fun s l => s !! "casing_type" = Some (VStr l)) vs labels).
  { apply Forall_exists_Forall2, Forall_forall. intros s Hs.
    destruct (Hfrom s Hs) as (kw & t & Hkw & ->).
    destruct (Hcalls kw Hkw) as (_ & [l Hl] & _).
    exists l. by apply stored_top_down_lookup. }
  destruct Hlab as [labels Hlab].
  destruct (calcParametersContained_keyed w vs labels)
    as (secs & Hpass & Hlabelled & Hkeys);
    [by destruct Hst' | | done | done |].
  { intros E. rewrite E in Hlen. by destruct calls. }
  exists w, secs. split; [exact Hrun|].
  split; [by rewrite <- Hlen; unfold vs, values; rewrite length_map|].
  split; [exact Hpass|]. split; [exact Hlabelled|].
  intros k. rewrite Hkeys. split.
  - intros (l & Hl & ->). apply list_elem_of_lookup in Hl as [i Hi].
    destruct (Forall2_lookup_r _ _ _ _ _ Hlab Hi) as (s & Hs & Hsl).
    destruct (Hfrom s (list_elem_of_lookup_2 _ _ _ Hs)) as (kw & t & Hkw & ->).
    exists kw, l.
    rewrite (proj2 (proj2 (stored_top_down_lookup t kw))) in Hsl by done.
    done.
  - intros (kw & l & Hkw & Hl & ->). destruct (Hto kw Hkw) as [t Ht].
    apply list_elem_of_lookup in Ht as [i Hi].
    destruct (Forall2_lookup_l _ _ _ _ _ Hlab Hi) as (l' & Hl' & Hsl).
    rewrite (proj2 (proj2 (stored_top_down_lookup t kw))), Hl in Hsl
      by done.
    injection Hsl as <-.
    exists l. split; [by eapply list_elem_of_lookup_2 | done].
Qed.

Lemma raw_fields_call (label : string) (bottom tvd : Q) :
  calculable_call (raw_fields label bottom tvd).
Proof.
  split; [|split].
  - split; [apply raw_fields_required|].
    split; [by exists bottom | left; reflexivity].
  - by exists label.
  - intros t. unfold stored_top_down.
    rewrite top_insert_update by reflexivity.
    apply raw_fields_calculable.
Qed.

Lemma top_down_pipeline_witness :
  ∃ (staged : t) (secs : list (key * section)),
    add_sections example_well_top_down
      [raw_fields "surface" 500 500; raw_fields "production" 1000 950]
    = Ok staged
    ∧ calcParametersContained staged = Ok (set_sections secs staged)
    ∧ labelled secs.
Proof.
  destruct (top_down_pipeline example_well_top_down
              [raw_fields "surface" 500 500;
               raw_fields "production" 1000 950])
    as (staged & secs & H1 & _ & H2 & H3 & _).
  - reflexivity.
  - reflexivity.
  - discriminate.
  - apply Forall_cons; split; [apply raw_fields_call|].
    apply Forall_cons; split; [apply raw_fields_call | constructor].
  - exists staged, secs. split; [exact H1|]. split; assumption.
Defined.

End pipeline.

(** ** The calculator on its inputs *)

Section calculator_inputs.
Import CasingDataCalc.

Lemma product_zero (a b : Q) : a * b == 0 ↔ a == 0 ∨ b == 0.
Proof.
  split.
  - apply Qmult_integral.
  - intros [H|H]; rewrite H; ring.
Qed.

(** After a calculation the collapse design factor is the sentinel exactly
    when the casing is set at depth 0 or in a mud of weight 0. *)
Theorem collapse_df_infinite_iff (self self' : t) :
  calculateData self = Ok self' →
  (collapse_df (drv self') = Some PosInf
   ↔ set_depth (inp self) == 0 ∨ mud_weight (inp self) == 0).
Proof.
  intros H. apply calculateData_inv in H as (_ & _ & Hdf & _).
  rewrite Hdf.
  assert (Hz : calculate_collapse_load self == 0
               ↔ set_depth (inp self) == 0 ∨ mud_weight (inp self) == 0).
  { unfold calculate_collapse_load. rewrite <- product_zero. split.
    - intros E. assert (E' : set_depth (inp self) * mud_weight (inp self)
                             * 0.052 == 0) by (rewrite <- E; ring).
      apply product_zero in E' as [E'|E']; [done | discriminate].
    - intros E. unfold Qminus. rewrite E. ring. }
  rewrite <- Hz.
  destruct (nef (calculate_collapse_load self) 0) eqn:E.
  - apply nef_true in E. split; [done | tauto].
  - apply nef_false in E. tauto.
Qed.

Lemma collapse_df_infinite_iff_witness :
  ∃ self', calculateData example_self = Ok self'
           ∧ (collapse_df (drv self') = Some PosInf
              ↔ set_depth (inp example_self) == 0
                ∨ mud_weight (inp example_self) == 0).
Proof.
  destruct (calculateData example_self) as [self'|] eqn:E.
  - exists self'. split; [reflexivity|].
    exact (collapse_df_infinite_iff example_self self' E).
  - exfalso. apply calculateData_raise in E. vm_compute in E. discriminate.
Defined.






(** Barlow's burst pressure is [2 * S * t / D] for a casing with an outer
    diameter other than 0, and a [ZeroDivisionError] for one with outer
    diameter 0, a casing for which the cement height is 0 and the
    calculation returns. *)
Theorem calculate_burst_pressure_barlow (self : t) (strength wall : Q) :
  let a := inp self in
  burst_strength a = VNum strength → wall_thickness a = VNum wall →
  (¬ csg_size a == 0 →
   calculate_burst_pressure self = Ok (2 * strength * wall / csg_size a))
  ∧ (csg_size a == 0 →
     calculate_burst_pressure self = Raise ZeroDivisionError
     ∧ calculate_cement_height self = Ok 0
     ∧ returns (calculateData self)).
Proof.
  intros a HS Ht. subst a. unfold calculate_burst_pressure.
  rewrite HS, Ht. cbn [as_num VNum mbind pyresult_bind].
  split.
  - intros Hne. by apply py_div_nonzero.
  - intros Hz. split; [by apply py_div_zero|].
    assert (Hg : gt (csg_size (inp self)) 0 = false)
      by (apply gt_false; rewrite Hz; apply Qle_refl).
    assert (Hh : calculate_cement_height self = Ok 0)
      by (unfold calculate_cement_height, cement_height_branch;
          by rewrite Hg).
    split; [exact Hh|].
    destruct (calculateData self) as [s|e] eqn:E; [by eexists|].
    apply calculateData_raise in E. congruence.
Qed.

Lemma calculate_burst_pressure_barlow_witness :
  calculate_burst_pressure example_self = Ok (2 * 12460 * 0.453 / 7.0).
Proof.
  apply (proj1 (calculate_burst_pressure_barlow example_self 12460 0.453
                  eq_refl eq_refl)).
  by vm_compute.
Defined.

End calculator_inputs.

